(** * TowerDefense: a shallow embedding of the simulation core

    The development follows the Python sources module by module:
    [const.py], [enemy_data.py], [turret_data.py], [enemy.py], [turret.py],
    [world.py] and the game logic of [main.py].

    Conventions.
    - Python [int] is [Z]; Python [float] is read as an exact rational [Q]
      (every constant of the data tables is a decimal fraction).
    - [pygame.time.get_ticks()] is the argument [now] of each operation.
    - A Python exception is an [outcome]: [Raise e s] keeps the state [s] that
      the mutations performed before the exception left behind.
    - [math.sqrt], and [random.shuffle] with its generator state, belong to the
      language runtime; they are the fields of the class [Platform]. *)

From Stdlib Require Import ZArith QArith Qround Qabs Lia Lqa.
From stdpp Require Import base option list gmap strings.

Local Open Scope Z_scope.

(** ** Python runtime helpers *)

Inductive exn := IndexError | ValueError | AttributeError.

Inductive outcome (S : Type) : Type :=
| Ok (s : S)
| Raise (e : exn) (s : S).
Arguments Ok {S} s.
Arguments Raise {S} e s.

(** The state in which the operation stopped, normally or not. *)
Definition final {S} (o : outcome S) : S :=
  match o with Ok s => s | Raise _ s => s end.

Definition raised {S} (o : outcome S) : option exn :=
  match o with Ok _ => None | Raise e _ => Some e end.

Definition obind {S} (o : outcome S) (k : S -> outcome S) : outcome S :=
  match o with Ok s => k s | Raise e s => Raise e s end.

Definition omap {S T} (f : S -> T) (o : outcome S) : outcome T :=
  match o with Ok s => Ok (f s) | Raise e s => Raise e (f s) end.

Notation "o >>> k" := (obind o k) (at level 61, left associativity).

(** [l[i]] for a Python list: negative indices count from the end, anything
    outside [-len, len) raises [IndexError] (here: [None]). *)
Definition py_getitem {A} (l : list A) (i : Z) : option A :=
  let n := Z.of_nat (length l) in
  if (0 <=? i) && (i <? n) then l !! Z.to_nat i
  else if (- n <=? i) && (i <? 0) then l !! Z.to_nat (n + i)
  else None.

(** [int(q)] on a float: truncation towards zero. *)
Definition py_int (q : Q) : Z := Z.quot (Qnum q) (Zpos (Qden q)).

(** [int(a // b)] for floats: floor of the quotient. *)
Definition py_floordiv (a b : Q) : Z := Qfloor (a / b).

(** Comparisons of floats, as booleans. *)
Definition Qltb (a b : Q) : bool := negb (Qle_bool b a).
Definition Qleb (a b : Q) : bool := Qle_bool a b.
Definition Qeqb (a b : Q) : bool := Qeq_bool a b.

(** What the interpreter provides and the repository only calls. *)
Class Platform := {
  Rng : Type;
  (** [random.shuffle(l)]: the permuted list and the next generator state *)
  shuffle : forall {A : Type}, Rng -> list A -> list A * Rng;
  (** [math.sqrt], also behind [Vector2.length()] *)
  sqrt : Q -> Q
}.

(** ** const.py *)

Inductive TurretKind := standard | camo | purple.

Module c.
Definition SPAWN_COOLDOWN : Z := 800.
Definition HEALTH : Z := 100.
Definition MONEY : Z := 700.
Definition UPGRADE_COST : Z := 100.
Definition SELL_RETURN_RATE : Q := 3 # 10.
Definition turret_buy_costs (k : TurretKind) : Z :=
  match k with standard => 200 | camo => 200 | purple => 500 end.
Definition TIDAL_MULTIPLIER : Q := 125 # 100.
Definition TIDAL_DURATION : Z := 30000.
Definition TIDAL_UPGRADE_COST : Z := 50.
Definition WAVE_COMPLETE_REWARD : Z := 50.
Definition TILE_SIZE : Z := 48.
Definition ROWS : Z := 20.
Definition COLS : Z := 20.
End c.

(** ** turret_data.py *)

Record TurretStats := {
  ts_range : Z;
  ts_cooldown : Z;
  ts_damage : Z;
  ts_animation_steps : Z;
  (** the keys "slow_amount" and "slow_duration", present for purple only *)
  ts_slow_amount : option Q;
  ts_slow_duration : option Z
}.

Definition plain_stats (r cd d a : Z) : TurretStats :=
  {| ts_range := r; ts_cooldown := cd; ts_damage := d; ts_animation_steps := a;
     ts_slow_amount := None; ts_slow_duration := None |}.

Definition slow_stats (r cd d a : Z) (sa : Q) (sd : Z) : TurretStats :=
  {| ts_range := r; ts_cooldown := cd; ts_damage := d; ts_animation_steps := a;
     ts_slow_amount := Some sa; ts_slow_duration := Some sd |}.

Definition TURRET_DATA (k : TurretKind) : list TurretStats :=
  match k with
  | standard =>
      [ plain_stats 100 1500 5 8; plain_stats 120 1200 5 8;
        plain_stats 130 1000 5 8; plain_stats 150 900 5 8 ]
  | camo =>
      [ plain_stats 110 1600 5 8; plain_stats 130 1300 5 8;
        plain_stats 140 1100 5 8; plain_stats 160 1000 5 8 ]
  | purple =>
      [ slow_stats 120 1700 5 11 (3 # 10) 500;
        slow_stats 140 1600 7 11 (4 # 10) 1000;
        slow_stats 160 1500 8 11 (5 # 10) 1500;
        slow_stats 180 1400 10 11 (5 # 10) 2000 ]
  end.

(** ** enemy_data.py *)

Inductive EnemyKind := weak | medium | strong | elite.

Record EnemyStats := {
  es_health : Q;
  es_speed : Q;
  es_damage_inflicted : Z;
  es_kill_reward : Z
}.

Definition ENEMY_DATA (k : EnemyKind) : EnemyStats :=
  match k with
  | weak => {| es_health := 10; es_speed := 1;
               es_damage_inflicted := 1; es_kill_reward := 10 |}
  | medium => {| es_health := 15; es_speed := 15 # 10;
                 es_damage_inflicted := 5; es_kill_reward := 15 |}
  | strong => {| es_health := 20; es_speed := 2;
                 es_damage_inflicted := 10; es_kill_reward := 20 |}
  | elite => {| es_health := 30; es_speed := 3;
                es_damage_inflicted := 15; es_kill_reward := 25 |}
  end.

(** One dictionary per wave, in the key order of the source. *)
Definition wave (w m s e : Z) : list (EnemyKind * Z) :=
  [ (weak, w); (medium, m); (strong, s); (elite, e) ].

Definition WAVE_ENEMY_DATA : list (list (EnemyKind * Z)) :=
  [ wave 8 0 0 0; wave 15 0 0 0; wave 30 0 0 0; wave 20 5 0 0;
    wave 30 15 0 0; wave 5 20 0 0; wave 15 15 4 0; wave 20 25 5 0;
    wave 10 20 15 0; wave 15 10 5 0; wave 0 100 0 0; wave 5 10 12 2;
    wave 0 15 10 5; wave 20 0 25 10; wave 15 15 15 15; wave 25 25 25 25 ].

(** ** world.py *)

(** The parsed level file: the "Background" tile ids and the polyline of the
    "waypoints" layer.  Parsing itself is the level loader's business. *)
Record LevelData := {
  ld_tile_map : list Z;
  ld_waypoints : list (Q * Q)
}.

Module World.

Record World := {
  level : Z;
  health : Z;
  money : Z;
  tile_map : list Z;
  waypoints : list (Q * Q);
  level_data : LevelData;
  enemy_list : list EnemyKind;
  spawned_enemies : Z;
  killed_enemies : Z;
  missed_enemies : Z
}.

Definition set_level (v : Z) (w : World) : World :=
  {| level := v; health := health w; money := money w; tile_map := tile_map w;
     waypoints := waypoints w; level_data := level_data w;
     enemy_list := enemy_list w; spawned_enemies := spawned_enemies w;
     killed_enemies := killed_enemies w; missed_enemies := missed_enemies w |}.

Definition set_health (v : Z) (w : World) : World :=
  {| level := level w; health := v; money := money w; tile_map := tile_map w;
     waypoints := waypoints w; level_data := level_data w;
     enemy_list := enemy_list w; spawned_enemies := spawned_enemies w;
     killed_enemies := killed_enemies w; missed_enemies := missed_enemies w |}.

Definition set_money (v : Z) (w : World) : World :=
  {| level := level w; health := health w; money := v; tile_map := tile_map w;
     waypoints := waypoints w; level_data := level_data w;
     enemy_list := enemy_list w; spawned_enemies := spawned_enemies w;
     killed_enemies := killed_enemies w; missed_enemies := missed_enemies w |}.

Definition set_enemy_list (v : list EnemyKind) (w : World) : World :=
  {| level := level w; health := health w; money := money w;
     tile_map := tile_map w; waypoints := waypoints w;
     level_data := level_data w; enemy_list := v;
     spawned_enemies := spawned_enemies w;
     killed_enemies := killed_enemies w; missed_enemies := missed_enemies w |}.

Definition set_spawned_enemies (v : Z) (w : World) : World :=
  {| level := level w; health := health w; money := money w;
     tile_map := tile_map w; waypoints := waypoints w;
     level_data := level_data w; enemy_list := enemy_list w;
     spawned_enemies := v;
     killed_enemies := killed_enemies w; missed_enemies := missed_enemies w |}.

Definition set_killed_enemies (v : Z) (w : World) : World :=
  {| level := level w; health := health w; money := money w;
     tile_map := tile_map w; waypoints := waypoints w;
     level_data := level_data w; enemy_list := enemy_list w;
     spawned_enemies := spawned_enemies w;
     killed_enemies := v; missed_enemies := missed_enemies w |}.

Definition set_missed_enemies (v : Z) (w : World) : World :=
  {| level := level w; health := health w; money := money w;
     tile_map := tile_map w; waypoints := waypoints w;
     level_data := level_data w; enemy_list := enemy_list w;
     spawned_enemies := spawned_enemies w;
     killed_enemies := killed_enemies w; missed_enemies := v |}.

(** [World.__init__] *)
Definition init (world_data : LevelData) : World :=
  {| level := 1; health := c.HEALTH; money := c.MONEY; tile_map := [];
     waypoints := []; level_data := world_data; enemy_list := [];
     spawned_enemies := 0; killed_enemies := 0; missed_enemies := 0 |}.

(** [process_data] with [process_waypoints]: the tile ids are taken over and
    every point of the polyline is appended to [waypoints]. *)
Definition process_data (w : World) : World :=
  {| level := level w; health := health w; money := money w;
     tile_map := ld_tile_map (level_data w);
     waypoints := waypoints w ++ ld_waypoints (level_data w);
     level_data := level_data w; enemy_list := enemy_list w;
     spawned_enemies := spawned_enemies w;
     killed_enemies := killed_enemies w; missed_enemies := missed_enemies w |}.

Section Roster.
Context `{Platform}.

(** One round of the outer loop of [process_enemies]: append
    [enemies_to_spawn] copies of the kind, then shuffle the whole list. *)
Definition add_kind (st : World * Rng) (entry : EnemyKind * Z) : World * Rng :=
  let '(w, r) := st in
  let '(enemy_type, enemies_to_spawn) := entry in
  let l := enemy_list w ++ replicate (Z.to_nat enemies_to_spawn) enemy_type in
  let '(l', r') := shuffle r l in
  (set_enemy_list l' w, r').

(** [process_enemies]: the table is indexed with [level - 1] first. *)
Definition process_enemies (st : World * Rng) : outcome (World * Rng) :=
  match py_getitem WAVE_ENEMY_DATA (level (fst st) - 1) with
  | None => Raise IndexError st
  | Some enemies => Ok (foldl add_kind st enemies)
  end.

End Roster.

Definition is_wave_completed (w : World) : bool :=
  killed_enemies w + missed_enemies w =? Z.of_nat (length (enemy_list w)).

Definition reset_values (w : World) : World :=
  {| level := level w + 1; health := health w; money := money w;
     tile_map := tile_map w; waypoints := waypoints w;
     level_data := level_data w; enemy_list := [];
     spawned_enemies := 0; killed_enemies := 0; missed_enemies := 0 |}.

End World.

(** ** pygame.math.Vector2, as far as enemy.py uses it *)

Module Vector2.
Section Ops.
Context `{Platform}.

Definition Vector2 : Type := (Q * Q)%type.

Definition sub (a b : Vector2) : Vector2 := (a.1 - b.1, a.2 - b.2)%Q.
Definition add (a b : Vector2) : Vector2 := (a.1 + b.1, a.2 + b.2)%Q.
Definition scale (a : Vector2) (k : Q) : Vector2 := (a.1 * k, a.2 * k)%Q.

Definition length (a : Vector2) : Q := sqrt (a.1 * a.1 + a.2 * a.2)%Q.

(** [normalize()] raises [ValueError] on a vector of length zero. *)
Definition normalize (a : Vector2) : option Vector2 :=
  let l := length a in
  if Qeqb l 0 then None else Some (a.1 / l, a.2 / l)%Q.

End Ops.
End Vector2.

(** ** enemy.py *)

Inductive Difficulty := easy | normal | hard.

Module Enemy.

Record Enemy := {
  enemy_type : EnemyKind;
  waypoints : list (Q * Q);
  pos : Q * Q;
  target_waypoint : Z;
  health_multiplier : Q;
  speed_multiplier : Q;
  health : Q;
  max_health : Q;
  original_speed : Q;
  speed : Q;
  damage_inflicted : Z;
  is_slowed : bool;
  slow_timer : Z;
  (** membership in the sprite group: [kill()] clears it *)
  alive : bool
}.

Definition set_pos (v : Q * Q) (e : Enemy) : Enemy :=
  {| enemy_type := enemy_type e; waypoints := waypoints e; pos := v;
     target_waypoint := target_waypoint e;
     health_multiplier := health_multiplier e;
     speed_multiplier := speed_multiplier e; health := health e;
     max_health := max_health e; original_speed := original_speed e;
     speed := speed e; damage_inflicted := damage_inflicted e;
     is_slowed := is_slowed e; slow_timer := slow_timer e; alive := alive e |}.

Definition set_target_waypoint (v : Z) (e : Enemy) : Enemy :=
  {| enemy_type := enemy_type e; waypoints := waypoints e; pos := pos e;
     target_waypoint := v;
     health_multiplier := health_multiplier e;
     speed_multiplier := speed_multiplier e; health := health e;
     max_health := max_health e; original_speed := original_speed e;
     speed := speed e; damage_inflicted := damage_inflicted e;
     is_slowed := is_slowed e; slow_timer := slow_timer e; alive := alive e |}.

Definition set_health (v : Q) (e : Enemy) : Enemy :=
  {| enemy_type := enemy_type e; waypoints := waypoints e; pos := pos e;
     target_waypoint := target_waypoint e;
     health_multiplier := health_multiplier e;
     speed_multiplier := speed_multiplier e; health := v;
     max_health := max_health e; original_speed := original_speed e;
     speed := speed e; damage_inflicted := damage_inflicted e;
     is_slowed := is_slowed e; slow_timer := slow_timer e; alive := alive e |}.

(** The three attributes the slow effect writes. *)
Definition set_slow (slowed : bool) (v : Q) (timer : Z) (e : Enemy) : Enemy :=
  {| enemy_type := enemy_type e; waypoints := waypoints e; pos := pos e;
     target_waypoint := target_waypoint e;
     health_multiplier := health_multiplier e;
     speed_multiplier := speed_multiplier e; health := health e;
     max_health := max_health e; original_speed := original_speed e;
     speed := v; damage_inflicted := damage_inflicted e;
     is_slowed := slowed; slow_timer := timer; alive := alive e |}.

(** [Sprite.kill()]: the sprite leaves every group. *)
Definition kill (e : Enemy) : Enemy :=
  {| enemy_type := enemy_type e; waypoints := waypoints e; pos := pos e;
     target_waypoint := target_waypoint e;
     health_multiplier := health_multiplier e;
     speed_multiplier := speed_multiplier e; health := health e;
     max_health := max_health e; original_speed := original_speed e;
     speed := speed e; damage_inflicted := damage_inflicted e;
     is_slowed := is_slowed e; slow_timer := slow_timer e; alive := false |}.

Definition multipliers (difficulty : Difficulty) : Q * Q :=
  match difficulty with
  | easy => (75 # 100, 9 # 10)
  | hard => (125 # 100, 12 # 10)
  | normal => (1, 1)
  end%Q.

(** [Enemy.__init__]; [waypoints[0]] raises [IndexError] on an empty path,
    which is the [None] here.  The new sprite is alive once the caller has
    added it to the group. *)
Definition init (enemy_type : EnemyKind) (waypoints : list (Q * Q))
    (difficulty : Difficulty) : option Enemy :=
  match py_getitem waypoints 0 with
  | None => None
  | Some start =>
      let '(hm, sm) := multipliers difficulty in
      let h := (es_health (ENEMY_DATA enemy_type) * hm)%Q in
      let s := (es_speed (ENEMY_DATA enemy_type) * sm)%Q in
      Some {| enemy_type := enemy_type; waypoints := waypoints; pos := start;
              target_waypoint := 1;
              health_multiplier := hm; speed_multiplier := sm;
              health := h; max_health := h;
              original_speed := s; speed := s;
              damage_inflicted := es_damage_inflicted (ENEMY_DATA enemy_type);
              is_slowed := false; slow_timer := 0; alive := true |}
  end.

Section Behaviour.
Context `{Platform}.

(** [move(world)] *)
Definition move (st : World.World * Enemy) : outcome (World.World * Enemy) :=
  let '(world, self) := st in
  if target_waypoint self <? Z.of_nat (length (waypoints self)) then
    match py_getitem (waypoints self) (target_waypoint self) with
    | None => Raise IndexError st
    | Some target =>
        let movement := Vector2.sub target (pos self) in
        let dist := Vector2.length movement in
        if Qleb (speed self) dist then
          match Vector2.normalize movement with
          | None => Raise ValueError st
          | Some n =>
              Ok (world,
                  set_pos (Vector2.add (pos self) (Vector2.scale n (speed self)))
                    self)
          end
        else if negb (Qeqb dist 0) then
          match Vector2.normalize movement with
          | None => Raise ValueError st
          | Some n =>
              let self := set_pos (Vector2.add (pos self) (Vector2.scale n dist))
                            self in
              Ok (world, set_target_waypoint (target_waypoint self + 1) self)
          end
        else Ok (world, set_target_waypoint (target_waypoint self + 1) self)
    end
  else
    let world := World.set_health (World.health world - damage_inflicted self)
                   world in
    let world := World.set_missed_enemies (World.missed_enemies world + 1)
                   world in
    Ok (world, kill self).

(** [rotate()] recomputes [angle], [image] and [rect] only; none of them is
    read by the simulation. *)
Definition rotate (st : World.World * Enemy) : outcome (World.World * Enemy) :=
  Ok st.

(** [check_if_alive(world)] *)
Definition check_if_alive (st : World.World * Enemy)
    : outcome (World.World * Enemy) :=
  let '(world, self) := st in
  if Qleb (health self) 0 then
    let world := World.set_killed_enemies (World.killed_enemies world + 1)
                   world in
    let world := World.set_money
                   (World.money world
                    + es_kill_reward (ENEMY_DATA (enemy_type self))) world in
    Ok (world, kill self)
  else Ok st.

(** [apply_slow(slow_amount, slow_duration)] *)
Definition apply_slow (now : Z) (slow_amount : Q) (slow_duration : Z)
    (self : Enemy) : Enemy :=
  if negb (is_slowed self) then
    set_slow true (original_speed self * (1 - slow_amount))%Q
      (now + slow_duration) self
  else self.

(** [update_slow_effect()] *)
Definition update_slow_effect (now : Z) (self : Enemy) : Enemy :=
  if is_slowed self && (slow_timer self <? now) then
    set_slow false (original_speed self) (slow_timer self) self
  else self.

(** [update(world)]: the four steps run in this order whatever the first
    ones did; [move] returns early from itself only. *)
Definition update (now : Z) (st : World.World * Enemy)
    : outcome (World.World * Enemy) :=
  move st >>> rotate >>> check_if_alive
    >>> (fun st => Ok (st.1, update_slow_effect now st.2)).

End Behaviour.
End Enemy.

(** ** turret.py *)

Module Turret.

Definition ANIMATION_DELAY : Z := 15.

Record Turret := {
  turret_type : TurretKind;
  turret_level : Z;
  base_range : Z;
  base_cooldown : Z;
  base_damage : Z;
  range : Z;
  cooldown : Z;
  damage : Z;
  last_shot : Z;
  selected : bool;
  (** the targeted enemy, by its place in the group when it was acquired;
      the code only ever tests the reference for [None] *)
  target : option nat;
  (** also the length of [animation_list] *)
  animation_steps : Z;
  slow_amount : Q;
  slow_duration : Z;
  mouse_tile_x : Z;
  mouse_tile_y : Z;
  x : Z;
  y : Z;
  frame_index : Z;
  update_time : Z;
  tidal_active : bool;
  tidal_used : bool;
  tidal_end_time : Z;
  TIDAL_MULTIPLIER : Q;
  TIDAL_DURATION : Z
}.

Definition set_turret_level (v : Z) (t : Turret) : Turret :=
  {| turret_type := turret_type t; turret_level := v;
     base_range := base_range t; base_cooldown := base_cooldown t;
     base_damage := base_damage t; range := range t; cooldown := cooldown t;
     damage := damage t; last_shot := last_shot t; selected := selected t;
     target := target t; animation_steps := animation_steps t;
     slow_amount := slow_amount t; slow_duration := slow_duration t;
     mouse_tile_x := mouse_tile_x t; mouse_tile_y := mouse_tile_y t;
     x := x t; y := y t; frame_index := frame_index t;
     update_time := update_time t; tidal_active := tidal_active t;
     tidal_used := tidal_used t; tidal_end_time := tidal_end_time t;
     TIDAL_MULTIPLIER := TIDAL_MULTIPLIER t;
     TIDAL_DURATION := TIDAL_DURATION t |}.

(** Base and current stats together, as [upgrade] reloads them. *)
Definition load_stats (d : TurretStats) (sa : Q) (sd : Z) (t : Turret)
    : Turret :=
  {| turret_type := turret_type t; turret_level := turret_level t;
     base_range := ts_range d; base_cooldown := ts_cooldown d;
     base_damage := ts_damage d; range := ts_range d;
     cooldown := ts_cooldown d; damage := ts_damage d;
     last_shot := last_shot t; selected := selected t;
     target := target t; animation_steps := animation_steps t;
     slow_amount := sa; slow_duration := sd;
     mouse_tile_x := mouse_tile_x t; mouse_tile_y := mouse_tile_y t;
     x := x t; y := y t; frame_index := frame_index t;
     update_time := update_time t; tidal_active := tidal_active t;
     tidal_used := tidal_used t; tidal_end_time := tidal_end_time t;
     TIDAL_MULTIPLIER := TIDAL_MULTIPLIER t;
     TIDAL_DURATION := TIDAL_DURATION t |}.

(** The current stats and the three tidal attributes. *)
Definition set_tidal (r cd d : Z) (active used : bool) (end_time : Z)
    (t : Turret) : Turret :=
  {| turret_type := turret_type t; turret_level := turret_level t;
     base_range := base_range t; base_cooldown := base_cooldown t;
     base_damage := base_damage t; range := r; cooldown := cd;
     damage := d; last_shot := last_shot t; selected := selected t;
     target := target t; animation_steps := animation_steps t;
     slow_amount := slow_amount t; slow_duration := slow_duration t;
     mouse_tile_x := mouse_tile_x t; mouse_tile_y := mouse_tile_y t;
     x := x t; y := y t; frame_index := frame_index t;
     update_time := update_time t; tidal_active := active;
     tidal_used := used; tidal_end_time := end_time;
     TIDAL_MULTIPLIER := TIDAL_MULTIPLIER t;
     TIDAL_DURATION := TIDAL_DURATION t |}.

Definition set_selected (v : bool) (t : Turret) : Turret :=
  {| turret_type := turret_type t; turret_level := turret_level t;
     base_range := base_range t; base_cooldown := base_cooldown t;
     base_damage := base_damage t; range := range t; cooldown := cooldown t;
     damage := damage t; last_shot := last_shot t; selected := v;
     target := target t; animation_steps := animation_steps t;
     slow_amount := slow_amount t; slow_duration := slow_duration t;
     mouse_tile_x := mouse_tile_x t; mouse_tile_y := mouse_tile_y t;
     x := x t; y := y t; frame_index := frame_index t;
     update_time := update_time t; tidal_active := tidal_active t;
     tidal_used := tidal_used t; tidal_end_time := tidal_end_time t;
     TIDAL_MULTIPLIER := TIDAL_MULTIPLIER t;
     TIDAL_DURATION := TIDAL_DURATION t |}.

(** The four attributes of the firing cycle. *)
Definition set_firing (tg : option nat) (shot : Z) (frame : Z) (upd : Z)
    (t : Turret) : Turret :=
  {| turret_type := turret_type t; turret_level := turret_level t;
     base_range := base_range t; base_cooldown := base_cooldown t;
     base_damage := base_damage t; range := range t; cooldown := cooldown t;
     damage := damage t; last_shot := shot; selected := selected t;
     target := tg; animation_steps := animation_steps t;
     slow_amount := slow_amount t; slow_duration := slow_duration t;
     mouse_tile_x := mouse_tile_x t; mouse_tile_y := mouse_tile_y t;
     x := x t; y := y t; frame_index := frame; update_time := upd;
     tidal_active := tidal_active t;
     tidal_used := tidal_used t; tidal_end_time := tidal_end_time t;
     TIDAL_MULTIPLIER := TIDAL_MULTIPLIER t;
     TIDAL_DURATION := TIDAL_DURATION t |}.

Definition set_target (tg : option nat) (t : Turret) : Turret :=
  set_firing tg (last_shot t) (frame_index t) (update_time t) t.

(** The slow parameters an entry of the table gives to a turret of this
    kind: [.get(key, 0)] for purple, plain [0] for the others. *)
Definition slow_of (k : TurretKind) (d : TurretStats) : Q * Z :=
  match k with
  | purple => (default 0%Q (ts_slow_amount d), default 0 (ts_slow_duration d))
  | _ => (0%Q, 0)
  end.

(** [Turret.__init__] at time [now]; [None] stands for the [IndexError] of a
    kind without a level-1 entry. *)
Definition init (now : Z) (turret_type : TurretKind)
    (mouse_tile_x mouse_tile_y x y : Z) : option Turret :=
  let turret_level := 1 in
  match py_getitem (TURRET_DATA turret_type) (turret_level - 1) with
  | None => None
  | Some d =>
      Some {| turret_type := turret_type; turret_level := turret_level;
              base_range := ts_range d; base_cooldown := ts_cooldown d;
              base_damage := ts_damage d; range := ts_range d;
              cooldown := ts_cooldown d; damage := ts_damage d;
              last_shot := now; selected := false; target := None;
              animation_steps := ts_animation_steps d;
              slow_amount := (slow_of turret_type d).1;
              slow_duration := (slow_of turret_type d).2;
              mouse_tile_x := mouse_tile_x; mouse_tile_y := mouse_tile_y;
              x := x; y := y; frame_index := 0; update_time := now;
              tidal_active := false; tidal_used := false;
              tidal_end_time := 0;
              TIDAL_MULTIPLIER := c.TIDAL_MULTIPLIER;
              TIDAL_DURATION := c.TIDAL_DURATION |}
  end.

(** Whether [animation_list[frame_index]] is a valid subscript. *)
Definition frame_ok (t : Turret) : bool :=
  let n := Z.of_nat (Z.to_nat (animation_steps t)) in
  (- n <=? frame_index t) && (frame_index t <? n).

(** [play_animation()] *)
Definition play_animation (now : Z) (self : Turret) : outcome Turret :=
  if negb (frame_ok self) then Raise IndexError self
  else if ANIMATION_DELAY <? now - update_time self then
    if frame_index self <? Z.of_nat (Z.to_nat (animation_steps self)) - 1 then
      Ok (set_firing (target self) (last_shot self) (frame_index self + 1) now
            self)
    else Ok (set_firing None now 0 now self)
  else Ok self.

(** [upgrade()] *)
Definition upgrade (self : Turret) : outcome Turret :=
  if turret_level self <? Z.of_nat (length (TURRET_DATA (turret_type self)))
  then
    let self := set_turret_level (turret_level self + 1) self in
    match py_getitem (TURRET_DATA (turret_type self)) (turret_level self - 1)
    with
    | None => Raise IndexError self
    | Some d =>
        let self := load_stats d (slow_of (turret_type self) d).1
                      (slow_of (turret_type self) d).2 self in
        if frame_ok self then Ok self else Raise IndexError self
    end
  else Ok self.

(** [tidally_upgrade()] *)
Definition tidally_upgrade (now : Z) (self : Turret) : Turret :=
  if negb (tidal_used self) && negb (tidal_active self) then
    set_tidal
      (py_int (inject_Z (base_range self) * TIDAL_MULTIPLIER self))
      (cooldown self)
      (py_int (inject_Z (base_damage self) * TIDAL_MULTIPLIER self))
      true true (now + TIDAL_DURATION self) self
  else self.

(** [reset_tidal_upgrade()] *)
Definition reset_tidal_upgrade (self : Turret) : Turret :=
  set_tidal (base_range self) (base_cooldown self) (base_damage self)
    false (tidal_used self) 0 self.

Section Combat.
Context `{Platform}.

(** [math.sqrt(x_dist**2 + y_dist**2)] between turret and enemy. *)
Definition distance (self : Turret) (enemy : Enemy.Enemy) : Q :=
  let x_dist := ((Enemy.pos enemy).1 - inject_Z (x self))%Q in
  let y_dist := ((Enemy.pos enemy).2 - inject_Z (y self))%Q in
  sqrt (x_dist * x_dist + y_dist * y_dist)%Q.

(** The test of [select_target] on one enemy: alive by health, and closer to
    the turret than its current range. *)
Definition in_reach (self : Turret) (enemy : Enemy.Enemy) : bool :=
  Qltb 0 (Enemy.health enemy) &&
  Qltb (distance self enemy) (inject_Z (range self)).

(** What the turret does to the enemy it acquires. *)
Definition hit (now : Z) (self : Turret) (enemy : Enemy.Enemy) : Enemy.Enemy :=
  let enemy := Enemy.set_health
                 (Enemy.health enemy - inject_Z (damage self))%Q enemy in
  match turret_type self with
  | purple =>
      if Qltb 0 (slow_amount self) && (0 <? slow_duration self) then
        Enemy.apply_slow now (slow_amount self) (slow_duration self) enemy
      else enemy
  | _ => enemy
  end.

(** The loop of [select_target] from the [i]-th enemy of the group on. *)
Fixpoint select_target_from (now : Z) (self : Turret) (i : nat)
    (enemy_group : list Enemy.Enemy) : Turret * list Enemy.Enemy :=
  match enemy_group with
  | [] => (self, [])
  | enemy :: rest =>
      if in_reach self enemy then
        (set_target (Some i) self, hit now self enemy :: rest)
      else
        let '(self', rest') := select_target_from now self (S i) rest in
        (self', enemy :: rest')
  end.

Definition select_target (now : Z) (self : Turret)
    (enemy_group : list Enemy.Enemy) : Turret * list Enemy.Enemy :=
  select_target_from now self 0 enemy_group.

(** The first statement of [update]: an expired tidal upgrade is reset. *)
Definition expire_tidal (now : Z) (self : Turret) : Turret :=
  if tidal_active self && (tidal_end_time self <=? now) then
    reset_tidal_upgrade self
  else self.

(** [update(enemy_group)] *)
Definition update (now : Z) (st : Turret * list Enemy.Enemy)
    : outcome (Turret * list Enemy.Enemy) :=
  let '(self, enemy_group) := st in
  let self := expire_tidal now self in
  match target self with
  | Some _ => omap (fun t => (t, enemy_group)) (play_animation now self)
  | None =>
      if cooldown self <? now - last_shot self then
        Ok (select_target now self enemy_group)
      else Ok (self, enemy_group)
  end.

End Combat.
End Turret.

(** ** main.py: the game logic of class [Game] *)

Inductive GameState := menu | game | game_over.

(** One pygame event, after the excluded collaborators have done their part:
    for a left click, the mapped mouse position, the level file of the map
    image under the cursor (if any) and whether the difficulty button
    reports a click. *)
Inductive event :=
| QUIT
| VIDEORESIZE
| MOUSEBUTTONDOWN (mapped_mouse_pos : Q * Q) (map_hit : option LevelData)
    (difficulty_hit : bool).

(** What [Button.draw] returns in this frame for each button, should the
    frame get to draw it. *)
Record Buttons := {
  begin_button : bool;
  turret_button : bool;
  camo_turret_button : bool;
  purple_turret_button : bool;
  cancel_button : bool;
  upgrade_button : bool;
  tidal_upgrade_button : bool;
  sell_button : bool;
  back_to_menu_button : bool;
  skip_button : bool;
  restart_button : bool
}.

Module Game.
Section WithPlatform.
Context `{Platform}.

Definition SCREEN_WIDTH : Z := c.TILE_SIZE * c.COLS.
Definition SCREEN_HEIGHT : Z := c.TILE_SIZE * c.ROWS.
Definition MAX_LEVELS : Z := Z.of_nat (length WAVE_ENEMY_DATA).
Definition difficulties : list Difficulty := [easy; normal; hard].

Record Game := {
  state : GameState;
  (** what [load_level_data] stored; absent until a map is chosen *)
  world_data : option LevelData;
  current_difficulty_index : Z;
  selected_difficulty : Difficulty;
  game_status : Z;
  wave_started : bool;
  last_enemy_spawn : Z;
  placing_turrets : bool;
  (** the selected turret, by its place in [turret_group] *)
  selected_turret : option nat;
  placement_message : string;
  message_timer : Z;
  current_turret_type : TurretKind;
  occupied_tiles : gmap Z bool;
  world : option World.World;
  enemy_group : list Enemy.Enemy;
  turret_group : list Turret.Turret;
  (** the state of the [random] module *)
  rng : Rng
}.

Definition set_state (v0 : GameState) (g : Game) : Game :=
  {| state := v0; world_data := world_data g;
     current_difficulty_index := current_difficulty_index g;
     selected_difficulty := selected_difficulty g;
     game_status := game_status g; wave_started := wave_started g;
     last_enemy_spawn := last_enemy_spawn g;
     placing_turrets := placing_turrets g;
     selected_turret := selected_turret g;
     placement_message := placement_message g;
     message_timer := message_timer g;
     current_turret_type := current_turret_type g;
     occupied_tiles := occupied_tiles g; world := world g;
     enemy_group := enemy_group g; turret_group := turret_group g;
     rng := rng g |}.

Definition set_world_data (v0 : option LevelData) (g : Game) : Game :=
  {| state := state g; world_data := v0;
     current_difficulty_index := current_difficulty_index g;
     selected_difficulty := selected_difficulty g;
     game_status := game_status g; wave_started := wave_started g;
     last_enemy_spawn := last_enemy_spawn g;
     placing_turrets := placing_turrets g;
     selected_turret := selected_turret g;
     placement_message := placement_message g;
     message_timer := message_timer g;
     current_turret_type := current_turret_type g;
     occupied_tiles := occupied_tiles g; world := world g;
     enemy_group := enemy_group g; turret_group := turret_group g;
     rng := rng g |}.

Definition set_difficulty (v0 : Z) (v1 : Difficulty) (g : Game) : Game :=
  {| state := state g; world_data := world_data g;
     current_difficulty_index := v0; selected_difficulty := v1;
     game_status := game_status g; wave_started := wave_started g;
     last_enemy_spawn := last_enemy_spawn g;
     placing_turrets := placing_turrets g;
     selected_turret := selected_turret g;
     placement_message := placement_message g;
     message_timer := message_timer g;
     current_turret_type := current_turret_type g;
     occupied_tiles := occupied_tiles g; world := world g;
     enemy_group := enemy_group g; turret_group := turret_group g;
     rng := rng g |}.

Definition set_game_status (v0 : Z) (g : Game) : Game :=
  {| state := state g; world_data := world_data g;
     current_difficulty_index := current_difficulty_index g;
     selected_difficulty := selected_difficulty g; game_status := v0;
     wave_started := wave_started g; last_enemy_spawn := last_enemy_spawn g;
     placing_turrets := placing_turrets g;
     selected_turret := selected_turret g;
     placement_message := placement_message g;
     message_timer := message_timer g;
     current_turret_type := current_turret_type g;
     occupied_tiles := occupied_tiles g; world := world g;
     enemy_group := enemy_group g; turret_group := turret_group g;
     rng := rng g |}.

Definition set_wave_started (v0 : bool) (g : Game) : Game :=
  {| state := state g; world_data := world_data g;
     current_difficulty_index := current_difficulty_index g;
     selected_difficulty := selected_difficulty g;
     game_status := game_status g; wave_started := v0;
     last_enemy_spawn := last_enemy_spawn g;
     placing_turrets := placing_turrets g;
     selected_turret := selected_turret g;
     placement_message := placement_message g;
     message_timer := message_timer g;
     current_turret_type := current_turret_type g;
     occupied_tiles := occupied_tiles g; world := world g;
     enemy_group := enemy_group g; turret_group := turret_group g;
     rng := rng g |}.

Definition set_last_enemy_spawn (v0 : Z) (g : Game) : Game :=
  {| state := state g; world_data := world_data g;
     current_difficulty_index := current_difficulty_index g;
     selected_difficulty := selected_difficulty g;
     game_status := game_status g; wave_started := wave_started g;
     last_enemy_spawn := v0; placing_turrets := placing_turrets g;
     selected_turret := selected_turret g;
     placement_message := placement_message g;
     message_timer := message_timer g;
     current_turret_type := current_turret_type g;
     occupied_tiles := occupied_tiles g; world := world g;
     enemy_group := enemy_group g; turret_group := turret_group g;
     rng := rng g |}.

Definition set_placing_turrets (v0 : bool) (g : Game) : Game :=
  {| state := state g; world_data := world_data g;
     current_difficulty_index := current_difficulty_index g;
     selected_difficulty := selected_difficulty g;
     game_status := game_status g; wave_started := wave_started g;
     last_enemy_spawn := last_enemy_spawn g; placing_turrets := v0;
     selected_turret := selected_turret g;
     placement_message := placement_message g;
     message_timer := message_timer g;
     current_turret_type := current_turret_type g;
     occupied_tiles := occupied_tiles g; world := world g;
     enemy_group := enemy_group g; turret_group := turret_group g;
     rng := rng g |}.

Definition set_selected_turret (v0 : option nat) (g : Game) : Game :=
  {| state := state g; world_data := world_data g;
     current_difficulty_index := current_difficulty_index g;
     selected_difficulty := selected_difficulty g;
     game_status := game_status g; wave_started := wave_started g;
     last_enemy_spawn := last_enemy_spawn g;
     placing_turrets := placing_turrets g; selected_turret := v0;
     placement_message := placement_message g;
     message_timer := message_timer g;
     current_turret_type := current_turret_type g;
     occupied_tiles := occupied_tiles g; world := world g;
     enemy_group := enemy_group g; turret_group := turret_group g;
     rng := rng g |}.

Definition set_message (v0 : string) (v1 : Z) (g : Game) : Game :=
  {| state := state g; world_data := world_data g;
     current_difficulty_index := current_difficulty_index g;
     selected_difficulty := selected_difficulty g;
     game_status := game_status g; wave_started := wave_started g;
     last_enemy_spawn := last_enemy_spawn g;
     placing_turrets := placing_turrets g;
     selected_turret := selected_turret g; placement_message := v0;
     message_timer := v1; current_turret_type := current_turret_type g;
     occupied_tiles := occupied_tiles g; world := world g;
     enemy_group := enemy_group g; turret_group := turret_group g;
     rng := rng g |}.

Definition set_current_turret_type (v0 : TurretKind) (g : Game) : Game :=
  {| state := state g; world_data := world_data g;
     current_difficulty_index := current_difficulty_index g;
     selected_difficulty := selected_difficulty g;
     game_status := game_status g; wave_started := wave_started g;
     last_enemy_spawn := last_enemy_spawn g;
     placing_turrets := placing_turrets g;
     selected_turret := selected_turret g;
     placement_message := placement_message g;
     message_timer := message_timer g; current_turret_type := v0;
     occupied_tiles := occupied_tiles g; world := world g;
     enemy_group := enemy_group g; turret_group := turret_group g;
     rng := rng g |}.

Definition set_occupied_tiles (v0 : gmap Z bool) (g : Game) : Game :=
  {| state := state g; world_data := world_data g;
     current_difficulty_index := current_difficulty_index g;
     selected_difficulty := selected_difficulty g;
     game_status := game_status g; wave_started := wave_started g;
     last_enemy_spawn := last_enemy_spawn g;
     placing_turrets := placing_turrets g;
     selected_turret := selected_turret g;
     placement_message := placement_message g;
     message_timer := message_timer g;
     current_turret_type := current_turret_type g; occupied_tiles := v0;
     world := world g; enemy_group := enemy_group g;
     turret_group := turret_group g; rng := rng g |}.

Definition set_world (v0 : option World.World) (g : Game) : Game :=
  {| state := state g; world_data := world_data g;
     current_difficulty_index := current_difficulty_index g;
     selected_difficulty := selected_difficulty g;
     game_status := game_status g; wave_started := wave_started g;
     last_enemy_spawn := last_enemy_spawn g;
     placing_turrets := placing_turrets g;
     selected_turret := selected_turret g;
     placement_message := placement_message g;
     message_timer := message_timer g;
     current_turret_type := current_turret_type g;
     occupied_tiles := occupied_tiles g; world := v0;
     enemy_group := enemy_group g; turret_group := turret_group g;
     rng := rng g |}.

Definition set_enemy_group (v0 : list Enemy.Enemy) (g : Game) : Game :=
  {| state := state g; world_data := world_data g;
     current_difficulty_index := current_difficulty_index g;
     selected_difficulty := selected_difficulty g;
     game_status := game_status g; wave_started := wave_started g;
     last_enemy_spawn := last_enemy_spawn g;
     placing_turrets := placing_turrets g;
     selected_turret := selected_turret g;
     placement_message := placement_message g;
     message_timer := message_timer g;
     current_turret_type := current_turret_type g;
     occupied_tiles := occupied_tiles g; world := world g; enemy_group := v0;
     turret_group := turret_group g; rng := rng g |}.

Definition set_turret_group (v0 : list Turret.Turret) (g : Game) : Game :=
  {| state := state g; world_data := world_data g;
     current_difficulty_index := current_difficulty_index g;
     selected_difficulty := selected_difficulty g;
     game_status := game_status g; wave_started := wave_started g;
     last_enemy_spawn := last_enemy_spawn g;
     placing_turrets := placing_turrets g;
     selected_turret := selected_turret g;
     placement_message := placement_message g;
     message_timer := message_timer g;
     current_turret_type := current_turret_type g;
     occupied_tiles := occupied_tiles g; world := world g;
     enemy_group := enemy_group g; turret_group := v0; rng := rng g |}.

Definition set_rng (v0 : Rng) (g : Game) : Game :=
  {| state := state g; world_data := world_data g;
     current_difficulty_index := current_difficulty_index g;
     selected_difficulty := selected_difficulty g;
     game_status := game_status g; wave_started := wave_started g;
     last_enemy_spawn := last_enemy_spawn g;
     placing_turrets := placing_turrets g;
     selected_turret := selected_turret g;
     placement_message := placement_message g;
     message_timer := message_timer g;
     current_turret_type := current_turret_type g;
     occupied_tiles := occupied_tiles g; world := world g;
     enemy_group := enemy_group g; turret_group := turret_group g;
     rng := v0 |}.
(** [Game.__init__], as far as the simulation goes. *)
Definition init (now : Z) (seed : Rng) : Game :=
  {| state := menu; world_data := None;
     current_difficulty_index := 1; selected_difficulty := normal;
     game_status := 0; wave_started := false; last_enemy_spawn := now;
     placing_turrets := false; selected_turret := None;
     placement_message := EmptyString; message_timer := 0;
     current_turret_type := standard; occupied_tiles := ∅;
     world := None; enemy_group := []; turret_group := []; rng := seed |}.

(** An attribute of [self.world]; [None] has none. *)
Definition with_world {S} (g : Game) (dflt : S)
    (k : World.World -> outcome S) : outcome S :=
  match world g with
  | None => Raise AttributeError dflt
  | Some w => k w
  end.

(** [self.world.process_enemies()] inside the game object. *)
Definition process_enemies (g : Game) : outcome Game :=
  with_world g g (fun w =>
    omap (fun st => set_rng st.2 (set_world (Some st.1) g))
      (World.process_enemies (w, rng g))).

(** [create_turret(mapped_mouse_pos)]; the flag is the returned value. *)
Definition create_turret (now : Z) (mapped_mouse_pos : Q * Q) (g : Game)
    : outcome (Game * bool) :=
  let mouse_tile_x := py_floordiv mapped_mouse_pos.1 (inject_Z c.TILE_SIZE) in
  let mouse_tile_y := py_floordiv mapped_mouse_pos.2 (inject_Z c.TILE_SIZE) in
  let pixel_x := mouse_tile_x * c.TILE_SIZE + c.TILE_SIZE `div` 2 in
  let pixel_y := mouse_tile_y * c.TILE_SIZE + c.TILE_SIZE `div` 2 in
  let mouse_tile_num := mouse_tile_y * c.COLS + mouse_tile_x in
  with_world g (g, false) (fun w =>
    match py_getitem (World.tile_map w) mouse_tile_num with
    | None => Raise IndexError (g, false)
    | Some tile =>
        if tile =? 161 then
          match occupied_tiles g !! mouse_tile_num with
          | None =>
              match Turret.init now (current_turret_type g)
                      mouse_tile_x mouse_tile_y pixel_x pixel_y with
              | None => Raise IndexError (g, false)
              | Some turret =>
                  let g := set_turret_group (turret_group g ++ [turret]) g in
                  let g := set_occupied_tiles
                             (<[mouse_tile_num := true]> (occupied_tiles g))
                             g in
                  Ok (set_message "Turret placed successfully!" now g, true)
              end
          | Some _ => Ok (set_message "Tile is already occupied!" now g, false)
          end
        else Ok (set_message "Invalid placement area." now g, false)
    end).

(** [select_turret(mapped_mouse_pos)]: the first turret on the clicked tile. *)
Fixpoint find_turret (tx ty : Z) (i : nat) (ts : list Turret.Turret)
    : option nat :=
  match ts with
  | [] => None
  | t :: rest =>
      if (tx =? Turret.mouse_tile_x t) && (ty =? Turret.mouse_tile_y t)
      then Some i
      else find_turret tx ty (S i) rest
  end.

Definition select_turret (mapped_mouse_pos : Q * Q) (g : Game) : option nat :=
  let mouse_tile_x := py_floordiv mapped_mouse_pos.1 (inject_Z c.TILE_SIZE) in
  let mouse_tile_y := py_floordiv mapped_mouse_pos.2 (inject_Z c.TILE_SIZE) in
  find_turret mouse_tile_x mouse_tile_y 0 (turret_group g).

(** [restart_level()] *)
Definition restart_level (now : Z) (g : Game) : outcome Game :=
  let g := set_state menu g in
  let g := set_game_status 0 g in
  let g := set_wave_started false g in
  let g := set_placing_turrets false g in
  let g := set_selected_turret None g in
  let g := set_last_enemy_spawn now g in
  let g := set_current_turret_type standard g in
  match world_data g with
  | None => Raise AttributeError g
  | Some data =>
      let g := set_world (Some (World.process_data (World.init data))) g in
      process_enemies g >>> (fun g =>
        let g := set_enemy_group [] g in
        let g := set_turret_group [] g in
        let g := set_occupied_tiles ∅ g in
        Ok (set_message EmptyString 0 g))
  end.

(** A left click while the menu is shown. *)
Definition click_menu (map_hit : option LevelData) (difficulty_hit : bool)
    (g : Game) : outcome Game :=
  match map_hit with
  | Some data =>
      let g := set_world_data (Some data) g in
      let g := set_world (Some (World.process_data (World.init data))) g in
      process_enemies g >>> (fun g => Ok (set_state game g))
  | None =>
      if difficulty_hit then
        let i := (current_difficulty_index g + 1)
                 `mod` Z.of_nat (length difficulties) in
        match py_getitem difficulties i with
        | None => Raise IndexError (set_difficulty i (selected_difficulty g) g)
        | Some d => Ok (set_difficulty i d g)
        end
      else Ok g
  end.

(** A left click while the game is shown: buy a turret or select one. *)
Definition click_game (now : Z) (mapped_mouse_pos : Q * Q) (g : Game)
    : outcome Game :=
  if Qltb mapped_mouse_pos.1 (inject_Z SCREEN_WIDTH)
     && Qltb mapped_mouse_pos.2 (inject_Z SCREEN_HEIGHT) then
    if placing_turrets g then
      let buy_cost := c.turret_buy_costs (current_turret_type g) in
      with_world g g (fun w =>
        if buy_cost <=? World.money w then
          match create_turret now mapped_mouse_pos g with
          | Raise e (g, _) => Raise e g
          | Ok (g, true) =>
              with_world g g (fun w =>
                let g := set_world
                           (Some (World.set_money (World.money w - buy_cost) w))
                           g in
                Ok (set_placing_turrets false g))
          | Ok (g, false) => Ok g
          end
        else Ok (set_message "Not enough money to place turret!" now g))
    else
      let sel := select_turret mapped_mouse_pos g in
      let g := set_selected_turret sel g in
      let g := set_turret_group
                 (Turret.set_selected false <$> turret_group g) g in
      match sel with
      | Some i =>
          Ok (set_turret_group
                (alter (Turret.set_selected true) i (turret_group g)) g)
      | None => Ok g
      end
  else Ok g.

(** [handle_events()] over the events of one frame; the flag is the returned
    value, [false] once [QUIT] was seen. *)
Fixpoint handle_events (now : Z) (events : list event) (g : Game)
    : outcome (Game * bool) :=
  match events with
  | [] => Ok (g, true)
  | QUIT :: _ => Ok (g, false)
  | VIDEORESIZE :: rest => handle_events now rest g
  | MOUSEBUTTONDOWN pos map_hit difficulty_hit :: rest =>
      let r := match state g with
               | menu => click_menu map_hit difficulty_hit g
               | game => click_game now pos g
               | game_over => Ok g
               end in
      match r with
      | Ok g => handle_events now rest g
      | Raise e g => Raise e (g, true)
      end
  end.

(** [enemy_group.update(world)]: every sprite of the group is updated once,
    in order; the flags [alive] tell afterwards who is still a member. *)
Fixpoint update_enemies (now : Z) (w : World.World) (es : list Enemy.Enemy)
    : outcome (World.World * list Enemy.Enemy) :=
  match es with
  | [] => Ok (w, [])
  | e :: rest =>
      match Enemy.update now (w, e) with
      | Raise x (w, e) => Raise x (w, e :: rest)
      | Ok (w, e) =>
          omap (fun st => (st.1, e :: st.2)) (update_enemies now w rest)
      end
  end.

(** [turret_group.update(enemy_group)] *)
Fixpoint update_turrets (now : Z) (ts : list Turret.Turret)
    (es : list Enemy.Enemy) : outcome (list Turret.Turret * list Enemy.Enemy) :=
  match ts with
  | [] => Ok ([], es)
  | t :: rest =>
      match Turret.update now (t, es) with
      | Raise x (t, es) => Raise x (t :: rest, es)
      | Ok (t, es) =>
          omap (fun st => (t :: st.1, st.2)) (update_turrets now rest es)
      end
  end.

Definition members (es : list Enemy.Enemy) : list Enemy.Enemy :=
  filter (fun e => Enemy.alive e = true) es.

(** [update()] *)
Definition update (now : Z) (g : Game) : outcome Game :=
  match state g with
  | game =>
      with_world g g (fun w =>
        if World.health w <=? 0 then
          Ok (set_state game_over (set_game_status (-1) g))
        else if MAX_LEVELS <? World.level w then
          Ok (set_state game_over (set_game_status 1 g))
        else
          omap (fun st => set_enemy_group (members st.2)
                            (set_world (Some st.1) g))
            (update_enemies now w (enemy_group g))
          >>> (fun g =>
            omap (fun st => set_enemy_group st.2 (set_turret_group st.1 g))
              (update_turrets now (turret_group g) (enemy_group g))))
  | _ => Ok g
  end.

(** The sequence both ways of ending a wave run after the health penalty,
    from the reward to the reset of the tidal upgrades. *)
Definition next_wave (now : Z) (g : Game) : outcome Game :=
  with_world g g (fun w =>
    let g := set_world
               (Some (World.set_money
                        (World.money w + c.WAVE_COMPLETE_REWARD) w)) g in
    let g := set_wave_started false g in
    let g := set_last_enemy_spawn now g in
    with_world g g (fun w =>
      let g := set_world (Some (World.reset_values w)) g in
      process_enemies g >>> (fun g =>
        Ok (set_turret_group
              (Turret.reset_tidal_upgrade <$> turret_group g) g)))).

(** The accumulation loop of [skip_wave]. *)
Definition skip_penalty (enemies_to_skip : list Enemy.Enemy) : Z :=
  foldl (fun total_penalty enemy =>
           total_penalty + Enemy.damage_inflicted enemy) 0 enemies_to_skip.

(** [skip_wave()] *)
Definition skip_wave (now : Z) (g : Game) : outcome Game :=
  if negb (wave_started g) then Ok g
  else
    let enemies_to_skip := enemy_group g in
    let total_penalty := skip_penalty enemies_to_skip in
    let g := set_enemy_group [] g in
    with_world g g (fun w =>
      let g := set_world
                 (Some (World.set_health (World.health w - total_penalty) w))
                 g in
      with_world g g (fun w =>
        let g := set_world
                   (Some (World.set_money
                            (World.money w + c.WAVE_COMPLETE_REWARD) w)) g in
        let g := set_wave_started false g in
        let g := set_last_enemy_spawn now g in
        with_world g g (fun w =>
          let g := set_world (Some (World.reset_values w)) g in
          process_enemies g >>> (fun g =>
            Ok (set_turret_group
                  (Turret.reset_tidal_upgrade <$> turret_group g) g))))).

(** *** [draw_game()], block by block *)

(** Lines "Check if wave has been started": spawn pacing, or the begin
    button. *)
Definition spawn_block (now : Z) (b : Buttons) (g : Game) : outcome Game :=
  if wave_started g then
    if c.SPAWN_COOLDOWN <? now - last_enemy_spawn g then
      with_world g g (fun w =>
        if World.spawned_enemies w <? Z.of_nat (length (World.enemy_list w))
        then
          match py_getitem (World.enemy_list w) (World.spawned_enemies w) with
          | None => Raise IndexError g
          | Some enemy_type =>
              match Enemy.init enemy_type (World.waypoints w)
                      (selected_difficulty g) with
              | None => Raise IndexError g
              | Some enemy =>
                  let g := set_enemy_group (enemy_group g ++ [enemy]) g in
                  let g := set_world
                             (Some (World.set_spawned_enemies
                                      (World.spawned_enemies w + 1) w)) g in
                  Ok (set_last_enemy_spawn now g)
              end
          end
        else Ok g)
    else Ok g
  else if begin_button b then Ok (set_wave_started true g)
  else Ok g.

(** Lines "Check if the wave is completed". *)
Definition completion_block (now : Z) (g : Game) : outcome Game :=
  with_world g g (fun w =>
    if World.is_wave_completed w then
      if MAX_LEVELS <? World.level w then
        Ok (set_state game_over (set_game_status 1 g))
      else
        let g := set_world
                   (Some (World.set_money
                            (World.money w + c.WAVE_COMPLETE_REWARD) w)) g in
        let g := set_wave_started false g in
        let g := set_last_enemy_spawn now g in
        with_world g g (fun w =>
          let g := set_world (Some (World.reset_values w)) g in
          process_enemies g >>> (fun g =>
            Ok (set_turret_group
                  (Turret.reset_tidal_upgrade <$> turret_group g) g)))
    else Ok g).

(** The three buy buttons and, in placement mode, the cancel button. *)
Definition shop_block (now : Z) (b : Buttons) (g : Game) : Game :=
  let g := if turret_button b then
             set_message "Placing Standard Turret" now
               (set_current_turret_type standard (set_placing_turrets true g))
           else g in
  let g := if camo_turret_button b then
             set_message "Placing Camo Turret" now
               (set_current_turret_type camo (set_placing_turrets true g))
           else g in
  let g := if purple_turret_button b then
             set_message "Placing Purple Turret" now
               (set_current_turret_type purple (set_placing_turrets true g))
           else g in
  if placing_turrets g && cancel_button b then
    set_message "Turret placement canceled." now (set_placing_turrets false g)
  else g.

(** The selected turret object.  The index is kept valid by every operation
    (selection picks a member, selling and restarting clear the selection);
    a stale index is treated like no selection. *)
Definition the_selected (g : Game) : option (nat * Turret.Turret) :=
  match selected_turret g with
  | None => None
  | Some i => match turret_group g !! i with
              | None => None
              | Some t => Some (i, t)
              end
  end.

(** The UPGRADE button of the selected turret. *)
Definition upgrade_block (now : Z) (b : Buttons) (g : Game) : outcome Game :=
  match the_selected g with
  | None => Ok g
  | Some (i, t) =>
      if (Turret.turret_level t
          <? Z.of_nat (length (TURRET_DATA (Turret.turret_type t))))
         && upgrade_button b then
        if negb (Turret.tidal_active t) then
          with_world g g (fun w =>
            if c.UPGRADE_COST <=? World.money w then
              let g := set_world
                         (Some (World.set_money
                                  (World.money w - c.UPGRADE_COST) w)) g in
              match Turret.upgrade t with
              | Raise e t =>
                  Raise e (set_turret_group (<[i := t]> (turret_group g)) g)
              | Ok t =>
                  let g := set_turret_group (<[i := t]> (turret_group g)) g in
                  Ok (set_message "Turret upgraded successfully!" now g)
              end
            else Ok (set_message "Not enough money to upgrade turret!" now g))
        else
          Ok (set_message
                "You can't upgrade turret, while it's tidally upgraded" now g)
      else Ok g
  end.

(** The tidal-upgrade button of the selected turret. *)
Definition tidal_block (now : Z) (b : Buttons) (g : Game) : outcome Game :=
  match the_selected g with
  | None => Ok g
  | Some (i, t) =>
      if tidal_upgrade_button b then
        if wave_started g then
          if negb (Turret.tidal_used t) && negb (Turret.tidal_active t) then
            with_world g g (fun w =>
              if c.TIDAL_UPGRADE_COST <=? World.money w then
                let g := set_world
                           (Some (World.set_money
                                    (World.money w - c.TIDAL_UPGRADE_COST) w))
                           g in
                Ok (set_turret_group
                      (<[i := Turret.tidally_upgrade now t]> (turret_group g))
                      g)
              else
                Ok (set_message "Not enough money for tidal upgrade!" now g))
          else Ok g
        else Ok (set_message "Start new round to tidally upgrade turret" now g)
      else Ok g
  end.

(** The SELL button of the selected turret. *)
Definition sell_block (now : Z) (b : Buttons) (g : Game) : outcome Game :=
  match the_selected g with
  | None => Ok g
  | Some (i, t) =>
      if sell_button b then
        let sell_price :=
          (inject_Z (c.turret_buy_costs (Turret.turret_type t))
           * c.SELL_RETURN_RATE)%Q in
        with_world g g (fun w =>
          let g := set_world
                     (Some (World.set_money
                              (World.money w + py_int sell_price) w)) g in
          let g := set_turret_group (delete i (turret_group g)) g in
          let turret_tile_num :=
            Turret.mouse_tile_y t * c.COLS + Turret.mouse_tile_x t in
          let g := set_occupied_tiles
                     (delete turret_tile_num (occupied_tiles g)) g in
          let g := set_selected_turret None g in
          Ok (set_message "Turret sold successfully!" now g))
      else Ok g
  end.

Definition back_block (now : Z) (b : Buttons) (g : Game) : outcome Game :=
  if back_to_menu_button b then restart_level now g else Ok g.

(** The skip button is drawn only once the whole roster is on the map. *)
Definition skip_block (now : Z) (b : Buttons) (g : Game) : outcome Game :=
  with_world g g (fun w =>
    if (World.spawned_enemies w =? Z.of_nat (length (World.enemy_list w)))
       && (0 <? Z.of_nat (length (enemy_group g))) then
      if skip_button b then skip_wave now g else Ok g
    else Ok g).

(** The feedback message is dropped two seconds after it was set. *)
Definition message_block (now : Z) (g : Game) : Game :=
  match placement_message g with
  | EmptyString => g
  | _ =>
      if now - message_timer g <? 2000 then g
      else set_message EmptyString (message_timer g) g
  end.

(** [draw_game()] *)
Definition draw_game (now : Z) (b : Buttons) (g : Game) : outcome Game :=
  match state g with
  | game =>
      spawn_block now b g
      >>> completion_block now
      >>> (fun g => Ok (shop_block now b g))
      >>> upgrade_block now b
      >>> tidal_block now b
      >>> sell_block now b
      >>> back_block now b
      >>> skip_block now b
      >>> (fun g => Ok (message_block now g))
  | _ => Ok g
  end.

(** [draw_game_over()] *)
Definition draw_game_over (now : Z) (b : Buttons) (g : Game) : outcome Game :=
  if restart_button b then restart_level now g else Ok g.

(** [draw()] *)
Definition draw (now : Z) (b : Buttons) (g : Game) : outcome Game :=
  match state g with
  | menu => Ok g
  | game => draw_game now b g
  | game_over => draw_game_over now b g
  end.

(** What one pass of the main loop receives from outside. *)
Record Frame := {
  ticks : Z;
  events : list event;
  buttons : Buttons
}.

(** One pass of the loop of [run()]; the flag is the new value of [run]. *)
Definition frame (f : Frame) (g : Game) : outcome (Game * bool) :=
  match handle_events (ticks f) (events f) g with
  | Raise e st => Raise e st
  | Ok (g, running) =>
      omap (fun g => (g, running))
        (update (ticks f) g >>> draw (ticks f) (buttons f))
  end.

(** [run()] over the frames that are given. *)
Fixpoint run (fs : list Frame) (g : Game) : outcome Game :=
  match fs with
  | [] => Ok g
  | f :: rest =>
      match frame f g with
      | Raise e (g, _) => Raise e g
      | Ok (g, true) => run rest g
      | Ok (g, false) => Ok g
      end
  end.

End WithPlatform.
End Game.

(** ** A platform to run the model on

    [shuffle] leaves the list as it is (one of the orders [random.shuffle] can
    produce) and [sqrt] is the root rounded down to a multiple of [2^-52],
    exact whenever the root itself is such a multiple. *)

Definition Qsqrt (q : Q) : Q :=
  Z.sqrt (Qnum q * Zpos (Qden q) * 4 ^ 52) # (Qden q * 2 ^ 52).

#[local] Instance run_platform : Platform :=
  {| Rng := unit; shuffle := fun _ r l => (l, r); sqrt := Qsqrt |}.

Module Scenario.

Definition no_buttons : Buttons :=
  {| begin_button := false; turret_button := false;
     camo_turret_button := false; purple_turret_button := false;
     cancel_button := false; upgrade_button := false;
     tidal_upgrade_button := false; sell_button := false;
     back_to_menu_button := false; skip_button := false;
     restart_button := false |}.

Definition press_turret : Buttons :=
  {| begin_button := false; turret_button := true;
     camo_turret_button := false; purple_turret_button := false;
     cancel_button := false; upgrade_button := false;
     tidal_upgrade_button := false; sell_button := false;
     back_to_menu_button := false; skip_button := false;
     restart_button := false |}.

Definition press_begin : Buttons :=
  {| begin_button := true; turret_button := false;
     camo_turret_button := false; purple_turret_button := false;
     cancel_button := false; upgrade_button := false;
     tidal_upgrade_button := false; sell_button := false;
     back_to_menu_button := false; skip_button := false;
     restart_button := false |}.

(** A level whose tiles are all buildable and whose path is half a pixel
    long, so that an enemy reaches the last waypoint on its first move. *)
Definition short_level : LevelData :=
  {| ld_tile_map := replicate 400 161;
     ld_waypoints := [ (0, 0)%Q; (1 # 2, 0)%Q ] |}.

Definition idle (t : Z) : Game.Frame :=
  {| Game.ticks := t; Game.events := []; Game.buttons := no_buttons |}.

Definition click (t : Z) (pos : Q * Q) (hit : option LevelData)
    (b : Buttons) : Game.Frame :=
  {| Game.ticks := t; Game.events := [MOUSEBUTTONDOWN pos hit false];
     Game.buttons := b |}.

(** One action per pass of the loop: choose the map; press the buy button
    and click a tile, twice; press begin; let the first enemy spawn; two
    more passes. *)
Definition two_turrets_session : list Game.Frame :=
  [ click 0 (200, 480)%Q (Some short_level) no_buttons;
    click 100 (1000, 150)%Q None press_turret;
    click 200 (24, 24)%Q None no_buttons;
    click 300 (1000, 150)%Q None press_turret;
    click 400 (72, 24)%Q None no_buttons;
    click 500 (1200, 750)%Q None press_begin;
    idle 3000;
    idle 3100;
    idle 3200 ].

Definition press_tidal : Buttons :=
  {| begin_button := false; turret_button := false;
     camo_turret_button := false; purple_turret_button := false;
     cancel_button := false; upgrade_button := false;
     tidal_upgrade_button := true; sell_button := false;
     back_to_menu_button := false; skip_button := false;
     restart_button := false |}.

(** The first wave with one standard turret that takes its tidal upgrade:
    choose the map, buy the turret, select it, begin the wave, press the
    tidal button; the eight enemies of the roster spawn one per second and
    walk off the short path; the wave completes; begin the second wave. *)
Definition tidal_session : list Game.Frame :=
  [ click 0 (200, 480)%Q (Some short_level) no_buttons;
    click 100 (1000, 150)%Q None press_turret;
    click 200 (24, 24)%Q None no_buttons;
    click 300 (24, 24)%Q None no_buttons;
    click 400 (1200, 750)%Q None press_begin;
    click 500 (1100, 320)%Q None press_tidal;
    idle 1000; idle 2000; idle 3000; idle 4000; idle 5000;
    idle 6000; idle 7000; idle 8000; idle 9000; idle 10000;
    click 11000 (1200, 750)%Q None press_begin ].

(** A weak enemy of normal difficulty on the short path that has reached
    the last waypoint and has then lost all its health to two shots. *)
Definition shot_at_the_end : Enemy.Enemy :=
  {| Enemy.enemy_type := weak;
     Enemy.waypoints := ld_waypoints short_level;
     Enemy.pos := (1 # 2, 0)%Q;
     Enemy.target_waypoint := 2;
     Enemy.health_multiplier := 1; Enemy.speed_multiplier := 1;
     Enemy.health := (10 - 5 - 5)%Q; Enemy.max_health := 10;
     Enemy.original_speed := 1; Enemy.speed := 1;
     Enemy.damage_inflicted := 1;
     Enemy.is_slowed := false; Enemy.slow_timer := 0;
     Enemy.alive := true |}.

(** A fresh weak enemy of normal difficulty at the start of the short path,
    and a medium one. *)
Definition fresh_weak : Enemy.Enemy :=
  {| Enemy.enemy_type := weak;
     Enemy.waypoints := ld_waypoints short_level;
     Enemy.pos := (0, 0)%Q;
     Enemy.target_waypoint := 1;
     Enemy.health_multiplier := 1; Enemy.speed_multiplier := 1;
     Enemy.health := 10; Enemy.max_health := 10;
     Enemy.original_speed := 1; Enemy.speed := 1;
     Enemy.damage_inflicted := 1;
     Enemy.is_slowed := false; Enemy.slow_timer := 0;
     Enemy.alive := true |}.

Definition fresh_medium : Enemy.Enemy :=
  {| Enemy.enemy_type := medium;
     Enemy.waypoints := ld_waypoints short_level;
     Enemy.pos := (0, 0)%Q;
     Enemy.target_waypoint := 1;
     Enemy.health_multiplier := 1; Enemy.speed_multiplier := 1;
     Enemy.health := 15; Enemy.max_health := 15;
     Enemy.original_speed := 15 # 10; Enemy.speed := 15 # 10;
     Enemy.damage_inflicted := 5;
     Enemy.is_slowed := false; Enemy.slow_timer := 0;
     Enemy.alive := true |}.

(** A weak enemy with full health far away from the path. *)
Definition far_weak : Enemy.Enemy :=
  {| Enemy.enemy_type := weak;
     Enemy.waypoints := ld_waypoints short_level;
     Enemy.pos := (500, 500)%Q;
     Enemy.target_waypoint := 1;
     Enemy.health_multiplier := 1; Enemy.speed_multiplier := 1;
     Enemy.health := 10; Enemy.max_health := 10;
     Enemy.original_speed := 1; Enemy.speed := 1;
     Enemy.damage_inflicted := 1;
     Enemy.is_slowed := false; Enemy.slow_timer := 0;
     Enemy.alive := true |}.

(** A world on the short level in the given wave, with the counters given. *)
Definition world_at (level money : Z) (roster : list EnemyKind)
    (spawned killed missed : Z) : World.World :=
  {| World.level := level; World.health := 60; World.money := money;
     World.tile_map := ld_tile_map short_level;
     World.waypoints := ld_waypoints short_level;
     World.level_data := short_level; World.enemy_list := roster;
     World.spawned_enemies := spawned; World.killed_enemies := killed;
     World.missed_enemies := missed |}.

(** A game in play around such a world. *)
Definition game_at (w : World.World) (started : bool)
    (enemies : list Enemy.Enemy) (turrets : list Turret.Turret)
    (sel : option nat) : Game.Game :=
  {| Game.state := game; Game.world_data := Some short_level;
     Game.current_difficulty_index := 1; Game.selected_difficulty := normal;
     Game.game_status := 0; Game.wave_started := started;
     Game.last_enemy_spawn := 0; Game.placing_turrets := false;
     Game.selected_turret := sel; Game.placement_message := EmptyString;
     Game.message_timer := 0; Game.current_turret_type := standard;
     Game.occupied_tiles := ∅; Game.world := Some w;
     Game.enemy_group := enemies; Game.turret_group := turrets;
     Game.rng := tt |}.

(** The last enemy of wave 16 has just been resolved: 97 killed, 3 missed. *)
Definition last_wave_done : Game.Game :=
  game_at
    (world_at 16 1200
       (replicate 25 weak ++ replicate 25 medium ++ replicate 25 strong
        ++ replicate 25 elite) 100 97 3)
    true [] [] None.

(** A level-1 standard turret placed at time 100 on tile (0, 0). *)
Definition standard_turret : Turret.Turret :=
  default
    {| Turret.turret_type := standard; Turret.turret_level := 0;
       Turret.base_range := 0; Turret.base_cooldown := 0;
       Turret.base_damage := 0; Turret.range := 0; Turret.cooldown := 0;
       Turret.damage := 0; Turret.last_shot := 0; Turret.selected := false;
       Turret.target := None; Turret.animation_steps := 0;
       Turret.slow_amount := 0; Turret.slow_duration := 0;
       Turret.mouse_tile_x := 0; Turret.mouse_tile_y := 0;
       Turret.x := 0; Turret.y := 0; Turret.frame_index := 0;
       Turret.update_time := 0; Turret.tidal_active := false;
       Turret.tidal_used := false; Turret.tidal_end_time := 0;
       Turret.TIDAL_MULTIPLIER := 0; Turret.TIDAL_DURATION := 0 |}
    (Turret.init 100 standard 0 0 24 24).

End Scenario.


(** ** button.py *)

Module Button.

Record Button := {
  clicked : bool;
  single_click : bool
}.

Definition set_clicked (v : bool) (self : Button) : Button :=
  {| clicked := v; single_click := single_click self |}.

(** [Button.__init__] *)
Definition init (single_click : bool) : Button :=
  {| clicked := false; single_click := single_click |}.

(** [draw(surface, mouse_pos)]: [hover] is [rect.collidepoint(mouse_pos)]
    and [pressed] is [pygame.mouse.get_pressed()[0]]; the flag is the
    returned [action]. *)
Definition draw (hover pressed : bool) (self : Button) : Button * bool :=
  let '(self, action) :=
    if hover then
      if pressed && negb (clicked self) then
        (if single_click self then set_clicked true self else self, true)
      else (self, false)
    else (self, false) in
  let self := if negb pressed then set_clicked false self else self in
  (self, action).

(** The button drawn once per frame; the actions of the frames in order. *)
Fixpoint draws (inputs : list (bool * bool)) (self : Button)
    : Button * list bool :=
  match inputs with
  | [] => (self, [])
  | (hover, pressed) :: rest =>
      let '(self, action) := draw hover pressed self in
      let '(self, actions) := draws rest self in
      (self, action :: actions)
  end.

End Button.

(** ** main.py: [map_mouse_cursor] *)

(** [map_mouse_cursor(pos)] for a window of size [display] and the internal
    surface of size [screen]; [None] stands for the [ZeroDivisionError] of a
    window without width or height. *)
Definition map_mouse_cursor (display screen : Z * Z) (pos : Q * Q)
    : option (Q * Q) :=
  if display.1 =? 0 then None
  else
    let scale_x := (inject_Z screen.1 / inject_Z display.1)%Q in
    if display.2 =? 0 then None
    else
      let scale_y := (inject_Z screen.2 / inject_Z display.2)%Q in
      Some (pos.1 * scale_x, pos.2 * scale_y)%Q.

(** ** Further concrete states *)

Module Cases.

Definition press_sell : Buttons :=
  {| begin_button := false; turret_button := false;
     camo_turret_button := false; purple_turret_button := false;
     cancel_button := false; upgrade_button := false;
     tidal_upgrade_button := false; sell_button := true;
     back_to_menu_button := false; skip_button := false;
     restart_button := false |}.

Definition press_upgrade : Buttons :=
  {| begin_button := false; turret_button := false;
     camo_turret_button := false; purple_turret_button := false;
     cancel_button := false; upgrade_button := true;
     tidal_upgrade_button := false; sell_button := false;
     back_to_menu_button := false; skip_button := false;
     restart_button := false |}.

(** The first wave on the short level, not yet begun. *)
Definition first_wave : World.World :=
  Scenario.world_at 1 650 (replicate 8 weak) 0 0 0.


Definition wave_running : Game.Game :=
  Scenario.game_at first_wave true [] [] None.

(** One standard turret, selected. *)
Definition one_selected : Game.Game :=
  Scenario.game_at first_wave false [] [Scenario.standard_turret]
    (Some 0%nat).

(** A game that has been lost. *)
Definition lost_game : Game.Game :=
  Game.set_state game_over
    (Game.set_game_status (-1)
       (Scenario.game_at (Scenario.world_at 3 40 (replicate 30 weak) 30 10 20)
          true [] [Scenario.standard_turret] None)).

(** The standard turret right after it has acquired the first enemy. *)
Definition aiming_turret : Turret.Turret :=
  Turret.set_target (Some 0%nat) Scenario.standard_turret.

(** The first wave resolved, and the world [process_enemies] builds from it
    for the second. *)
Definition first_wave_done : World.World :=
  Scenario.world_at 1 650 (replicate 8 weak) 8 8 0.

Definition second_wave : World.World :=
  (final (World.process_enemies (World.reset_values first_wave_done, tt))).1.

(** The state the session with two turrets ends in. *)
Definition after_two_turrets : Game.Game :=
  final (Game.run Scenario.two_turrets_session (Game.init 0 tt)).

End Cases.

(** * Predicates of the statements *)

Section Predicates.
Context `{Platform}.

(** The attributes no step of [update] writes. *)
Definition same_base (t t' : Turret.Turret) : Prop :=
  Turret.base_range t' = Turret.base_range t /\
  Turret.base_damage t' = Turret.base_damage t /\
  Turret.base_cooldown t' = Turret.base_cooldown t /\
  Turret.tidal_used t' = Turret.tidal_used t /\
  Turret.turret_type t' = Turret.turret_type t /\
  Turret.turret_level t' = Turret.turret_level t.

(** The attributes the firing cycle leaves alone on top of those. *)
Definition same_stats (t t' : Turret.Turret) : Prop :=
  same_base t t' /\
  Turret.range t' = Turret.range t /\
  Turret.damage t' = Turret.damage t /\
  Turret.cooldown t' = Turret.cooldown t /\
  Turret.tidal_active t' = Turret.tidal_active t /\
  Turret.tidal_end_time t' = Turret.tidal_end_time t.

(** The turret after a series of updates, each at its own time and against
    its own group of enemies. *)
Definition updates (steps : list (Z * list Enemy.Enemy)) (t : Turret.Turret)
    : Turret.Turret :=
  foldl (fun t step => (final (Turret.update step.1 (t, step.2))).1) t steps.

(** Two worlds that differ in the roster at most. *)
Definition same_account (w w' : World.World) : Prop :=
  World.level w' = World.level w /\
  World.health w' = World.health w /\
  World.money w' = World.money w /\
  World.spawned_enemies w' = World.spawned_enemies w /\
  World.killed_enemies w' = World.killed_enemies w /\
  World.missed_enemies w' = World.missed_enemies w /\
  World.waypoints w' = World.waypoints w /\
  World.tile_map w' = World.tile_map w.

(** The money of the world, if there is a world, is not negative. *)
Definition money_ok (g : Game.Game) : Prop :=
  match Game.world g with
  | Some w => 0 <= World.money w
  | None => True
  end.

(** [k] keeps [P], also in the state an exception leaves. *)
Definition keeps (P : Game.Game -> Prop) (k : Game.Game -> outcome Game.Game)
    : Prop :=
  forall g, P g -> P (final (k g)).

(** The level of the world, if there is a world, has a wave in the table. *)
Definition level_ok (g : Game.Game) : Prop :=
  match Game.world g with
  | Some w => World.level w <= Game.MAX_LEVELS
  | None => True
  end.

(** The game has not been won. *)
Definition not_won (g : Game.Game) : Prop := Game.game_status g <> 1.

(** [k] keeps [level_ok] and [not_won] when it returns, and [not_won] when
    it raises. *)
Definition sound (k : Game.Game -> outcome Game.Game) : Prop :=
  forall g, level_ok g -> not_won g ->
    match k g with
    | Ok g' => level_ok g' /\ not_won g'
    | Raise _ g' => not_won g'
    end.

(** [play_animation] called at each of the given times in turn. *)
Fixpoint animate (times : list Z) (t : Turret.Turret) : outcome Turret.Turret :=
  match times with
  | [] => Ok t
  | now :: rest => Turret.play_animation now t >>> animate rest
  end.

(** Each time is more than [ANIMATION_DELAY] after the one before it,
    starting from [prev]. *)
Fixpoint spaced (prev : Z) (times : list Z) : Prop :=
  match times with
  | [] => True
  | now :: rest => Turret.ANIMATION_DELAY < now - prev /\ spaced now rest
  end.

(** [random.shuffle] returns a rearrangement of its argument. *)
Definition shuffle_permutes : Prop :=
  forall (A : Type) (r : Rng) (l : list A), (shuffle r l).1 ≡ₚ l.

(** The enemies one row of the wave table stands for, kind after kind. *)
Definition expand (row : list (EnemyKind * Z)) : list EnemyKind :=
  concat (map (fun entry => replicate (Z.to_nat entry.2) entry.1) row).

(** The stats of the turret are those of the table for its kind and level,
    and its animation frame is a valid subscript. *)
Definition turret_wf (t : Turret.Turret) : Prop :=
  1 <= Turret.turret_level t
       <= Z.of_nat (length (TURRET_DATA (Turret.turret_type t))) /\
  Turret.frame_ok t = true /\
  exists d,
    py_getitem (TURRET_DATA (Turret.turret_type t)) (Turret.turret_level t - 1)
    = Some d /\
    Turret.base_range t = ts_range d /\
    Turret.base_cooldown t = ts_cooldown d /\
    Turret.base_damage t = ts_damage d /\
    Turret.slow_amount t = (Turret.slow_of (Turret.turret_type t) d).1 /\
    Turret.slow_duration t = (Turret.slow_of (Turret.turret_type t) d).2.

(** No tidal upgrade is in effect and the current stats are the base ones. *)
Definition unboosted (t : Turret.Turret) : Prop :=
  Turret.tidal_active t = false /\ Turret.tidal_end_time t = 0 /\
  Turret.range t = Turret.base_range t /\
  Turret.cooldown t = Turret.base_cooldown t /\
  Turret.damage t = Turret.base_damage t.

(** An enemy that is not slowed moves at its original speed. *)
Definition speed_consistent (e : Enemy.Enemy) : Prop :=
  Enemy.is_slowed e = false -> Enemy.speed e = Enemy.original_speed e.

(** The selection, if any, points into the turret group. *)
Definition selection_ok (g : Game.Game) : Prop :=
  match Game.selected_turret g with
  | Some i => (i < length (Game.turret_group g))%nat
  | None => True
  end.

(** An enemy on its way: a path index that is a plain subscript and speeds
    that are positive. *)
Definition enemy_ok (e : Enemy.Enemy) : Prop :=
  0 <= Enemy.target_waypoint e /\
  (0 < Enemy.speed e)%Q /\ (0 < Enemy.original_speed e)%Q.

(** The sprites of a session are in order. *)
Definition core_ok (g : Game.Game) : Prop :=
  selection_ok g /\
  Forall turret_wf (Game.turret_group g) /\
  Forall enemy_ok (Game.enemy_group g).

(** ... and a map has been loaded and its world built. *)
Definition playing_ok (g : Game.Game) : Prop :=
  core_ok g /\ is_Some (Game.world g) /\ is_Some (Game.world_data g).

(** The state of a session: outside the menu a game is being played. *)
Definition session_ok (g : Game.Game) : Prop :=
  core_ok g /\
  (Game.state g <> menu ->
   is_Some (Game.world g) /\ is_Some (Game.world_data g)).

(** [k] keeps [P] when it returns, and raises nothing but [IndexError]. *)
Definition safe (P : Game.Game -> Prop) (k : Game.Game -> outcome Game.Game)
    : Prop :=
  forall g, P g ->
    match k g with
    | Ok g' => P g'
    | Raise x _ => x = IndexError
    end.

(** The world of a game in play: the level has a row in the wave table,
    the roster is that row's enemies in some order, and the counters are in
    range. *)
Definition world_ok (w : World.World) : Prop :=
  1 <= World.level w <= Game.MAX_LEVELS /\
  (exists row,
     py_getitem WAVE_ENEMY_DATA (World.level w - 1) = Some row /\
     World.enemy_list w ≡ₚ expand row) /\
  0 <= World.spawned_enemies w <= Z.of_nat (length (World.enemy_list w)) /\
  0 <= World.killed_enemies w /\ 0 <= World.missed_enemies w.

Definition roster_ok (g : Game.Game) : Prop :=
  match Game.world g with
  | Some w => world_ok w
  | None => True
  end.

(** [k] keeps [roster_ok] when it returns. *)
Definition steady (k : Game.Game -> outcome Game.Game) : Prop :=
  forall g, roster_ok g ->
    match k g with
    | Ok g' => roster_ok g'
    | Raise _ _ => True
    end.

(** The fields of the world [world_ok] reads, with counters that have not
    dropped. *)
Definition counts_up (w w' : World.World) : Prop :=
  World.level w' = World.level w /\
  World.enemy_list w' = World.enemy_list w /\
  World.spawned_enemies w' = World.spawned_enemies w /\
  World.killed_enemies w <= World.killed_enemies w' /\
  World.missed_enemies w <= World.missed_enemies w'.

End Predicates.

(** * Properties *)

(** ** Enemy: the slow effect *)

Section EnemyFacts.

Lemma apply_slow_slowed now amount duration e :
  Enemy.is_slowed e = true -> Enemy.apply_slow now amount duration e = e.
Proof. intros Hs. unfold Enemy.apply_slow. now rewrite Hs. Qed.

Lemma apply_slow_fresh now amount duration e :
  Enemy.is_slowed e = false ->
  Enemy.apply_slow now amount duration e
  = Enemy.set_slow true (Enemy.original_speed e * (1 - amount))%Q
      (now + duration) e.
Proof. intros Hs. unfold Enemy.apply_slow. now rewrite Hs. Qed.

Lemma update_slow_effect_due now e :
  Enemy.is_slowed e = true -> Enemy.slow_timer e < now ->
  Enemy.update_slow_effect now e
  = Enemy.set_slow false (Enemy.original_speed e) (Enemy.slow_timer e) e.
Proof.
  intros Hs Ht. unfold Enemy.update_slow_effect. rewrite Hs.
  apply Z.ltb_lt in Ht. now rewrite Ht.
Qed.

Lemma update_slow_effect_idle now e :
  ~ (Enemy.is_slowed e = true /\ Enemy.slow_timer e < now) ->
  Enemy.update_slow_effect now e = e.
Proof.
  intros Hn. unfold Enemy.update_slow_effect.
  destruct (Enemy.is_slowed e) eqn:Hs; [|reflexivity].
  destruct (Enemy.slow_timer e <? now) eqn:Ht; [|reflexivity].
  apply Z.ltb_lt in Ht. exfalso. apply Hn. now split.
Qed.

(** C8.  [apply_slow] with an amount in (0,1] and a positive duration does
    nothing to an enemy that is already slowed; on any other enemy it sets
    the speed to [original_speed * (1 - amount)], marks the enemy slowed and
    schedules the expiry at [now + duration], leaving the other attributes
    alone.  [update_slow_effect] restores the original speed and clears the
    mark exactly when the enemy is slowed and [now] is past the expiry; in
    every other case it changes nothing. *)
Theorem slow_effect_spec (now : Z) (amount : Q) (duration : Z)
    (e : Enemy.Enemy) :
  (0 < amount)%Q -> (amount <= 1)%Q -> 0 < duration ->
  (Enemy.is_slowed e = true ->
     Enemy.apply_slow now amount duration e = e) /\
  (Enemy.is_slowed e = false ->
     let e' := Enemy.apply_slow now amount duration e in
     Enemy.is_slowed e' = true /\
     Enemy.speed e' = (Enemy.original_speed e * (1 - amount))%Q /\
     Enemy.slow_timer e' = now + duration /\
     Enemy.original_speed e' = Enemy.original_speed e /\
     Enemy.health e' = Enemy.health e /\
     Enemy.pos e' = Enemy.pos e /\
     Enemy.target_waypoint e' = Enemy.target_waypoint e /\
     Enemy.alive e' = Enemy.alive e) /\
  (Enemy.is_slowed e = true -> Enemy.slow_timer e < now ->
     let e' := Enemy.update_slow_effect now e in
     Enemy.is_slowed e' = false /\
     Enemy.speed e' = Enemy.original_speed e /\
     Enemy.health e' = Enemy.health e /\
     Enemy.pos e' = Enemy.pos e) /\
  (~ (Enemy.is_slowed e = true /\ Enemy.slow_timer e < now) ->
     Enemy.update_slow_effect now e = e).
Proof.
  intros _ _ _.
  split; [apply apply_slow_slowed|].
  split; [intros Hs e'; subst e'; rewrite apply_slow_fresh by exact Hs;
          now cbn|].
  split; [intros Hs Ht e'; subst e';
          rewrite update_slow_effect_due by assumption; now cbn|].
  apply update_slow_effect_idle.
Qed.

End EnemyFacts.

(** ** Turret: the tidal upgrade *)

Section TurretFacts.
Context `{Platform}.

Lemma tidally_upgrade_fresh now t :
  Turret.tidal_used t = false -> Turret.tidal_active t = false ->
  Turret.tidally_upgrade now t
  = Turret.set_tidal
      (py_int (inject_Z (Turret.base_range t) * Turret.TIDAL_MULTIPLIER t))
      (Turret.cooldown t)
      (py_int (inject_Z (Turret.base_damage t) * Turret.TIDAL_MULTIPLIER t))
      true true (now + Turret.TIDAL_DURATION t) t.
Proof. intros Hu Ha. unfold Turret.tidally_upgrade. now rewrite Hu, Ha. Qed.

Lemma tidally_upgrade_used now t :
  Turret.tidal_used t = true -> Turret.tidally_upgrade now t = t.
Proof. intros Hu. unfold Turret.tidally_upgrade. now rewrite Hu. Qed.

Lemma tidally_upgrade_active now t :
  Turret.tidal_active t = true -> Turret.tidally_upgrade now t = t.
Proof.
  intros Ha. unfold Turret.tidally_upgrade. rewrite Ha.
  now rewrite andb_false_r.
Qed.

Lemma reset_range t :
  Turret.range (Turret.reset_tidal_upgrade t) = Turret.base_range t.
Proof. reflexivity. Qed.

Lemma reset_damage t :
  Turret.damage (Turret.reset_tidal_upgrade t) = Turret.base_damage t.
Proof. reflexivity. Qed.

Lemma reset_keeps_used t :
  Turret.tidal_used (Turret.reset_tidal_upgrade t) = Turret.tidal_used t.
Proof. reflexivity. Qed.

Lemma same_stats_refl t : same_stats t t.
Proof. repeat split. Qed.

Lemma play_animation_stats now t :
  same_stats t (final (Turret.play_animation now t)).
Proof.
  unfold Turret.play_animation.
  repeat (case_match; try apply same_stats_refl); repeat split.
Qed.

Lemma select_target_from_stats now t i es :
  same_stats t (Turret.select_target_from now t i es).1.
Proof.
  revert i. induction es as [|e es IH]; intros i; cbn.
  - apply same_stats_refl.
  - destruct (Turret.in_reach t e).
    + repeat split.
    + specialize (IH (S i)).
      destruct (Turret.select_target_from now t (S i) es). exact IH.
Qed.

(** After [update] the stats are those the expiry check left. *)
Lemma update_stats now t es :
  same_stats (Turret.expire_tidal now t) (final (Turret.update now (t, es))).1.
Proof.
  unfold Turret.update.
  destruct (Turret.target (Turret.expire_tidal now t)).
  - pose proof (play_animation_stats now (Turret.expire_tidal now t)) as Hp.
    destruct (Turret.play_animation now (Turret.expire_tidal now t)); exact Hp.
  - case_match.
    + apply select_target_from_stats.
    + apply same_stats_refl.
Qed.

Lemma expire_tidal_early now t :
  now < Turret.tidal_end_time t -> Turret.expire_tidal now t = t.
Proof.
  intros Hlt. unfold Turret.expire_tidal.
  apply Z.leb_gt in Hlt. rewrite Hlt. now rewrite andb_false_r.
Qed.

Lemma expire_tidal_due now t :
  Turret.tidal_active t = true -> Turret.tidal_end_time t <= now ->
  Turret.expire_tidal now t = Turret.reset_tidal_upgrade t.
Proof.
  intros Ha Hle. unfold Turret.expire_tidal.
  apply Z.leb_le in Hle. now rewrite Ha, Hle.
Qed.

Lemma updates_cons now es steps t :
  updates ((now, es) :: steps) t
  = updates steps (final (Turret.update now (t, es))).1.
Proof. reflexivity. Qed.

Lemma updates_early steps t :
  Forall (fun step => step.1 < Turret.tidal_end_time t) steps ->
  same_stats t (updates steps t).
Proof.
  revert t. induction steps as [|[now es] steps IH]; intros t Hall.
  - apply same_stats_refl.
  - inversion Hall as [|? ? Hnow Hrest]; subst. cbn in Hnow.
    rewrite updates_cons.
    pose proof (update_stats now t es) as Hs.
    rewrite expire_tidal_early in Hs by exact Hnow.
    set (t1 := (final (Turret.update now (t, es))).1) in *.
    destruct Hs as (Hb & Hr & Hd & Hc & Ha & He).
    assert (Hall' : Forall (fun step => step.1 < Turret.tidal_end_time t1)
                      steps).
    { rewrite He. exact Hrest. }
    specialize (IH t1 Hall').
    destruct IH as ((? & ? & ? & ? & ? & ?) & ? & ? & ? & ? & ?).
    destruct Hb as (? & ? & ? & ? & ? & ?).
    repeat split; congruence.
Qed.

(** C9.  A level-1 standard turret has base range 100 and base damage 5.
    The tidal upgrade, with the multiplier 1.25 of const.py, sets its range
    to 125 and its damage to int(6.25) = 6, to expire TIDAL_DURATION after
    the upgrade; the boosted values stand through every update before the
    expiry, and the first update at or after it puts range and damage back
    to 100 and 5. *)
Theorem tidal_upgrade_standard_scenario (placed : Z) (tx ty px py : Z)
    (t : Turret.Turret) (now : Z) :
  Turret.init placed standard tx ty px py = Some t ->
  let boosted := Turret.tidally_upgrade now t in
  Turret.base_range t = 100 /\ Turret.base_damage t = 5 /\
  Turret.TIDAL_MULTIPLIER t = 125 # 100 /\
  Turret.range boosted = 125 /\ Turret.damage boosted = 6 /\
  Turret.tidal_end_time boosted = now + c.TIDAL_DURATION /\
  forall (steps : list (Z * list Enemy.Enemy)),
    Forall (fun step => step.1 < now + c.TIDAL_DURATION) steps ->
    Turret.range (updates steps boosted) = 125 /\
    Turret.damage (updates steps boosted) = 6 /\
    forall (later : Z) (es : list Enemy.Enemy),
      now + c.TIDAL_DURATION <= later ->
      let reverted :=
        (final (Turret.update later (updates steps boosted, es))).1 in
      Turret.range reverted = 100 /\ Turret.damage reverted = 5.
Proof.
  intros Hinit boosted. cbn in Hinit. injection Hinit as <-.
  repeat (split; [reflexivity|]).
  intros steps Hsteps.
  pose proof (updates_early steps boosted Hsteps) as Hs.
  destruct Hs as ((Hbr & Hbd & _) & Hr & Hd & _ & Ha & He).
  split; [exact Hr|]. split; [exact Hd|].
  intros later es Hlater.
  pose proof (update_stats later (updates steps boosted) es) as Hu.
  rewrite expire_tidal_due in Hu
    by (rewrite ?Ha, ?He; cbn; first [reflexivity | exact Hlater]).
  destruct Hu as (_ & Hr' & Hd' & _).
  intros reverted. subst reverted.
  rewrite Hr', Hd', reset_range, reset_damage, Hbr, Hbd. now split.
Qed.

(** ** Turret: target selection *)

Lemma Qltb_lt (a b : Q) : Qltb a b = true <-> (a < b)%Q.
Proof.
  unfold Qltb. rewrite negb_true_iff, <- not_true_iff_false, Qle_bool_iff.
  split; [apply Qnot_le_lt | apply Qlt_not_le].
Qed.

Lemma in_reach_spec t e :
  Turret.in_reach t e = true <->
  (0 < Enemy.health e)%Q /\
  (Turret.distance t e < inject_Z (Turret.range t))%Q.
Proof. unfold Turret.in_reach. now rewrite andb_true_iff, !Qltb_lt. Qed.

Lemma select_target_from_none now t i es :
  Forall (fun e => Turret.in_reach t e = false) es ->
  Turret.select_target_from now t i es = (t, es).
Proof.
  revert i. induction es as [|e es IH]; intros i Hall; [reflexivity|].
  inversion Hall as [|? ? He Hes]; subst. cbn. rewrite He.
  now rewrite (IH (S i) Hes).
Qed.

Lemma select_target_from_first now t i pre e post :
  Forall (fun e' => Turret.in_reach t e' = false) pre ->
  Turret.in_reach t e = true ->
  Turret.select_target_from now t i (pre ++ e :: post)
  = (Turret.set_target (Some (i + length pre)%nat) t,
     pre ++ Turret.hit now t e :: post).
Proof.
  revert i. induction pre as [|p pre IH]; intros i Hall He; cbn.
  - rewrite He. now rewrite Nat.add_0_r.
  - inversion Hall as [|? ? Hp Hpre]; subst. rewrite Hp.
    rewrite (IH (S i) Hpre He). do 3 f_equal. lia.
Qed.

Lemma hit_health now t e :
  Enemy.health (Turret.hit now t e)
  = (Enemy.health e - inject_Z (Turret.damage t))%Q.
Proof.
  unfold Turret.hit, Enemy.apply_slow.
  repeat case_match; reflexivity.
Qed.

(** Every purple entry of the table carries a slow effect. *)
Lemma purple_table_slow d :
  In d (TURRET_DATA purple) ->
  (0 < (Turret.slow_of purple d).1)%Q /\ 0 < (Turret.slow_of purple d).2.
Proof.
  cbn. intros [<-|[<-|[<-|[<-|[]]]]]; cbn; split; reflexivity.
Qed.

(** C5.  A turret without a target whose cooldown has elapsed takes, among
    the enemies of the group in their order, the first one with health > 0
    whose distance from the turret is below the current range (the range
    after the expiry check of the same update), whatever the distances and
    healths of the enemies behind it.  In the same call that enemy loses the
    turret's current damage, and when the turret is purple with its slow
    parameters (as every purple entry of the table has them) [apply_slow] is
    called on it with these parameters; the other enemies are untouched. *)
Theorem select_target_first_in_reach (now : Z) (t : Turret.Turret)
    (pre : list Enemy.Enemy) (e : Enemy.Enemy) (post : list Enemy.Enemy) :
  let t' := Turret.expire_tidal now t in
  Turret.target t = None ->
  Turret.cooldown t' < now - Turret.last_shot t' ->
  Forall (fun p => ~ ((0 < Enemy.health p)%Q /\
                      (Turret.distance t' p < inject_Z (Turret.range t'))%Q))
    pre ->
  (0 < Enemy.health e)%Q ->
  (Turret.distance t' e < inject_Z (Turret.range t'))%Q ->
  Turret.update now (t, pre ++ e :: post)
  = Ok (Turret.set_target (Some (length pre)) t',
        pre ++ Turret.hit now t' e :: post) /\
  Enemy.health (Turret.hit now t' e)
  = (Enemy.health e - inject_Z (Turret.damage t'))%Q /\
  (Turret.turret_type t' = purple ->
   (0 < Turret.slow_amount t')%Q -> 0 < Turret.slow_duration t' ->
   Turret.hit now t' e
   = Enemy.apply_slow now (Turret.slow_amount t') (Turret.slow_duration t')
       (Enemy.set_health
          (Enemy.health e - inject_Z (Turret.damage t'))%Q e)) /\
  (Turret.turret_type t' <> purple ->
   Turret.hit now t' e
   = Enemy.set_health (Enemy.health e - inject_Z (Turret.damage t'))%Q e).
Proof.
  intros t' Htarget Hcool Hpre Hhealth Hdist.
  assert (Htarget' : Turret.target t' = None).
  { subst t'. unfold Turret.expire_tidal. now case_match. }
  split; [|split; [apply hit_health|split]].
  - unfold Turret.update. fold t'. rewrite Htarget'.
    apply Z.ltb_lt in Hcool. rewrite Hcool.
    unfold Turret.select_target.
    rewrite select_target_from_first; [reflexivity| |].
    + eapply Forall_impl; [exact Hpre|]. intros p Hp.
      apply not_true_iff_false. now rewrite in_reach_spec.
    + now apply in_reach_spec.
  - intros Hk Ha Hd. unfold Turret.hit. rewrite Hk.
    apply Qltb_lt in Ha. apply Z.ltb_lt in Hd. now rewrite Ha, Hd.
  - intros Hk. unfold Turret.hit. now destruct (Turret.turret_type t').
Qed.

End TurretFacts.

(** ** The game: commands and the end of a wave *)

Section GameFacts.
Context `{Platform}.

Lemma final_obind {S} (P : S -> Prop) (o : outcome S) (k : S -> outcome S) :
  P (final o) -> (forall s, P s -> P (final (k s))) -> P (final (o >>> k)).
Proof. destruct o; cbn; auto. Qed.

Lemma final_omap {S T} (f : S -> T) (o : outcome S) :
  final (omap f o) = f (final o).
Proof. now destruct o. Qed.

(** [process_enemies] writes the roster and draws random numbers; no other
    attribute of the world changes, whether it returns or raises. *)
Lemma foldl_add_kind_account enemies w r :
  same_account w (foldl World.add_kind (w, r) enemies).1.
Proof.
  revert w r. induction enemies as [|[k n] enemies IH]; intros w r.
  - repeat split.
  - cbn [foldl]. unfold World.add_kind at 2.
    destruct (shuffle r _) as [l' r'].
    specialize (IH (World.set_enemy_list l' w) r').
    destruct IH as (?&?&?&?&?&?&?&?). repeat split; assumption.
Qed.

Lemma world_process_enemies_account w r :
  same_account w (final (World.process_enemies (w, r))).1.
Proof.
  unfold World.process_enemies. cbn [fst].
  destruct (py_getitem WAVE_ENEMY_DATA (World.level w - 1)).
  - apply foldl_add_kind_account.
  - repeat split.
Qed.

(** The game around [process_enemies]: only the world and the generator are
    written. *)
Lemma process_enemies_frame g w :
  Game.world g = Some w ->
  exists w' r',
    final (Game.process_enemies g)
    = Game.set_rng r' (Game.set_world (Some w') g) /\
    same_account w w'.
Proof.
  intros Hw. unfold Game.process_enemies, Game.with_world. rewrite Hw.
  rewrite final_omap.
  pose proof (world_process_enemies_account w (Game.rng g)) as Ha.
  destruct (final (World.process_enemies (w, Game.rng g))) as [w' r'].
  exists w', r'. now split.
Qed.

(** C10.  With no wave in progress the tidal-upgrade button changes nothing
    but the feedback message and its timer: the money and the rest of the
    world, every turret (so the stats and the tidal flags of the selected
    one) and every other attribute of the game are as before, whatever the
    funds and whether or not the turret has used its upgrade. *)
Theorem tidal_command_outside_wave (now : Z) (b : Buttons) (g : Game.Game) :
  Game.wave_started g = false ->
  tidal_upgrade_button b = true ->
  exists g',
    Game.tidal_block now b g = Ok g' /\
    Game.world g' = Game.world g /\
    Game.turret_group g' = Game.turret_group g /\
    Game.selected_turret g' = Game.selected_turret g /\
    Game.the_selected g' = Game.the_selected g /\
    Game.enemy_group g' = Game.enemy_group g /\
    Game.wave_started g' = false /\
    Game.state g' = Game.state g /\
    Game.game_status g' = Game.game_status g /\
    Game.placing_turrets g' = Game.placing_turrets g /\
    Game.current_turret_type g' = Game.current_turret_type g /\
    Game.occupied_tiles g' = Game.occupied_tiles g /\
    Game.last_enemy_spawn g' = Game.last_enemy_spawn g /\
    Game.rng g' = Game.rng g /\
    (g' = g \/
     g' = Game.set_message "Start new round to tidally upgrade turret" now g).
Proof.
  intros Hwave Hbutton. unfold Game.tidal_block.
  destruct (Game.the_selected g) as [[i t]|] eqn:Hsel.
  - rewrite Hbutton, Hwave. eexists. split; [reflexivity|].
    repeat (split; [first [reflexivity | assumption]|]). now right.
  - exists g. split; [reflexivity|].
    repeat (split; [first [reflexivity | assumption]|]). now left.
Qed.

(** What the sequence at the end of a wave leaves behind, whether the
    roster of the next wave could be built or not. *)
Lemma next_wave_final now g w :
  Game.world g = Some w ->
  let g' := final (Game.next_wave now g) in
  Game.enemy_group g' = Game.enemy_group g /\
  Game.wave_started g' = false /\
  Game.last_enemy_spawn g' = now /\
  exists w',
    Game.world g' = Some w' /\
    World.health w' = World.health w /\
    World.money w' = World.money w + c.WAVE_COMPLETE_REWARD /\
    World.level w' = World.level w + 1 /\
    World.spawned_enemies w' = 0 /\
    World.killed_enemies w' = 0 /\
    World.missed_enemies w' = 0.
Proof.
  intros Hw g'. subst g'. unfold Game.next_wave, Game.with_world.
  rewrite Hw. cbn [Game.world Game.set_world Game.set_wave_started
                   Game.set_last_enemy_spawn].
  match goal with
  | |- context [Game.process_enemies ?g0] =>
      destruct (process_enemies_frame g0 _ eq_refl) as (w' & r' & Hf & Ha);
      destruct (Game.process_enemies g0) as [g1|x g1]; cbn in Hf; subst g1
  end.
  all: destruct Ha as (Hl & Hh & Hm & Hs & Hk & Hmi & _);
    cbn in Hl, Hh, Hm, Hs, Hk, Hmi; cbn;
    repeat (split; [reflexivity|]);
    exists w'; repeat split; assumption.
Qed.

Lemma next_wave_turrets now g g' :
  Game.next_wave now g = Ok g' ->
  Game.turret_group g' = Turret.reset_tidal_upgrade <$> Game.turret_group g.
Proof.
  unfold Game.next_wave, Game.with_world.
  destruct (Game.world g) as [w|]; [|discriminate].
  cbn [Game.world Game.set_world Game.set_wave_started
       Game.set_last_enemy_spawn].
  match goal with
  | |- context [Game.process_enemies ?g0] =>
      destruct (process_enemies_frame g0 _ eq_refl) as (w' & r' & Hf & _);
      destruct (Game.process_enemies g0) as [g1|x g1]; cbn in Hf; subst g1
  end; [|discriminate].
  cbn. intros [= <-]. reflexivity.
Qed.

(** The roster of the wave after [level] exists below the last wave. *)
Lemma next_wave_returns now g w :
  Game.world g = Some w ->
  0 <= World.level w < Game.MAX_LEVELS ->
  raised (Game.next_wave now g) = None.
Proof.
  intros Hw Hl. unfold Game.next_wave, Game.with_world. rewrite Hw.
  cbn [Game.world Game.set_world Game.set_wave_started
       Game.set_last_enemy_spawn].
  unfold Game.process_enemies, Game.with_world.
  cbn [Game.world Game.set_world Game.rng].
  unfold World.process_enemies.
  cbn [fst World.level World.reset_values World.set_money].
  destruct (py_getitem WAVE_ENEMY_DATA (World.level w + 1 - 1)) eqn:Hg;
    [reflexivity|].
  exfalso. unfold py_getitem in Hg.
  change (Z.of_nat (length WAVE_ENEMY_DATA)) with 16 in Hg.
  change Game.MAX_LEVELS with 16 in Hl.
  replace (0 <=? World.level w + 1 - 1) with true in Hg by (symmetry; lia).
  replace (World.level w + 1 - 1 <? 16) with true in Hg by (symmetry; lia).
  cbn [andb] in Hg.
  apply lookup_ge_None in Hg. cbn in Hg. lia.
Qed.

Lemma skip_penalty_sum es :
  Game.skip_penalty es
  = foldr (fun e acc => Enemy.damage_inflicted e + acc) 0 es.
Proof.
  unfold Game.skip_penalty.
  assert (Hgen : forall a,
    foldl (fun total e => total + Enemy.damage_inflicted e) a es
    = a + foldr (fun e acc => Enemy.damage_inflicted e + acc) 0 es).
  { induction es as [|e es IH]; intros a; cbn; [lia|]. rewrite IH. lia. }
  rewrite Hgen. lia.
Qed.

Lemma skip_wave_next_wave now g w :
  Game.world g = Some w -> Game.wave_started g = true ->
  Game.skip_wave now g
  = Game.next_wave now
      (Game.set_world
         (Some (World.set_health
                  (World.health w - Game.skip_penalty (Game.enemy_group g)) w))
         (Game.set_enemy_group [] g)).
Proof.
  intros Hw Hs. unfold Game.skip_wave, Game.next_wave, Game.with_world.
  rewrite Hs. cbn [negb Game.world Game.set_enemy_group]. rewrite Hw.
  reflexivity.
Qed.

(** C7.  [skip_wave] during a wave empties the enemy group, takes from the
    player's health the sum of [damage_inflicted] over the enemies that were
    in it (6 for two enemies with 1 and 5), pays the wave-complete reward and
    nothing else (no kill is counted or rewarded), and from the reward on runs
    the very sequence the natural completion of a wave runs: wave stopped,
    spawn clock restarted, counters reset and level raised, next roster
    built, tidal upgrades of all turrets reset.  Outside a wave it returns
    the game unchanged. *)
Theorem skip_wave_spec (now : Z) (g : Game.Game) (w : World.World) :
  Game.world g = Some w ->
  (Game.wave_started g = false -> Game.skip_wave now g = Ok g) /\
  (Game.wave_started g = true ->
   let penalty := Game.skip_penalty (Game.enemy_group g) in
   let penalised :=
     Game.set_world (Some (World.set_health (World.health w - penalty) w))
       (Game.set_enemy_group [] g) in
   let g' := final (Game.skip_wave now g) in
   penalty = foldr (fun e acc => Enemy.damage_inflicted e + acc) 0
               (Game.enemy_group g) /\
   (forall e1 e2, Game.enemy_group g = [e1; e2] ->
      Enemy.damage_inflicted e1 = 1 -> Enemy.damage_inflicted e2 = 5 ->
      penalty = 6) /\
   Game.skip_wave now g = Game.next_wave now penalised /\
   (forall g0 w0, Game.world g0 = Some w0 ->
      World.is_wave_completed w0 = true ->
      World.level w0 <= Game.MAX_LEVELS ->
      Game.completion_block now g0 = Game.next_wave now g0) /\
   Game.enemy_group g' = [] /\
   Game.wave_started g' = false /\
   (exists w',
      Game.world g' = Some w' /\
      World.health w' = World.health w - penalty /\
      World.money w' = World.money w + c.WAVE_COMPLETE_REWARD /\
      World.level w' = World.level w + 1 /\
      World.spawned_enemies w' = 0 /\
      World.killed_enemies w' = 0 /\
      World.missed_enemies w' = 0) /\
   (forall g1, Game.skip_wave now g = Ok g1 ->
      Game.turret_group g1
      = Turret.reset_tidal_upgrade <$> Game.turret_group g) /\
   (0 <= World.level w < Game.MAX_LEVELS ->
      raised (Game.skip_wave now g) = None)).
Proof.
  intros Hw. split.
  { intros Hs. unfold Game.skip_wave. now rewrite Hs. }
  intros Hs penalty penalised g'.
  assert (Heq : Game.skip_wave now g = Game.next_wave now penalised)
    by exact (skip_wave_next_wave now g w Hw Hs).
  assert (Hpw : Game.world penalised
                = Some (World.set_health (World.health w - penalty) w))
    by reflexivity.
  split; [apply skip_penalty_sum|].
  split.
  { intros e1 e2 Hg H1 H5. subst penalty. rewrite Hg.
    unfold Game.skip_penalty. cbn. lia. }
  split; [exact Heq|].
  split.
  { intros g0 w0 Hw0 Hc Hl. unfold Game.completion_block, Game.next_wave,
      Game.with_world. rewrite Hw0, Hc.
    apply Z.ltb_ge in Hl. now rewrite Hl. }
  subst g'. rewrite Heq.
  destruct (next_wave_final now penalised _ Hpw)
    as (He & Hws & _ & w' & Hw' & Hh & Hm & Hl & Hc).
  split; [exact He|]. split; [exact Hws|].
  split; [exists w'; repeat split; first [assumption | apply Hc]|].
  split.
  { intros g1 Hok. now rewrite (next_wave_turrets _ _ _ Hok). }
  intros Hl'. now apply (next_wave_returns now penalised _ Hpw).
Qed.

(** ** The game: money *)

Lemma keeps_obind P k1 k2 :
  keeps P k1 -> keeps P k2 -> keeps P (fun g => k1 g >>> k2).
Proof. intros H1 H2 g Hg. apply final_obind; auto. Qed.

Lemma kill_reward_nonneg k : 0 <= es_kill_reward (ENEMY_DATA k).
Proof. destruct k; cbn; lia. Qed.

Lemma enemy_move_money w e :
  World.money (final (Enemy.move (w, e))).1 = World.money w.
Proof. unfold Enemy.move. repeat case_match; reflexivity. Qed.

Lemma enemy_update_money now w e :
  World.money w <= World.money (final (Enemy.update now (w, e))).1.
Proof.
  unfold Enemy.update.
  apply (final_obind (fun st => World.money w <= World.money st.1)).
  apply (final_obind (fun st => World.money w <= World.money st.1)).
  apply (final_obind (fun st => World.money w <= World.money st.1)).
  - rewrite enemy_move_money. lia.
  - intros st Hst. exact Hst.
  - intros [w1 e1] Hst. unfold Enemy.check_if_alive.
    pose proof (kill_reward_nonneg (Enemy.enemy_type e1)).
    case_match; cbn in *; lia.
  - intros st Hst. exact Hst.
Qed.

Lemma update_enemies_money now w es :
  World.money w <= World.money (final (Game.update_enemies now w es)).1.
Proof.
  revert w. induction es as [|e es IH]; intros w; cbn; [lia|].
  pose proof (enemy_update_money now w e) as He.
  destruct (Enemy.update now (w, e)) as [[w1 e1]|x [w1 e1]]; cbn in He |- *;
    [|exact He].
  rewrite final_omap. cbn. specialize (IH w1). lia.
Qed.

Lemma money_ok_world g w :
  Game.world g = Some w -> 0 <= World.money w -> money_ok g.
Proof. unfold money_ok. now intros ->. Qed.

Lemma update_money now : keeps money_ok (Game.update now).
Proof.
  intros g Hg. unfold Game.update, Game.with_world.
  destruct (Game.state g); try exact Hg.
  destruct (Game.world g) as [w|] eqn:Hw; [|exact Hg].
  unfold money_ok in Hg. rewrite Hw in Hg.
  repeat case_match; try (unfold money_ok; cbn; now rewrite Hw).
  apply (final_obind money_ok).
  - rewrite final_omap. unfold money_ok. cbn.
    pose proof (update_enemies_money now w (Game.enemy_group g)). lia.
  - intros g1 Hg1. rewrite final_omap. exact Hg1.
Qed.

Lemma process_enemies_money : keeps money_ok Game.process_enemies.
Proof.
  intros g Hg. unfold money_ok in Hg.
  destruct (Game.world g) as [w|] eqn:Hw.
  - destruct (process_enemies_frame g w Hw) as (w' & r' & -> & Ha).
    unfold money_ok. cbn. destruct Ha as (_ & _ & -> & _). exact Hg.
  - unfold Game.process_enemies, Game.with_world. rewrite Hw. cbn.
    unfold money_ok. now rewrite Hw.
Qed.

Lemma next_wave_money now : keeps money_ok (Game.next_wave now).
Proof.
  intros g Hg. unfold money_ok in Hg.
  destruct (Game.world g) as [w|] eqn:Hw.
  - destruct (next_wave_final now g w Hw) as (_ & _ & _ & w' & Hw' & _ & Hm & _).
    unfold money_ok. rewrite Hw', Hm. unfold c.WAVE_COMPLETE_REWARD. lia.
  - unfold Game.next_wave, Game.with_world. rewrite Hw. cbn.
    unfold money_ok. now rewrite Hw.
Qed.

Lemma skip_wave_money now : keeps money_ok (Game.skip_wave now).
Proof.
  intros g Hg. unfold money_ok in Hg.
  destruct (Game.wave_started g) eqn:Hs.
  - destruct (Game.world g) as [w|] eqn:Hw.
    + rewrite (skip_wave_next_wave now g w Hw Hs).
      apply next_wave_money. unfold money_ok. cbn. exact Hg.
    + unfold Game.skip_wave, Game.with_world. rewrite Hs. cbn. rewrite Hw.
      cbn. unfold money_ok. cbn. now rewrite Hw.
  - unfold Game.skip_wave. rewrite Hs. cbn. unfold money_ok.
    destruct (Game.world g); exact Hg.
Qed.

Lemma restart_level_money now : keeps money_ok (Game.restart_level now).
Proof.
  intros g Hg. unfold Game.restart_level.
  cbn [Game.world_data Game.set_state Game.set_game_status
       Game.set_wave_started Game.set_placing_turrets
       Game.set_selected_turret Game.set_last_enemy_spawn
       Game.set_current_turret_type].
  destruct (Game.world_data g) as [data|]; [|exact Hg].
  apply (final_obind money_ok).
  - apply process_enemies_money. unfold money_ok. cbn.
    unfold c.MONEY. lia.
  - intros g1 Hg1. exact Hg1.
Qed.

Lemma click_menu_money map_hit difficulty_hit :
  keeps money_ok (Game.click_menu map_hit difficulty_hit).
Proof.
  intros g Hg. unfold Game.click_menu.
  destruct map_hit as [data|].
  - apply (final_obind money_ok).
    + apply process_enemies_money. unfold money_ok. cbn.
      unfold c.MONEY. lia.
    + intros g1 Hg1. exact Hg1.
  - repeat case_match; exact Hg.
Qed.

(** [create_turret] does not touch the world. *)
Lemma create_turret_world now pos g :
  Game.world (final (Game.create_turret now pos g)).1 = Game.world g.
Proof.
  unfold Game.create_turret, Game.with_world.
  repeat case_match; cbn; congruence.
Qed.

(** A purchase: the money is as before, or the price was covered and has
    been taken. *)
Lemma click_game_spend now pos g w :
  Game.world g = Some w ->
  exists w',
    Game.world (final (Game.click_game now pos g)) = Some w' /\
    (w' = w \/
     (Game.placing_turrets g = true /\
      c.turret_buy_costs (Game.current_turret_type g) <= World.money w /\
      w' = World.set_money
             (World.money w
              - c.turret_buy_costs (Game.current_turret_type g)) w)).
Proof.
  intros Hw. unfold Game.click_game, Game.with_world.
  destruct (_ && _); [|exists w; now split; [|left]].
  destruct (Game.placing_turrets g) eqn:Hp.
  - rewrite Hw.
    destruct (_ <=? _) eqn:Hcost; [|exists w; now split; [|left]].
    apply Z.leb_le in Hcost.
    pose proof (create_turret_world now pos g) as Hc.
    destruct (Game.create_turret now pos g) as [[g1 [|]]|x [g1 flag]];
      cbn in Hc; rewrite Hw in Hc.
    + rewrite Hc. cbn. eexists. split; [reflexivity|]. right. now repeat split.
    + cbn. exists w. now split; [|left].
    + cbn. exists w. now split; [|left].
  - exists w. split; [|now left]. case_match; cbn; exact Hw.
Qed.

Lemma click_game_money now pos : keeps money_ok (Game.click_game now pos).
Proof.
  intros g Hg. unfold money_ok in Hg.
  destruct (Game.world g) as [w|] eqn:Hw.
  - destruct (click_game_spend now pos g w Hw) as (w' & Hw' & [->|(_ & Hc & ->)]);
      unfold money_ok; rewrite Hw'; cbn; lia.
  - unfold Game.click_game, Game.with_world. rewrite Hw.
    repeat case_match; unfold money_ok; cbn; now rewrite ?Hw.
Qed.

Lemma handle_events_money now events g :
  money_ok g -> money_ok (final (Game.handle_events now events g)).1.
Proof.
  revert g. induction events as [|ev events IH]; intros g Hg; [exact Hg|].
  destruct ev as [| |pos map_hit difficulty_hit]; cbn; [exact Hg|auto|].
  assert (Hstep : money_ok (final
            match Game.state g with
            | menu => Game.click_menu map_hit difficulty_hit g
            | game => Game.click_game now pos g
            | game_over => Ok g
            end)).
  { destruct (Game.state g);
      [now apply click_menu_money | now apply click_game_money | exact Hg]. }
  destruct (match Game.state g with
            | menu => _ | game => _ | game_over => _ end) as [g1|x g1];
    cbn in Hstep |- *; auto.
Qed.

Lemma spawn_block_money now b : keeps money_ok (Game.spawn_block now b).
Proof.
  intros g Hg. unfold Game.spawn_block, Game.with_world.
  unfold money_ok in Hg.
  destruct (Game.world g) as [w|] eqn:Hw;
    repeat case_match; unfold money_ok; cbn; rewrite ?Hw;
    first [exact Hg | exact I].
Qed.

Lemma completion_block_money now : keeps money_ok (Game.completion_block now).
Proof.
  intros g Hg.
  destruct (Game.world g) as [w|] eqn:Hw.
  - destruct (World.is_wave_completed w) eqn:Hc.
    + destruct (Game.MAX_LEVELS <? World.level w) eqn:Hl.
      * unfold Game.completion_block, Game.with_world.
        rewrite Hw, Hc, Hl. exact Hg.
      * assert (Heq : Game.completion_block now g = Game.next_wave now g).
        { unfold Game.completion_block, Game.next_wave, Game.with_world.
          now rewrite Hw, Hc, Hl. }
        rewrite Heq. now apply next_wave_money.
    + unfold Game.completion_block, Game.with_world. rewrite Hw, Hc.
      exact Hg.
  - unfold Game.completion_block, Game.with_world. rewrite Hw. exact Hg.
Qed.

Lemma shop_block_world now b g :
  Game.world (Game.shop_block now b g) = Game.world g.
Proof. unfold Game.shop_block. repeat case_match; reflexivity. Qed.

(** The permanent upgrade: the money is as before, or the cost was covered
    and has been taken. *)
Lemma upgrade_block_spend now b g w :
  Game.world g = Some w ->
  exists w',
    Game.world (final (Game.upgrade_block now b g)) = Some w' /\
    (w' = w \/
     (c.UPGRADE_COST <= World.money w /\
      w' = World.set_money (World.money w - c.UPGRADE_COST) w)).
Proof.
  intros Hw. unfold Game.upgrade_block, Game.with_world.
  destruct (Game.the_selected g) as [[i t]|]; [|exists w; now split; [|left]].
  destruct (_ && _); [|exists w; now split; [|left]].
  destruct (negb _); [|exists w; now split; [|left]].
  rewrite Hw.
  destruct (_ <=? _) eqn:Hcost; [|exists w; now split; [|left]].
  apply Z.leb_le in Hcost.
  destruct (Turret.upgrade t); cbn; eexists; (split; [reflexivity|]);
    right; now split.
Qed.

(** The tidal upgrade: the same for its cost. *)
Lemma tidal_block_spend now b g w :
  Game.world g = Some w ->
  exists w',
    Game.world (final (Game.tidal_block now b g)) = Some w' /\
    (w' = w \/
     (c.TIDAL_UPGRADE_COST <= World.money w /\
      w' = World.set_money (World.money w - c.TIDAL_UPGRADE_COST) w)).
Proof.
  intros Hw. unfold Game.tidal_block, Game.with_world.
  destruct (Game.the_selected g) as [[i t]|]; [|exists w; now split; [|left]].
  destruct (tidal_upgrade_button b); [|exists w; now split; [|left]].
  destruct (Game.wave_started g); [|exists w; now split; [|left]].
  destruct (_ && _); [|exists w; now split; [|left]].
  rewrite Hw.
  destruct (_ <=? _) eqn:Hcost; [|exists w; now split; [|left]].
  apply Z.leb_le in Hcost.
  cbn. eexists. split; [reflexivity|]. right. now split.
Qed.

Lemma upgrade_block_money now b : keeps money_ok (Game.upgrade_block now b).
Proof.
  intros g Hg. unfold money_ok in Hg.
  destruct (Game.world g) as [w|] eqn:Hw.
  - destruct (upgrade_block_spend now b g w Hw) as (w' & Hw' & [->|(Hc & ->)]);
      unfold money_ok; rewrite Hw'; cbn; lia.
  - unfold Game.upgrade_block, Game.with_world. rewrite Hw.
    repeat case_match; unfold money_ok; cbn; now rewrite ?Hw.
Qed.

Lemma tidal_block_money now b : keeps money_ok (Game.tidal_block now b).
Proof.
  intros g Hg. unfold money_ok in Hg.
  destruct (Game.world g) as [w|] eqn:Hw.
  - destruct (tidal_block_spend now b g w Hw) as (w' & Hw' & [->|(Hc & ->)]);
      unfold money_ok; rewrite Hw'; cbn; lia.
  - unfold Game.tidal_block, Game.with_world. rewrite Hw.
    repeat case_match; unfold money_ok; cbn; now rewrite ?Hw.
Qed.

Lemma sell_price_nonneg k :
  0 <= py_int (inject_Z (c.turret_buy_costs k) * c.SELL_RETURN_RATE).
Proof. destruct k; vm_compute; discriminate. Qed.

Lemma sell_block_money now b : keeps money_ok (Game.sell_block now b).
Proof.
  intros g Hg. unfold Game.sell_block, Game.with_world.
  destruct (Game.the_selected g) as [[i t]|]; [|exact Hg].
  destruct (sell_button b); [|exact Hg].
  unfold money_ok in *.
  destruct (Game.world g) as [w|] eqn:Hw; cbn; rewrite ?Hw; [|exact I].
  pose proof (sell_price_nonneg (Turret.turret_type t)). lia.
Qed.

Lemma back_block_money now b : keeps money_ok (Game.back_block now b).
Proof.
  intros g Hg. unfold Game.back_block.
  destruct (back_to_menu_button b); [now apply restart_level_money|exact Hg].
Qed.

Lemma skip_block_money now b : keeps money_ok (Game.skip_block now b).
Proof.
  intros g Hg. unfold Game.skip_block, Game.with_world.
  destruct (Game.world g) as [w|] eqn:Hw; [|exact Hg].
  repeat case_match; try exact Hg. now apply skip_wave_money.
Qed.

Lemma message_block_world now g :
  Game.world (Game.message_block now g) = Game.world g.
Proof. unfold Game.message_block. repeat case_match; reflexivity. Qed.

Lemma draw_game_money now b : keeps money_ok (Game.draw_game now b).
Proof.
  intros g Hg. unfold Game.draw_game.
  destruct (Game.state g); try exact Hg.
  repeat (apply (final_obind money_ok); [|intros ? ?]).
  - now apply spawn_block_money.
  - now apply completion_block_money.
  - unfold money_ok. cbn. now rewrite shop_block_world.
  - now apply upgrade_block_money.
  - now apply tidal_block_money.
  - now apply sell_block_money.
  - now apply back_block_money.
  - now apply skip_block_money.
  - unfold money_ok. cbn. now rewrite message_block_world.
Qed.

Lemma draw_money now b : keeps money_ok (Game.draw now b).
Proof.
  intros g Hg. unfold Game.draw, Game.draw_game_over.
  destruct (Game.state g); [exact Hg|now apply draw_game_money|].
  destruct (restart_button b); [now apply restart_level_money|exact Hg].
Qed.

Lemma frame_money f g :
  money_ok g -> money_ok (final (Game.frame f g)).1.
Proof.
  intros Hg. unfold Game.frame.
  pose proof (handle_events_money (Game.ticks f) (Game.events f) g Hg) as He.
  destruct (Game.handle_events _ _ g) as [[g1 running]|x [g1 running]];
    cbn in He |- *; [|exact He].
  rewrite final_omap. cbn.
  apply (final_obind money_ok); [now apply update_money|].
  intros g2 Hg2. now apply draw_money.
Qed.

Lemma run_money fs g : money_ok g -> money_ok (final (Game.run fs g)).
Proof.
  revert g. induction fs as [|f fs IH]; intros g Hg; [exact Hg|].
  cbn. pose proof (frame_money f g Hg) as Hf.
  destruct (Game.frame f g) as [[g1 [|]]|x [g1 running]]; cbn in Hf |- *; auto.
Qed.

(** C4.  The money of the world is never negative: not in the state any
    session reaches from the start of the program, and, from any state with
    non-negative money, not after any further frames (also in the state an
    exception leaves behind).  Each of the three spending commands (buying
    a turret with a click in placement mode, the permanent upgrade, the
    tidal upgrade) leaves a world that is either untouched or has exactly the
    price deducted, and the deduction happens only when the price did not
    exceed the money held; with less money than the price the world, and so
    the money, is unchanged. *)
Theorem money_never_negative :
  (forall (now : Z) (seed : Rng) (fs : list Game.Frame),
     money_ok (final (Game.run fs (Game.init now seed)))) /\
  (forall (fs : list Game.Frame) (g : Game.Game),
     money_ok g -> money_ok (final (Game.run fs g))) /\
  (forall (now : Z) (pos : Q * Q) (b : Buttons) (g : Game.Game)
          (w : World.World),
     Game.world g = Some w ->
     let spent (cost : Z) (g' : Game.Game) :=
       Game.world g' = Some w \/
       (cost <= World.money w /\
        Game.world g' = Some (World.set_money (World.money w - cost) w)) in
     let refused (cost : Z) (g' : Game.Game) :=
       World.money w < cost -> Game.world g' = Some w in
     let buy_cost := c.turret_buy_costs (Game.current_turret_type g) in
     spent buy_cost (final (Game.click_game now pos g)) /\
     refused buy_cost (final (Game.click_game now pos g)) /\
     spent c.UPGRADE_COST (final (Game.upgrade_block now b g)) /\
     refused c.UPGRADE_COST (final (Game.upgrade_block now b g)) /\
     spent c.TIDAL_UPGRADE_COST (final (Game.tidal_block now b g)) /\
     refused c.TIDAL_UPGRADE_COST (final (Game.tidal_block now b g))).
Proof.
  split; [|split].
  - intros now seed fs. apply run_money. exact I.
  - apply run_money.
  - intros now pos b g w Hw spent refused buy_cost.
    subst spent refused buy_cost. cbn beta.
    destruct (click_game_spend now pos g w Hw) as (w1 & Hw1 & H1).
    destruct (upgrade_block_spend now b g w Hw) as (w2 & Hw2 & H2).
    destruct (tidal_block_spend now b g w Hw) as (w3 & Hw3 & H3).
    rewrite Hw1, Hw2, Hw3.
    repeat split.
    + destruct H1 as [->|(_ & Hc & ->)]; [now left|now right].
    + intros Hlt. destruct H1 as [->|(_ & Hc & ->)]; [reflexivity|lia].
    + destruct H2 as [->|(Hc & ->)]; [now left|now right].
    + intros Hlt. destruct H2 as [->|(Hc & ->)]; [reflexivity|lia].
    + destruct H3 as [->|(Hc & ->)]; [now left|now right].
    + intros Hlt. destruct H3 as [->|(Hc & ->)]; [reflexivity|lia].
Qed.

(** ** The end of the last wave *)

(** The spawn block neither spawns nor touches the world once the whole
    roster is out. *)
Lemma spawn_block_all_spawned now b g w :
  Game.world g = Some w ->
  World.spawned_enemies w = Z.of_nat (length (World.enemy_list w)) ->
  exists g1,
    Game.spawn_block now b g = Ok g1 /\
    Game.world g1 = Some w /\
    Game.state g1 = Game.state g /\
    Game.game_status g1 = Game.game_status g /\
    Game.rng g1 = Game.rng g.
Proof.
  intros Hw Hs. unfold Game.spawn_block, Game.with_world. rewrite Hw.
  replace (World.spawned_enemies w <? Z.of_nat (length (World.enemy_list w)))
    with false by (symmetry; apply Z.ltb_ge; lia).
  repeat case_match; eexists; (split; [reflexivity|]); now repeat split.
Qed.

Lemma obind_raise {S} (e : exn) (s : S) (k : S -> outcome S) :
  Raise e s >>> k = Raise e s.
Proof. reflexivity. Qed.

(** C1 (where the code departs from it).  When the wave that completes is
    the last one of the table, [draw_game] does not reach the won state: the
    check [level > MAX_LEVELS] is made before the level is raised, so the
    reset sequence runs, raises the level to [MAX_LEVELS + 1] and asks
    [process_enemies] for a wave the table does not have.  The frame ends in
    [IndexError], with the state still [game] and [game_status] as it was. *)
Theorem last_wave_completion_raises (now : Z) (b : Buttons) (g : Game.Game)
    (w : World.World) :
  Game.state g = game ->
  Game.world g = Some w ->
  World.level w = Game.MAX_LEVELS ->
  World.is_wave_completed w = true ->
  World.spawned_enemies w = Z.of_nat (length (World.enemy_list w)) ->
  let r := Game.draw_game now b g in
  raised r = Some IndexError /\
  Game.state (final r) = game /\
  Game.game_status (final r) = Game.game_status g /\
  exists w',
    Game.world (final r) = Some w' /\
    World.level w' = Game.MAX_LEVELS + 1 /\
    World.money w' = World.money w + c.WAVE_COMPLETE_REWARD.
Proof.
  intros Hst Hw Hl Hc Hs r. subst r. unfold Game.draw_game. rewrite Hst.
  destruct (spawn_block_all_spawned now b g w Hw Hs)
    as (g1 & -> & Hw1 & Hst1 & Hgs1 & _).
  cbn [obind].
  assert (Hraise : Game.completion_block now g1
    = Raise IndexError
        (Game.set_world
           (Some (World.reset_values
                    (World.set_money
                       (World.money w + c.WAVE_COMPLETE_REWARD) w)))
           (Game.set_last_enemy_spawn now
              (Game.set_wave_started false
                 (Game.set_world
                    (Some (World.set_money
                             (World.money w + c.WAVE_COMPLETE_REWARD) w))
                    g1))))).
  { unfold Game.completion_block, Game.with_world. rewrite Hw1, Hc, Hl.
    cbn [Game.world Game.set_world Game.set_wave_started
         Game.set_last_enemy_spawn Z.ltb Z.compare Pos.compare
         Pos.compare_cont Game.MAX_LEVELS].
    rewrite Z.ltb_irrefl.
    unfold Game.process_enemies, Game.with_world.
    cbn [Game.world Game.set_world].
    unfold World.process_enemies.
    cbn [fst World.level World.reset_values World.set_money].
    rewrite Hl. reflexivity. }
  rewrite Hraise. cbn.
  split; [reflexivity|]. split; [now rewrite Hst1, Hst|].
  split; [exact Hgs1|].
  eexists. split; [reflexivity|]. cbn. now rewrite Hl.
Qed.

(** *** The won state is out of reach

    In every state a session reaches without an exception the level is at
    most [MAX_LEVELS]: the level only grows in [reset_values], and the
    [process_enemies] that follows raises unless the new level has a wave in
    the table.  So neither test [level > MAX_LEVELS] ever succeeds. *)

Lemma sound_obind k1 k2 :
  sound k1 -> sound k2 -> sound (fun g => k1 g >>> k2).
Proof.
  intros H1 H2 g Hl Hn. specialize (H1 g Hl Hn).
  destruct (k1 g) as [g1|x g1]; cbn; [|exact H1].
  destruct H1 as [Hl1 Hn1]. exact (H2 g1 Hl1 Hn1).
Qed.

Lemma sound_pure (f : Game.Game -> Game.Game) :
  (forall g, Game.world (f g) = Game.world g) ->
  (forall g, Game.game_status (f g) = Game.game_status g) ->
  sound (fun g => Ok (f g)).
Proof.
  intros Hw Hs g Hl Hn. unfold level_ok, not_won in *.
  now rewrite Hw, Hs.
Qed.

(** [process_enemies] returns only for a level that has a wave. *)
Lemma process_enemies_level g :
  match Game.process_enemies g with
  | Ok g' => level_ok g' /\ Game.game_status g' = Game.game_status g
  | Raise _ g' => Game.game_status g' = Game.game_status g
  end.
Proof.
  unfold Game.process_enemies, Game.with_world.
  destruct (Game.world g) as [w|] eqn:Hw; [|reflexivity].
  pose proof (world_process_enemies_account w (Game.rng g)) as Ha.
  unfold World.process_enemies in *. cbn [fst] in *.
  destruct (py_getitem WAVE_ENEMY_DATA (World.level w - 1)) eqn:Hg;
    cbn in Ha |- *; [|reflexivity].
  split; [|reflexivity].
  unfold level_ok. cbn. destruct Ha as (-> & _).
  unfold py_getitem in Hg.
  change (Z.of_nat (length WAVE_ENEMY_DATA)) with 16 in Hg.
  change Game.MAX_LEVELS with 16.
  destruct (Z.leb_spec 0 (World.level w - 1)); [|lia].
  destruct (Z.ltb_spec (World.level w - 1) 16); [lia|].
  destruct (Z.ltb_spec (World.level w - 1) 0); [lia|].
  rewrite !andb_false_r in Hg. discriminate.
Qed.

Lemma enemy_update_level now w e :
  World.level (final (Enemy.update now (w, e))).1 = World.level w.
Proof.
  unfold Enemy.update.
  repeat apply (final_obind (fun st => World.level st.1 = World.level w)).
  - unfold Enemy.move. repeat case_match; reflexivity.
  - intros st Hst. exact Hst.
  - intros [w1 e1] Hst. unfold Enemy.check_if_alive.
    case_match; cbn in *; exact Hst.
  - intros st Hst. exact Hst.
Qed.

Lemma update_enemies_level now w es :
  World.level (final (Game.update_enemies now w es)).1 = World.level w.
Proof.
  revert w. induction es as [|e es IH]; intros w; cbn; [reflexivity|].
  pose proof (enemy_update_level now w e) as He.
  destruct (Enemy.update now (w, e)) as [[w1 e1]|x [w1 e1]]; cbn in He |- *;
    [|exact He].
  rewrite final_omap. cbn. now rewrite IH.
Qed.

Lemma sound_update now : sound (Game.update now).
Proof.
  intros g Hl Hn. unfold Game.update, Game.with_world.
  destruct (Game.state g); try (now split).
  destruct (Game.world g) as [w|] eqn:Hw; [|exact Hn].
  assert (Hlw : World.level w <= Game.MAX_LEVELS).
  { unfold level_ok in Hl. now rewrite Hw in Hl. }
  destruct (World.health w <=? 0).
  { split; [unfold level_ok; cbn; now rewrite Hw|]. now unfold not_won. }
  replace (Game.MAX_LEVELS <? World.level w) with false
    by (symmetry; apply Z.ltb_ge; exact Hlw).
  pose proof (update_enemies_level now w (Game.enemy_group g)) as Hlev.
  destruct (Game.update_enemies now w (Game.enemy_group g))
    as [[w1 es1]|x [w1 es1]]; cbn in Hlev |- *; [|exact Hn].
  match goal with
  | |- context [Game.update_turrets now ?ts ?es] =>
      destruct (Game.update_turrets now ts es) as [[ts2 es2]|x [ts2 es2]]
  end; cbn; [|exact Hn].
  split; [|exact Hn]. unfold level_ok. cbn. lia.
Qed.

Lemma sound_process_enemies : sound Game.process_enemies.
Proof.
  intros g _ Hn. pose proof (process_enemies_level g) as Hp.
  unfold not_won in *.
  destruct (Game.process_enemies g); [destruct Hp as [? ->]|rewrite Hp];
    auto.
Qed.

(** The shared end of [next_wave], [skip_wave], [completion_block],
    [restart_level] and the menu: whatever world is installed first. *)
Lemma sound_after_process_enemies (f h : Game.Game -> Game.Game) :
  (forall g, Game.game_status (f g) = Game.game_status g) ->
  (forall g, Game.world (h g) = Game.world g) ->
  (forall g, Game.game_status (h g) = Game.game_status g) ->
  forall g, not_won g ->
    match Game.process_enemies (f g) >>> (fun g => Ok (h g)) with
    | Ok g' => level_ok g' /\ not_won g'
    | Raise _ g' => not_won g'
    end.
Proof.
  intros Hf Hhw Hhs g Hn. pose proof (process_enemies_level (f g)) as Hp.
  unfold not_won, level_ok in *.
  destruct (Game.process_enemies (f g)) as [g1|x g1]; cbn.
  - destruct Hp as [Hl Hs]. rewrite Hhw, Hhs, Hs, Hf. now split.
  - now rewrite Hp, Hf.
Qed.

Lemma sound_next_wave now : sound (Game.next_wave now).
Proof.
  intros g _ Hn. unfold Game.next_wave, Game.with_world.
  destruct (Game.world g) as [w|] eqn:Hw; [|exact Hn].
  cbn [Game.world Game.set_world Game.set_wave_started
       Game.set_last_enemy_spawn].
  apply (sound_after_process_enemies
           (fun g => Game.set_world
                       (Some (World.reset_values
                                (World.set_money
                                   (World.money w + c.WAVE_COMPLETE_REWARD)
                                   w)))
                       (Game.set_last_enemy_spawn now
                          (Game.set_wave_started false
                             (Game.set_world
                                (Some (World.set_money
                                         (World.money w
                                          + c.WAVE_COMPLETE_REWARD) w)) g))))
           (fun g => Game.set_turret_group
                       (Turret.reset_tidal_upgrade <$> Game.turret_group g)
                       g)); auto.
Qed.

Lemma sound_skip_wave now : sound (Game.skip_wave now).
Proof.
  intros g Hl Hn.
  destruct (Game.wave_started g) eqn:Hs.
  - destruct (Game.world g) as [w|] eqn:Hw.
    + rewrite (skip_wave_next_wave now g w Hw Hs).
      apply sound_next_wave; [|exact Hn].
      unfold level_ok in *. cbn. now rewrite Hw in Hl.
    + unfold Game.skip_wave, Game.with_world. rewrite Hs. cbn.
      rewrite Hw. exact Hn.
  - unfold Game.skip_wave. rewrite Hs. now split.
Qed.

Lemma sound_completion_block now : sound (Game.completion_block now).
Proof.
  intros g Hl Hn.
  destruct (Game.world g) as [w|] eqn:Hw.
  - assert (Hlw : World.level w <= Game.MAX_LEVELS).
    { unfold level_ok in Hl. now rewrite Hw in Hl. }
    apply Z.ltb_ge in Hlw.
    destruct (World.is_wave_completed w) eqn:Hc.
    + assert (Heq : Game.completion_block now g = Game.next_wave now g).
      { unfold Game.completion_block, Game.next_wave, Game.with_world.
        now rewrite Hw, Hc, Hlw. }
      rewrite Heq. now apply sound_next_wave.
    + unfold Game.completion_block, Game.with_world. rewrite Hw, Hc.
      now split.
  - unfold Game.completion_block, Game.with_world. rewrite Hw. exact Hn.
Qed.

Lemma sound_restart_level now : sound (Game.restart_level now).
Proof.
  intros g _ _. unfold Game.restart_level.
  cbn [Game.world_data Game.set_state Game.set_game_status
       Game.set_wave_started Game.set_placing_turrets
       Game.set_selected_turret Game.set_last_enemy_spawn
       Game.set_current_turret_type].
  destruct (Game.world_data g) as [data|]; [|now unfold not_won].
  match goal with
  | |- context [Game.process_enemies ?g0] =>
      pose proof (process_enemies_level g0) as Hp;
      destruct (Game.process_enemies g0) as [g1|x g1]; cbn in Hp |- *
  end.
  - destruct Hp as [Hl Hs]. unfold level_ok, not_won in *. cbn.
    rewrite Hs. split; [exact Hl|discriminate].
  - unfold not_won. rewrite Hp. discriminate.
Qed.

Lemma sound_click_menu map_hit difficulty_hit :
  sound (Game.click_menu map_hit difficulty_hit).
Proof.
  intros g Hl Hn. unfold Game.click_menu.
  destruct map_hit as [data|].
  - apply (sound_after_process_enemies
             (fun g => Game.set_world
                         (Some (World.process_data (World.init data)))
                         (Game.set_world_data (Some data) g))
             (Game.set_state game)); auto.
  - destruct difficulty_hit; [|split; [exact Hl|exact Hn]].
    destruct (py_getitem _ _); [split; [exact Hl|exact Hn]|exact Hn].
Qed.

Lemma world_level_ok g g' w w' :
  Game.world g = Some w -> Game.world g' = Some w' ->
  World.level w' = World.level w -> level_ok g -> level_ok g'.
Proof. unfold level_ok. intros -> -> ->. auto. Qed.

(** A block that keeps [game_status], and the level with the world. *)
Lemma sound_by_final (k : Game.Game -> outcome Game.Game) :
  (forall g, Game.game_status (final (k g)) = Game.game_status g) ->
  (forall g w, Game.world g = Some w ->
     exists w', Game.world (final (k g)) = Some w' /\
                World.level w' = World.level w) ->
  (forall g, Game.world g = None -> Game.world (final (k g)) = None) ->
  sound k.
Proof.
  intros Hs Hw Hnone g Hl Hn. specialize (Hs g).
  assert (Hl' : level_ok (final (k g))).
  { destruct (Game.world g) as [w|] eqn:Hgw.
    - destruct (Hw g w Hgw) as (w' & Hw' & Hlev).
      exact (world_level_ok g _ w w' Hgw Hw' Hlev Hl).
    - unfold level_ok. now rewrite (Hnone g Hgw). }
  unfold not_won in *.
  destruct (k g); cbn in *; rewrite Hs; auto.
Qed.

Lemma sound_click_game now pos : sound (Game.click_game now pos).
Proof.
  apply sound_by_final.
  - intros g. unfold Game.click_game, Game.with_world.
    pose proof (create_turret_world now pos g) as Hc.
    assert (Hcs : Game.game_status (final (Game.create_turret now pos g)).1
                  = Game.game_status g).
    { unfold Game.create_turret, Game.with_world.
      repeat case_match; reflexivity. }
    destruct (Game.create_turret now pos g) as [[g1 [|]]|x [g1 flag]];
      cbn in Hc, Hcs; repeat case_match; cbn; congruence.
  - intros g w Hw.
    destruct (click_game_spend now pos g w Hw) as (w' & Hw' & Hcase).
    exists w'. split; [exact Hw'|].
    destruct Hcase as [->|(_ & _ & ->)]; reflexivity.
  - intros g Hw. unfold Game.click_game, Game.with_world. rewrite Hw.
    repeat case_match; cbn; assumption.
Qed.

Lemma handle_events_sound now events g :
  level_ok g -> not_won g ->
  match Game.handle_events now events g with
  | Ok (g', _) => level_ok g' /\ not_won g'
  | Raise _ (g', _) => not_won g'
  end.
Proof.
  revert g. induction events as [|ev events IH]; intros g Hl Hn;
    [now split|].
  destruct ev as [| |pos map_hit difficulty_hit]; cbn;
    [now split|now apply IH|].
  assert (Hstep : match
            match Game.state g with
            | menu => Game.click_menu map_hit difficulty_hit g
            | game => Game.click_game now pos g
            | game_over => Ok g
            end with
            | Ok g' => level_ok g' /\ not_won g'
            | Raise _ g' => not_won g'
            end).
  { destruct (Game.state g);
      [now apply sound_click_menu | now apply sound_click_game | now split]. }
  destruct (match Game.state g with
            | menu => _ | game => _ | game_over => _ end) as [g1|x g1];
    [destruct Hstep as [Hl1 Hn1]; now apply IH | exact Hstep].
Qed.

Lemma sound_spawn_block now b : sound (Game.spawn_block now b).
Proof.
  apply sound_by_final.
  - intros g. unfold Game.spawn_block, Game.with_world.
    repeat case_match; reflexivity.
  - intros g w Hw. unfold Game.spawn_block, Game.with_world. rewrite Hw.
    repeat case_match; cbn; eauto.
  - intros g Hw. unfold Game.spawn_block, Game.with_world. rewrite Hw.
    repeat case_match; cbn; assumption.
Qed.

Lemma sound_upgrade_block now b : sound (Game.upgrade_block now b).
Proof.
  apply sound_by_final.
  - intros g. unfold Game.upgrade_block, Game.with_world.
    repeat case_match; reflexivity.
  - intros g w Hw.
    destruct (upgrade_block_spend now b g w Hw) as (w' & Hw' & Hcase).
    exists w'. split; [exact Hw'|].
    destruct Hcase as [->|(_ & ->)]; reflexivity.
  - intros g Hw. unfold Game.upgrade_block, Game.with_world. rewrite Hw.
    repeat case_match; cbn; assumption.
Qed.

Lemma sound_tidal_block now b : sound (Game.tidal_block now b).
Proof.
  apply sound_by_final.
  - intros g. unfold Game.tidal_block, Game.with_world.
    repeat case_match; reflexivity.
  - intros g w Hw.
    destruct (tidal_block_spend now b g w Hw) as (w' & Hw' & Hcase).
    exists w'. split; [exact Hw'|].
    destruct Hcase as [->|(_ & ->)]; reflexivity.
  - intros g Hw. unfold Game.tidal_block, Game.with_world. rewrite Hw.
    repeat case_match; cbn; assumption.
Qed.

Lemma sound_sell_block now b : sound (Game.sell_block now b).
Proof.
  apply sound_by_final.
  - intros g. unfold Game.sell_block, Game.with_world.
    repeat case_match; reflexivity.
  - intros g w Hw. unfold Game.sell_block, Game.with_world. rewrite Hw.
    repeat case_match; cbn; eauto.
  - intros g Hw. unfold Game.sell_block, Game.with_world. rewrite Hw.
    repeat case_match; cbn; assumption.
Qed.

Lemma sound_back_block now b : sound (Game.back_block now b).
Proof.
  intros g Hl Hn. unfold Game.back_block.
  destruct (back_to_menu_button b); [now apply sound_restart_level|now split].
Qed.

Lemma sound_skip_block now b : sound (Game.skip_block now b).
Proof.
  intros g Hl Hn. unfold Game.skip_block, Game.with_world.
  destruct (Game.world g) as [w|] eqn:Hw; [|exact Hn].
  destruct (_ && _); [|now split].
  destruct (skip_button b); [now apply sound_skip_wave|now split].
Qed.

Lemma sound_draw_game now b : sound (Game.draw_game now b).
Proof.
  intros g Hl Hn. unfold Game.draw_game.
  destruct (Game.state g); try (now split).
  revert g Hl Hn.
  change (sound (fun g =>
    Game.spawn_block now b g >>> Game.completion_block now
    >>> (fun g => Ok (Game.shop_block now b g))
    >>> Game.upgrade_block now b >>> Game.tidal_block now b
    >>> Game.sell_block now b >>> Game.back_block now b
    >>> Game.skip_block now b
    >>> (fun g => Ok (Game.message_block now g)))).
  repeat apply sound_obind.
  - apply sound_spawn_block.
  - apply sound_completion_block.
  - apply sound_pure; intros g.
    + apply shop_block_world.
    + unfold Game.shop_block. repeat case_match; reflexivity.
  - apply sound_upgrade_block.
  - apply sound_tidal_block.
  - apply sound_sell_block.
  - apply sound_back_block.
  - apply sound_skip_block.
  - apply sound_pure; intros g.
    + apply message_block_world.
    + unfold Game.message_block. repeat case_match; reflexivity.
Qed.

Lemma sound_draw now b : sound (Game.draw now b).
Proof.
  intros g Hl Hn. unfold Game.draw, Game.draw_game_over.
  destruct (Game.state g); [now split|now apply sound_draw_game|].
  destruct (restart_button b); [now apply sound_restart_level|now split].
Qed.

Lemma frame_sound f g :
  level_ok g -> not_won g ->
  match Game.frame f g with
  | Ok (g', _) => level_ok g' /\ not_won g'
  | Raise _ (g', _) => not_won g'
  end.
Proof.
  intros Hl Hn. unfold Game.frame.
  pose proof (handle_events_sound (Game.ticks f) (Game.events f) g Hl Hn)
    as He.
  destruct (Game.handle_events _ _ g) as [[g1 running]|x [g1 running]];
    [|exact He].
  destruct He as [Hl1 Hn1].
  pose proof (sound_obind _ _ (sound_update (Game.ticks f))
                (sound_draw (Game.ticks f) (Game.buttons f)) g1 Hl1 Hn1)
    as Hud.
  cbn beta in Hud.
  destruct (Game.update (Game.ticks f) g1
            >>> Game.draw (Game.ticks f) (Game.buttons f)); exact Hud.
Qed.

(** No session, however it is played, ends in the won state: it is still
    running, lost, back in the menu, or stopped by an exception. *)
Theorem won_state_unreachable (now : Z) (seed : Rng) (fs : list Game.Frame) :
  Game.game_status (final (Game.run fs (Game.init now seed))) <> 1.
Proof.
  assert (Hgen : forall fs g, level_ok g -> not_won g ->
                   not_won (final (Game.run fs g))).
  { clear fs. intros fs. induction fs as [|f fs IH]; intros g Hl Hn;
      [exact Hn|].
    cbn. pose proof (frame_sound f g Hl Hn) as Hf.
    destruct (Game.frame f g) as [[g1 [|]]|x [g1 running]]; cbn.
    - destruct Hf. auto.
    - now destruct Hf.
    - exact Hf. }
  apply Hgen; [exact I|]. unfold not_won. cbn. discriminate.
Qed.

(** ** An enemy at the end of the path *)

(** The killed event fires at most once per enemy: the update that counts
    the kill takes the enemy out of the group, so it is not updated again. *)
Lemma killed_at_most_once now w e :
  let st := final (Enemy.update now (w, e)) in
  World.killed_enemies st.1 = World.killed_enemies w \/
  (World.killed_enemies st.1 = World.killed_enemies w + 1 /\
   Enemy.alive st.2 = false /\
   Game.members [st.2] = []).
Proof.
  unfold Enemy.update, Enemy.move, Enemy.check_if_alive, Enemy.rotate,
    Enemy.update_slow_effect.
  repeat (case_match; cbn);
    first [now left | right; repeat split; reflexivity | idtac].
Qed.

(** C3 (where the code departs from it).  An enemy that has passed the last
    waypoint and whose health is not positive when it is updated fires both
    events in that one update: [move] counts it as missed and takes its
    damage from the player's health, and [check_if_alive], which runs after
    [move] has returned, counts it as killed and pays the kill reward. *)
Theorem escaped_enemy_also_killed (now : Z) (w : World.World)
    (e : Enemy.Enemy) :
  Z.of_nat (length (Enemy.waypoints e)) <= Enemy.target_waypoint e ->
  (Enemy.health e <= 0)%Q ->
  exists w' e',
    Enemy.update now (w, e) = Ok (w', e') /\
    Enemy.alive e' = false /\
    World.missed_enemies w' = World.missed_enemies w + 1 /\
    World.health w' = World.health w - Enemy.damage_inflicted e /\
    World.killed_enemies w' = World.killed_enemies w + 1 /\
    World.money w'
    = World.money w + es_kill_reward (ENEMY_DATA (Enemy.enemy_type e)).
Proof.
  intros Hend Hdead. unfold Enemy.update, Enemy.move.
  apply Z.ltb_ge in Hend. rewrite Hend.
  cbn [obind Enemy.rotate]. unfold Enemy.check_if_alive.
  cbn [Enemy.health Enemy.kill].
  apply Qle_bool_iff in Hdead. unfold Qleb. rewrite Hdead.
  cbn [obind]. eexists _, _. split; [reflexivity|].
  unfold Enemy.update_slow_effect. cbn.
  repeat split. now case_match.
Qed.

End GameFacts.


(** ** The properties on concrete sessions *)

Section Sessions.

(** The roots the sessions below need are exact on the platform they run
    on: the half-pixel step of the enemy, and a root of a square. *)
Example Qsqrt_quarter : (Qsqrt (1 # 4) == 1 # 2)%Q.
Proof. reflexivity. Qed.

Example Qsqrt_2500 : (Qsqrt 2500 == 50)%Q.
Proof. reflexivity. Qed.

(** C6 (where the code departs from it).  In the session of
    [Scenario.two_turrets_session] one enemy is spawned, reaches the last
    waypoint and is shot down to health 0 by the two turrets in the same
    update; its next update counts it as missed and as killed.  The session
    ends, without any exception, in a state with one enemy spawned and
    killed + missed = 2. *)
Theorem double_count_session :
  let r := Game.run Scenario.two_turrets_session (Game.init 0 tt) in
  raised r = None /\
  Game.state (final r) = game /\
  Game.enemy_group (final r) = [] /\
  exists w,
    Game.world (final r) = Some w /\
    World.spawned_enemies w = 1 /\
    World.killed_enemies w = 1 /\
    World.missed_enemies w = 1 /\
    Z.of_nat (length (World.enemy_list w)) = 8 /\
    World.health w = c.HEALTH - 1 /\
    World.money w = c.MONEY - 200 - 200 + 10 /\
    ~ (World.killed_enemies w + World.missed_enemies w
       <= World.spawned_enemies w).
Proof.
  vm_compute. repeat (split; [reflexivity|]).
  eexists. repeat (split; [reflexivity|]). intros Hle. now apply Hle.
Qed.

(** C2 (where the code departs from it).  In the session of
    [Scenario.tidal_session] the turret takes its tidal upgrade in the first
    wave; the wave completes and resets the upgrade, and the second wave is
    begun.  The turret is then selected, not upgraded ([tidal_active] is
    false, range and damage are the base values), the player holds 500, yet
    [tidal_used] is still set and the tidal button changes nothing at all:
    no upgrade can be taken in the new wave. *)
Theorem tidal_upgrade_refused_in_second_wave :
  let r := Game.run Scenario.tidal_session (Game.init 0 tt) in
  let g := final r in
  raised r = None /\
  Game.wave_started g = true /\
  World.level <$> Game.world g = Some 2 /\
  World.money <$> Game.world g = Some 500 /\
  (exists t,
     Game.the_selected g = Some (0%nat, t) /\
     Turret.tidal_active t = false /\
     Turret.tidal_used t = true /\
     Turret.range t = 100 /\ Turret.damage t = 5 /\
     Turret.tidally_upgrade 12000 t = t) /\
  Game.tidal_block 12000 Scenario.press_tidal g = Ok g.
Proof.
  vm_compute. repeat (split; [reflexivity|]).
  split; [|reflexivity].
  eexists. repeat (split; [reflexivity|]). reflexivity.
Qed.

End Sessions.

(** ** The theorems at concrete inputs *)

Section Witnesses.

Lemma slow_effect_spec_witness :
  ((0 < 3 # 10)%Q /\ (3 # 10 <= 1)%Q /\ 0 < 500) /\
  Enemy.is_slowed (Enemy.apply_slow 1000 (3 # 10) 500 Scenario.fresh_weak)
  = true /\
  Enemy.speed (Enemy.apply_slow 1000 (3 # 10) 500 Scenario.fresh_weak)
  = (1 * (1 - (3 # 10)))%Q /\
  Enemy.slow_timer (Enemy.apply_slow 1000 (3 # 10) 500 Scenario.fresh_weak)
  = 1500.
Proof.
  assert (H1 : (0 < 3 # 10)%Q) by reflexivity.
  assert (H2 : (3 # 10 <= 1)%Q) by discriminate.
  assert (H3 : 0 < 500) by reflexivity.
  split; [now repeat split|].
  destruct (slow_effect_spec 1000 (3 # 10) 500 Scenario.fresh_weak H1 H2 H3)
    as (_ & Hfresh & _).
  destruct (Hfresh eq_refl) as (Hs & Hv & Ht & _).
  repeat split; assumption.
Defined.

Lemma tidal_upgrade_standard_scenario_witness :
  Turret.init 100 standard 0 0 24 24 = Some Scenario.standard_turret /\
  Turret.range (Turret.tidally_upgrade 500 Scenario.standard_turret) = 125 /\
  Turret.damage (Turret.tidally_upgrade 500 Scenario.standard_turret) = 6 /\
  Turret.tidal_end_time (Turret.tidally_upgrade 500 Scenario.standard_turret)
  = 30500.
Proof.
  assert (Hinit : Turret.init 100 standard 0 0 24 24
                  = Some Scenario.standard_turret) by reflexivity.
  split; [exact Hinit|].
  destruct (tidal_upgrade_standard_scenario 100 0 0 24 24
              Scenario.standard_turret 500 Hinit)
    as (_ & _ & _ & Hr & Hd & He & _).
  repeat split; assumption.
Defined.

Lemma select_target_first_in_reach_witness :
  Turret.update 5000
    (Scenario.standard_turret,
     [Scenario.far_weak; Scenario.fresh_weak; Scenario.fresh_medium])
  = Ok (Turret.set_target (Some 1%nat) Scenario.standard_turret,
        [Scenario.far_weak;
         Turret.hit 5000 Scenario.standard_turret Scenario.fresh_weak;
         Scenario.fresh_medium]) /\
  Enemy.health (Turret.hit 5000 Scenario.standard_turret Scenario.fresh_weak)
  = (10 - 5)%Q.
Proof.
  destruct (select_target_first_in_reach 5000 Scenario.standard_turret
              [Scenario.far_weak] Scenario.fresh_weak [Scenario.fresh_medium])
    as (Hu & Hh & _).
  - reflexivity.
  - reflexivity.
  - constructor; [|constructor]. intros [_ Hd]. vm_compute in Hd.
    discriminate.
  - reflexivity.
  - reflexivity.
  - split; [exact Hu | exact Hh].
Defined.

Lemma tidal_command_outside_wave_witness :
  let g :=
    Scenario.game_at (Scenario.world_at 2 500 (replicate 15 weak) 0 0 0)
      false [] [Scenario.standard_turret] (Some 0%nat) in
  Game.wave_started g = false /\
  exists g',
    Game.tidal_block 700 Scenario.press_tidal g = Ok g' /\
    Game.world g' = Game.world g /\
    Game.turret_group g' = Game.turret_group g.
Proof.
  intros g. split; [reflexivity|].
  destruct (tidal_command_outside_wave 700 Scenario.press_tidal g
              eq_refl eq_refl) as (g' & Hb & Hw & Ht & _).
  exists g'. repeat split; assumption.
Defined.

Lemma skip_wave_spec_witness :
  let w := Scenario.world_at 3 400 (replicate 30 weak) 30 20 8 in
  let g :=
    Scenario.game_at w true [Scenario.fresh_weak; Scenario.fresh_medium]
      [Scenario.standard_turret] None in
  Game.world g = Some w /\ Game.wave_started g = true /\
  Game.enemy_group (final (Game.skip_wave 9000 g)) = [] /\
  exists w',
    Game.world (final (Game.skip_wave 9000 g)) = Some w' /\
    World.health w' = 60 - 6 /\
    World.money w' = 400 + 50.
Proof.
  intros w g. split; [reflexivity|]. split; [reflexivity|].
  destruct (skip_wave_spec 9000 g w eq_refl) as [_ Hskip].
  destruct (Hskip eq_refl)
    as (_ & H6 & _ & _ & He & _ & (w' & Hw' & Hh & Hm & _) & _).
  split; [exact He|].
  exists w'. split; [exact Hw'|]. split; [|exact Hm].
  rewrite Hh. rewrite (H6 _ _ eq_refl eq_refl eq_refl). reflexivity.
Defined.

Lemma money_never_negative_witness :
  money_ok (final (Game.run Scenario.tidal_session (Game.init 0 tt))) /\
  let w := Scenario.world_at 1 150 (replicate 8 weak) 0 0 0 in
  let g := Game.set_placing_turrets true
             (Scenario.game_at w false [] [] None) in
  World.money w < c.turret_buy_costs (Game.current_turret_type g) /\
  Game.world (final (Game.click_game 50 (24, 24)%Q g)) = Some w.
Proof.
  destruct (@money_never_negative run_platform) as (Hinit & _ & Hspend).
  split; [apply Hinit|].
  intros w g.
  assert (Hlt : World.money w
                < c.turret_buy_costs (Game.current_turret_type g))
    by reflexivity.
  split; [exact Hlt|].
  destruct (Hspend 50 (24, 24)%Q Scenario.no_buttons g w eq_refl)
    as (_ & Hrefused & _).
  exact (Hrefused Hlt).
Defined.

Lemma last_wave_completion_raises_witness :
  Game.state Scenario.last_wave_done = game /\
  (World.level <$> Game.world Scenario.last_wave_done)
  = Some Game.MAX_LEVELS /\
  raised (Game.draw_game 99000 Scenario.no_buttons Scenario.last_wave_done)
  = Some IndexError /\
  Game.state
    (final (Game.draw_game 99000 Scenario.no_buttons Scenario.last_wave_done))
  = game.
Proof.
  split; [reflexivity|]. split; [reflexivity|].
  destruct (last_wave_completion_raises 99000 Scenario.no_buttons
              Scenario.last_wave_done
              (Scenario.world_at 16 1200
                 (replicate 25 weak ++ replicate 25 medium
                  ++ replicate 25 strong ++ replicate 25 elite) 100 97 3)
              eq_refl eq_refl eq_refl eq_refl eq_refl)
    as (Hr & Hs & _).
  split; [exact Hr | exact Hs].
Defined.

Lemma escaped_enemy_also_killed_witness :
  let w := Scenario.world_at 1 300 (replicate 8 weak) 1 0 0 in
  (Enemy.health Scenario.shot_at_the_end <= 0)%Q /\
  exists w' e',
    Enemy.update 3200 (w, Scenario.shot_at_the_end) = Ok (w', e') /\
    World.missed_enemies w' = 1 /\
    World.killed_enemies w' = 1.
Proof.
  intros w.
  assert (Hd : (Enemy.health Scenario.shot_at_the_end <= 0)%Q)
    by discriminate.
  split; [exact Hd|].
  assert (He : Z.of_nat (length (Enemy.waypoints Scenario.shot_at_the_end))
               <= Enemy.target_waypoint Scenario.shot_at_the_end)
    by discriminate.
  destruct (escaped_enemy_also_killed 3200 w Scenario.shot_at_the_end He Hd)
    as (w' & e' & Hu & _ & Hm & _ & Hk & _).
  exists w', e'. repeat split; assumption.
Defined.

End Witnesses.

(** * Further properties of the code *)

(** ** world.py: building the roster *)

Section RosterFacts.
Context `{Platform}.

Lemma py_getitem_Some_iff {A} (l : list A) (i : Z) :
  is_Some (py_getitem l i)
  <-> - Z.of_nat (length l) <= i < Z.of_nat (length l).
Proof.
  unfold py_getitem.
  destruct (Z.leb_spec 0 i), (Z.ltb_spec i (Z.of_nat (length l)));
    cbn [andb].
  - rewrite lookup_lt_is_Some. lia.
  - destruct (Z.leb_spec (- Z.of_nat (length l)) i), (Z.ltb_spec i 0);
      cbn [andb]; try lia.
    all: split; [intros [? [=]]|lia].
  - destruct (Z.leb_spec (- Z.of_nat (length l)) i), (Z.ltb_spec i 0);
      cbn [andb]; try lia.
    + rewrite lookup_lt_is_Some. lia.
    + split; [intros [? [=]]|lia].
  - lia.
Qed.

(** [process_enemies] raises exactly for the levels whose subscript
    [level - 1] is outside [-16, 16): it returns for the sixteen waves, and
    also, through Python's negative subscripts, for the levels -15 to 0;
    the level 0 is served the last wave of the table.  When it raises, the
    world and the random generator are as they were. *)
Theorem process_enemies_raises_iff (w : World.World) (r : Rng) :
  (raised (World.process_enemies (w, r)) = None
   <-> -15 <= World.level w <= 16) /\
  (raised (World.process_enemies (w, r)) = Some IndexError
   <-> World.level w < -15 \/ 16 < World.level w) /\
  (raised (World.process_enemies (w, r)) <> None ->
   final (World.process_enemies (w, r)) = (w, r)) /\
  (World.level w = 0 ->
   World.process_enemies (w, r)
   = Ok (foldl World.add_kind (w, r) (wave 25 25 25 25))).
Proof.
  pose proof (py_getitem_Some_iff WAVE_ENEMY_DATA (World.level w - 1)) as Hi.
  change (Z.of_nat (length WAVE_ENEMY_DATA)) with 16 in Hi.
  unfold World.process_enemies. cbn [fst].
  split; [|split; [|split]].
  - destruct (py_getitem WAVE_ENEMY_DATA (World.level w - 1)) eqn:Hg; cbn.
    + split; [intros _|reflexivity].
      assert (Hs : is_Some (Some l)) by eauto. apply Hi in Hs. lia.
    + split; [discriminate|]. intros Hl.
      assert (Hs : is_Some (@None (list (EnemyKind * Z)))) by (apply Hi; lia).
      destruct Hs as [? [=]].
  - destruct (py_getitem WAVE_ENEMY_DATA (World.level w - 1)) eqn:Hg; cbn.
    + split; [discriminate|]. intros Hl.
      assert (Hs : is_Some (Some l)) by eauto. apply Hi in Hs. lia.
    + split; [intros _|reflexivity].
      destruct (Z.le_gt_cases (-15) (World.level w)) as [Hlo|Hlo]; [|lia].
      destruct (Z.le_gt_cases (World.level w) 16) as [Hhi|Hhi]; [|lia].
      assert (Hs : is_Some (@None (list (EnemyKind * Z)))) by (apply Hi; lia).
      destruct Hs as [? [=]].
  - destruct (py_getitem WAVE_ENEMY_DATA (World.level w - 1)); cbn;
      [congruence|reflexivity].
  - intros ->. reflexivity.
Qed.

Lemma add_kind_roster w r k n :
  shuffle_permutes ->
  World.enemy_list (World.add_kind (w, r) (k, n)).1
  ≡ₚ World.enemy_list w ++ replicate (Z.to_nat n) k.
Proof.
  intros Hperm. unfold World.add_kind.
  pose proof (Hperm _ r (World.enemy_list w ++ replicate (Z.to_nat n) k))
    as Hp.
  destruct (shuffle r _) as [l' r']. exact Hp.
Qed.

Lemma foldl_add_kind_roster row w r :
  shuffle_permutes ->
  World.enemy_list (foldl World.add_kind (w, r) row).1
  ≡ₚ World.enemy_list w ++ expand row.
Proof.
  intros Hperm. revert w r.
  induction row as [|[k n] row IH]; intros w r.
  - unfold expand. cbn. now rewrite app_nil_r.
  - cbn [foldl].
    destruct (World.add_kind (w, r) (k, n)) as [w1 r1] eqn:Ha.
    rewrite IH.
    pose proof (add_kind_roster w r k n Hperm) as Hk. rewrite Ha in Hk.
    cbn [fst] in Hk. rewrite Hk. unfold expand. cbn.
    now rewrite <- app_assoc.
Qed.

Lemma process_enemies_extends w r row :
  shuffle_permutes ->
  py_getitem WAVE_ENEMY_DATA (World.level w - 1) = Some row ->
  exists w' r',
    World.process_enemies (w, r) = Ok (w', r') /\
    length (World.enemy_list w')
    = (length (World.enemy_list w) + length (expand row))%nat /\
    same_account w w'.
Proof.
  intros Hperm Hrow. unfold World.process_enemies. cbn [fst]. rewrite Hrow.
  destruct (foldl World.add_kind (w, r) row) as [w' r'] eqn:Hf.
  exists w', r'. split; [reflexivity|].
  pose proof (foldl_add_kind_roster row w r Hperm) as Hp.
  pose proof (foldl_add_kind_account row w r) as Ha.
  rewrite Hf in Hp, Ha. cbn [fst] in Hp, Ha.
  split; [now rewrite Hp, length_app|exact Ha].
Qed.

(** Whatever order [random.shuffle] produces, [process_enemies] extends the
    roster by exactly the enemies of the wave's row: the new roster is a
    rearrangement of the old one followed by [count] copies of each kind.
    An old roster is not cleared, so a second call without [reset_values]
    in between doubles the wave.  Nothing else in the world changes. *)
Theorem process_enemies_roster (w : World.World) (r : Rng)
    (row : list (EnemyKind * Z)) :
  shuffle_permutes ->
  py_getitem WAVE_ENEMY_DATA (World.level w - 1) = Some row ->
  exists w' r',
    World.process_enemies (w, r) = Ok (w', r') /\
    World.enemy_list w' ≡ₚ World.enemy_list w ++ expand row /\
    length (World.enemy_list w')
    = (length (World.enemy_list w) + length (expand row))%nat /\
    same_account w w' /\
    (forall w2 r2, World.process_enemies (w', r') = Ok (w2, r2) ->
       World.enemy_list w2
       ≡ₚ World.enemy_list w ++ expand row ++ expand row).
Proof.
  intros Hperm Hrow. unfold World.process_enemies. cbn [fst]. rewrite Hrow.
  destruct (foldl World.add_kind (w, r) row) as [w' r'] eqn:Hf.
  exists w', r'. split; [reflexivity|].
  pose proof (foldl_add_kind_roster row w r Hperm) as Hp.
  pose proof (foldl_add_kind_account row w r) as Ha.
  rewrite Hf in Hp, Ha. cbn [fst] in Hp, Ha.
  split; [exact Hp|]. split; [now rewrite Hp, length_app|].
  split; [exact Ha|].
  intros w2 r2. destruct Ha as (Hl & _). rewrite Hl, Hrow.
  intros [= Hf2].
  pose proof (foldl_add_kind_roster row w' r' Hperm) as Hp2.
  rewrite Hf2 in Hp2. cbn [fst] in Hp2.
  now rewrite Hp2, Hp, <- app_assoc.
Qed.

Lemma wave_rows_nonempty :
  Forall (fun row => (0 < length (expand row))%nat) WAVE_ENEMY_DATA.
Proof. repeat constructor; vm_compute; lia. Qed.

(** A wave that has just been built is not complete: after [reset_values]
    and a [process_enemies] that returns, the roster holds at least one
    enemy while nothing has been killed or missed, so [is_wave_completed]
    is false until an enemy is resolved.  (Between the two calls it is
    true: the counters are zero and the roster is empty.) *)
Theorem fresh_wave_not_completed (w : World.World) (r : Rng)
    (w' : World.World) (r' : Rng) :
  shuffle_permutes ->
  World.process_enemies (World.reset_values w, r) = Ok (w', r') ->
  World.is_wave_completed (World.reset_values w) = true /\
  World.is_wave_completed w' = false /\
  World.spawned_enemies w' = 0 /\
  World.level w' = World.level w + 1.
Proof.
  intros Hperm Hok.
  split; [reflexivity|].
  destruct (py_getitem WAVE_ENEMY_DATA (World.level (World.reset_values w) - 1))
    as [row|] eqn:Hrow.
  - destruct (process_enemies_extends (World.reset_values w) r row Hperm Hrow)
      as (w1 & r1 & Hok1 & Hlen & Ha).
    rewrite Hok in Hok1. injection Hok1 as <- <-.
    destruct Ha as (Hlev & _ & _ & Hs & Hk & Hm & _).
    cbn in Hlev, Hs, Hk, Hm, Hlen.
    assert (Hpos : (0 < length (expand row))%nat).
    { pose proof wave_rows_nonempty as Hall.
      rewrite Forall_forall in Hall. apply Hall.
      cbn [World.level World.reset_values] in Hrow.
      unfold py_getitem in Hrow.
      destruct (_ && _) in Hrow.
      - eapply list_elem_of_lookup_2, Hrow.
      - destruct (_ && _) in Hrow; [|discriminate].
        eapply list_elem_of_lookup_2, Hrow. }
    split; [|split; [exact Hs|exact Hlev]].
    unfold World.is_wave_completed. rewrite Hk, Hm, Hlen.
    apply Z.eqb_neq. lia.
  - unfold World.process_enemies in Hok. cbn [fst] in Hok.
    rewrite Hrow in Hok. discriminate.
Qed.

End RosterFacts.

(** ** enemy.py: movement and the slow effect *)

Section EnemyMore.
Context `{Platform}.

Lemma normalize_None (a : Vector2.Vector2) :
  Vector2.normalize a = None <-> (Vector2.length a == 0)%Q.
Proof.
  unfold Vector2.normalize, Qeqb.
  destruct (Qeq_bool (Vector2.length a) 0) eqn:Hq.
  - apply Qeq_bool_iff in Hq. now split.
  - split; [discriminate|]. intros Hz. apply Qeq_bool_iff in Hz. congruence.
Qed.

(** [move] on an enemy with a non-negative path index never raises
    [IndexError]; past the last waypoint it always returns.  On the path it
    raises [ValueError] (from [normalize] on a zero vector) exactly when the
    enemy stands on its target waypoint with a speed that is not positive,
    which is the state a slow amount of 1 or more produces; with a positive
    speed it always returns.  When it raises, nothing has been written. *)
Theorem move_raises_iff (w : World.World) (e : Enemy.Enemy) :
  0 <= Enemy.target_waypoint e ->
  (Z.of_nat (length (Enemy.waypoints e)) <= Enemy.target_waypoint e ->
   raised (Enemy.move (w, e)) = None) /\
  (forall target,
     py_getitem (Enemy.waypoints e) (Enemy.target_waypoint e) = Some target ->
     let dist := Vector2.length (Vector2.sub target (Enemy.pos e)) in
     (raised (Enemy.move (w, e)) = Some ValueError
      <-> (dist == 0)%Q /\ (Enemy.speed e <= 0)%Q) /\
     (raised (Enemy.move (w, e)) = None
      <-> ~ ((dist == 0)%Q /\ (Enemy.speed e <= 0)%Q))) /\
  raised (Enemy.move (w, e)) <> Some IndexError /\
  ((0 < Enemy.speed e)%Q -> raised (Enemy.move (w, e)) = None) /\
  (raised (Enemy.move (w, e)) <> None ->
   final (Enemy.move (w, e)) = (w, e)).
Proof.
  intros Hidx.
  assert (Hpath : forall target,
    py_getitem (Enemy.waypoints e) (Enemy.target_waypoint e) = Some target ->
    let dist := Vector2.length (Vector2.sub target (Enemy.pos e)) in
    (Enemy.target_waypoint e <? Z.of_nat (length (Enemy.waypoints e)))
    = true /\
    ((dist == 0)%Q /\ (Enemy.speed e <= 0)%Q ->
     Enemy.move (w, e) = Raise ValueError (w, e)) /\
    (~ ((dist == 0)%Q /\ (Enemy.speed e <= 0)%Q) ->
     raised (Enemy.move (w, e)) = None)).
  { intros target Ht dist.
    assert (Hlt : (Enemy.target_waypoint e
                   <? Z.of_nat (length (Enemy.waypoints e))) = true).
    { apply Z.ltb_lt.
      assert (Hs : is_Some (py_getitem (Enemy.waypoints e)
                              (Enemy.target_waypoint e))) by eauto.
      apply py_getitem_Some_iff in Hs. lia. }
    split; [exact Hlt|].
    unfold Enemy.move. rewrite Hlt, Ht. fold dist.
    destruct (Vector2.normalize (Vector2.sub target (Enemy.pos e)))
      as [n|] eqn:Hn.
    - assert (Hnz : ~ (dist == 0)%Q).
      { intros Hz. apply normalize_None in Hz. congruence. }
      split; [intros [Hz _]; contradiction|]. intros _.
      repeat case_match; reflexivity.
    - apply normalize_None in Hn. fold dist in Hn.
      assert (Hqz : Qeqb dist 0 = true) by now apply Qeq_bool_iff.
      rewrite Hqz. cbn [negb].
      split.
      + intros [_ Hs]. unfold Qleb.
        assert (Hle : (Enemy.speed e <= dist)%Q) by now rewrite Hn.
        apply Qle_bool_iff in Hle. now rewrite Hle.
      + intros Hnot. unfold Qleb.
        destruct (Qle_bool (Enemy.speed e) dist) eqn:Hle; [|reflexivity].
        exfalso. apply Hnot. split; [exact Hn|].
        apply Qle_bool_iff in Hle. now rewrite Hn in Hle. }
  assert (Hoff : Z.of_nat (length (Enemy.waypoints e))
                 <= Enemy.target_waypoint e ->
                 raised (Enemy.move (w, e)) = None).
  { intros Hge. unfold Enemy.move. apply Z.ltb_ge in Hge. now rewrite Hge. }
  assert (Hcases : Z.of_nat (length (Enemy.waypoints e))
                   <= Enemy.target_waypoint e \/
                   exists target,
                     py_getitem (Enemy.waypoints e) (Enemy.target_waypoint e)
                     = Some target).
  { destruct (Z.le_gt_cases (Z.of_nat (length (Enemy.waypoints e)))
                (Enemy.target_waypoint e)) as [Hge|Hlt]; [now left|right].
    apply py_getitem_Some_iff. lia. }
  split; [exact Hoff|]. split; [|split; [|split]].
  - intros target Ht dist. destruct (Hpath target Ht) as (_ & Hr & Ho).
    fold dist in Hr, Ho.
    assert (Hdec : ((dist == 0)%Q /\ (Enemy.speed e <= 0)%Q) \/
                   ~ ((dist == 0)%Q /\ (Enemy.speed e <= 0)%Q)).
    { destruct (Qeq_dec dist 0) as [Hz|Hz];
        [destruct (Qlt_le_dec 0 (Enemy.speed e)) as [Hs|Hs]|].
      - right. intros [_ Hle]. now apply Qlt_not_le in Hs.
      - now left.
      - right. now intros [Hz' _]. }
    split; split.
    + intros Hv. destruct Hdec as [Hd|Hd]; [exact Hd|].
      rewrite (Ho Hd) in Hv. discriminate.
    + intros Hd. now rewrite (Hr Hd).
    + intros Hn Hd. rewrite (Hr Hd) in Hn. discriminate.
    + exact Ho.
  - destruct Hcases as [Hge|[target Ht]].
    + rewrite (Hoff Hge). discriminate.
    + destruct (Hpath target Ht) as (_ & Hr & Ho).
      destruct (Qeq_dec (Vector2.length (Vector2.sub target (Enemy.pos e))) 0)
        as [Hz|Hz];
        [destruct (Qlt_le_dec 0 (Enemy.speed e)) as [Hs|Hs]|].
      * rewrite Ho; [discriminate|]. intros [_ Hle].
        now apply Qlt_not_le in Hs.
      * rewrite Hr by now split. cbn. discriminate.
      * rewrite Ho; [discriminate|]. now intros [Hz' _].
  - intros Hs. destruct Hcases as [Hge|[target Ht]]; [now apply Hoff|].
    destruct (Hpath target Ht) as (_ & _ & Ho). apply Ho.
    intros [_ Hle]. now apply Qlt_not_le in Hs.
  - intros Hr. destruct Hcases as [Hge|[target Ht]];
      [now rewrite (Hoff Hge) in Hr|].
    destruct (Hpath target Ht) as (_ & Hrz & Ho).
    destruct (Qeq_dec (Vector2.length (Vector2.sub target (Enemy.pos e))) 0)
      as [Hz|Hz];
      [destruct (Qlt_le_dec 0 (Enemy.speed e)) as [Hs|Hs]|].
    + exfalso. apply Hr, Ho. intros [_ Hle]. now apply Qlt_not_le in Hs.
    + now rewrite Hrz.
    + exfalso. apply Hr, Ho. now intros [Hz' _].
Qed.

(** One [update] of an enemy never changes its own health, maximal health,
    original speed, damage, kind or path; the path index stays or grows by
    one; an enemy that has been killed stays killed.  In the world it leaves
    the level, the roster and the spawn counter alone, the player's health
    stays or drops by the enemy's damage, and the two counters grow by at
    most one each. *)
Theorem enemy_update_frame (now : Z) (w : World.World) (e : Enemy.Enemy) :
  let st := final (Enemy.update now (w, e)) in
  Enemy.health st.2 = Enemy.health e /\
  Enemy.max_health st.2 = Enemy.max_health e /\
  Enemy.original_speed st.2 = Enemy.original_speed e /\
  Enemy.damage_inflicted st.2 = Enemy.damage_inflicted e /\
  Enemy.enemy_type st.2 = Enemy.enemy_type e /\
  Enemy.waypoints st.2 = Enemy.waypoints e /\
  (Enemy.target_waypoint st.2 = Enemy.target_waypoint e \/
   Enemy.target_waypoint st.2 = Enemy.target_waypoint e + 1) /\
  (Enemy.alive e = false -> Enemy.alive st.2 = false) /\
  World.level st.1 = World.level w /\
  World.enemy_list st.1 = World.enemy_list w /\
  World.spawned_enemies st.1 = World.spawned_enemies w /\
  (World.health st.1 = World.health w \/
   World.health st.1 = World.health w - Enemy.damage_inflicted e) /\
  (World.missed_enemies st.1 = World.missed_enemies w \/
   World.missed_enemies st.1 = World.missed_enemies w + 1) /\
  (World.killed_enemies st.1 = World.killed_enemies w \/
   World.killed_enemies st.1 = World.killed_enemies w + 1).
Proof.
  unfold Enemy.update, Enemy.move, Enemy.check_if_alive, Enemy.rotate,
    Enemy.update_slow_effect.
  repeat (case_match; cbn); repeat split; auto.
Qed.

(** The slow effect does not stack and cannot be refreshed: a second
    [apply_slow], whatever its amount, duration and time, leaves the first
    one as it is.  It ends by itself: on an enemy that moved at its original
    speed, [update_slow_effect] keeps the slow up to and including the
    expiry time, and after it gives back the enemy as it was before the slow
    but for the stale timer. *)
Theorem slow_no_stacking_round_trip (now1 now2 later : Z) (a1 a2 : Q)
    (d1 d2 : Z) (e : Enemy.Enemy) :
  Enemy.apply_slow now2 a2 d2 (Enemy.apply_slow now1 a1 d1 e)
  = Enemy.apply_slow now1 a1 d1 e /\
  (Enemy.is_slowed e = false ->
   Enemy.speed e = Enemy.original_speed e ->
   (later <= now1 + d1 ->
    Enemy.update_slow_effect later (Enemy.apply_slow now1 a1 d1 e)
    = Enemy.apply_slow now1 a1 d1 e) /\
   (now1 + d1 < later ->
    Enemy.update_slow_effect later (Enemy.apply_slow now1 a1 d1 e)
    = Enemy.set_slow false (Enemy.speed e) (now1 + d1) e)).
Proof.
  split.
  - unfold Enemy.apply_slow. destruct (Enemy.is_slowed e) eqn:Hs; cbn.
    + now rewrite Hs.
    + reflexivity.
  - intros Hs Hv. unfold Enemy.apply_slow, Enemy.update_slow_effect.
    rewrite Hs. cbn. split; intros Ht.
    + apply Z.ltb_ge in Ht. now rewrite Ht.
    + apply Z.ltb_lt in Ht. rewrite Ht. now rewrite Hv.
Qed.

(** An enemy that is not slowed moves at its original speed: [__init__]
    creates it so, and neither its own [update] nor the hit of a turret ever
    breaks it. *)
Theorem speed_never_drifts :
  (forall k path d e, Enemy.init k path d = Some e -> speed_consistent e) /\
  (forall now w e,
     speed_consistent e ->
     speed_consistent (final (Enemy.update now (w, e))).2) /\
  (forall now t e, speed_consistent e -> speed_consistent (Turret.hit now t e)).
Proof.
  split; [|split].
  - intros k path d e. unfold Enemy.init.
    destruct (py_getitem path 0); [|discriminate].
    destruct (Enemy.multipliers d). intros [= <-]. now intros _.
  - intros now w e. unfold speed_consistent, Enemy.update, Enemy.move,
      Enemy.check_if_alive, Enemy.rotate, Enemy.update_slow_effect.
    repeat (case_match; cbn); auto; try discriminate.
  - intros now t e. unfold speed_consistent, Turret.hit, Enemy.apply_slow.
    repeat (case_match; cbn); auto; try discriminate.
Qed.

End EnemyMore.

(** ** turret.py: levels, the tidal upgrade and the firing cycle *)

Section TurretMore.
Context `{Platform}.

Lemma init_returns now k tx ty px py :
  exists t, Turret.init now k tx ty px py = Some t.
Proof. destruct k; cbn; eauto. Qed.

(** A turret is created at level 1 with the stats of the table, and
    [upgrade] keeps it on the table: below the last level of its kind it
    returns with the level raised by exactly one and base and current stats
    (and, for purple, the slow parameters) reloaded from the entry of the new
    level; at the last level it changes nothing.  It never raises on such a
    turret, and the level never leaves 1..4. *)
Theorem upgrade_stays_on_table :
  (forall now k tx ty px py t,
     Turret.init now k tx ty px py = Some t ->
     turret_wf t /\ unboosted t /\ Turret.turret_level t = 1) /\
  (forall t,
     turret_wf t ->
     exists t',
       Turret.upgrade t = Ok t' /\ turret_wf t' /\
       1 <= Turret.turret_level t' <= 4 /\
       Turret.turret_type t' = Turret.turret_type t /\
       Turret.tidal_used t' = Turret.tidal_used t /\
       (Turret.turret_level t
        < Z.of_nat (length (TURRET_DATA (Turret.turret_type t))) ->
        Turret.turret_level t' = Turret.turret_level t + 1 /\
        Turret.range t' = Turret.base_range t' /\
        Turret.cooldown t' = Turret.base_cooldown t' /\
        Turret.damage t' = Turret.base_damage t') /\
       (Turret.turret_level t
        = Z.of_nat (length (TURRET_DATA (Turret.turret_type t))) ->
        t' = t)).
Proof.
  split.
  - intros now k tx ty px py t Hinit.
    destruct k; cbn in Hinit; injection Hinit as <-;
      (split; [|split; [repeat split|reflexivity]]);
      (split; [cbn; lia|split; [reflexivity|]]);
      eexists; (split; [reflexivity|]); repeat split.
  - intros t (Hlev & Hframe & d & Hd & Hstats).
    assert (Hlen : Z.of_nat (length (TURRET_DATA (Turret.turret_type t))) = 4)
      by now destruct (Turret.turret_type t).
    unfold Turret.upgrade.
    destruct (Z.ltb_spec (Turret.turret_level t)
                (Z.of_nat (length (TURRET_DATA (Turret.turret_type t)))))
      as [Hlt|Hge].
    + cbn [Turret.turret_type Turret.turret_level Turret.set_turret_level].
      assert (Hs : is_Some (py_getitem (TURRET_DATA (Turret.turret_type t))
                              (Turret.turret_level t + 1 - 1))).
      { apply py_getitem_Some_iff. lia. }
      destruct Hs as [d' Hd']. rewrite Hd'.
      cbn [Turret.turret_type Turret.load_stats Turret.set_turret_level].
      match goal with
      | |- context [Turret.frame_ok ?t0] =>
          change (Turret.frame_ok t0) with (Turret.frame_ok t)
      end.
      rewrite Hframe. eexists. split; [reflexivity|].
      split; [|split; [cbn; lia|repeat split; cbn; lia]].
      split; [cbn; lia|]. split; [exact Hframe|].
      exists d'. cbn. repeat split. exact Hd'.
    + exists t. split; [reflexivity|].
      split; [split; [exact Hlev|split; [exact Hframe|]]; now exists d|].
      split; [lia|]. repeat split; lia.
Qed.

Lemma py_int_scale_ge (base : Z) (m : Q) :
  0 <= base -> (1 <= m)%Q -> base <= py_int (inject_Z base * m).
Proof.
  intros Hb Hm. unfold py_int.
  destruct m as [n d]. unfold Qle in Hm. cbn in Hm |- *.
  rewrite Z.quot_div_nonneg by nia.
  apply Z.div_le_lower_bound; nia.
Qed.

(** The tidal upgrade is taken at most once in a row: a second
    [tidally_upgrade] changes nothing, whenever it is called.  With a
    multiplier of at least 1 it never lowers range or damage.  On a turret
    without upgrade, [reset_tidal_upgrade] after [tidally_upgrade] gives
    back the turret it was, except that [tidal_used] stays set. *)
Theorem tidal_upgrade_round_trip (now1 now2 : Z) (t : Turret.Turret) :
  Turret.tidally_upgrade now2 (Turret.tidally_upgrade now1 t)
  = Turret.tidally_upgrade now1 t /\
  (unboosted t -> 0 <= Turret.base_range t -> 0 <= Turret.base_damage t ->
   (1 <= Turret.TIDAL_MULTIPLIER t)%Q ->
   Turret.range t <= Turret.range (Turret.tidally_upgrade now1 t) /\
   Turret.damage t <= Turret.damage (Turret.tidally_upgrade now1 t)) /\
  (unboosted t -> Turret.tidal_used t = false ->
   Turret.reset_tidal_upgrade (Turret.tidally_upgrade now1 t)
   = Turret.set_tidal (Turret.range t) (Turret.cooldown t) (Turret.damage t)
       false true 0 t /\
   Turret.tidally_upgrade now2
     (Turret.reset_tidal_upgrade (Turret.tidally_upgrade now1 t))
   = Turret.reset_tidal_upgrade (Turret.tidally_upgrade now1 t)).
Proof.
  split; [|split].
  - unfold Turret.tidally_upgrade.
    destruct (Turret.tidal_used t) eqn:Hu; cbn; [now rewrite Hu|].
    destruct (Turret.tidal_active t) eqn:Ha; cbn; [now rewrite Hu, Ha|].
    reflexivity.
  - intros (Ha & _ & Hr & _ & Hd) Hbr Hbd Hm.
    unfold Turret.tidally_upgrade. rewrite Ha.
    destruct (Turret.tidal_used t); cbn; [lia|].
    rewrite Hr, Hd. split; now apply py_int_scale_ge.
  - intros (Ha & He & Hr & Hc & Hd) Hu.
    unfold Turret.tidally_upgrade. rewrite Ha, Hu. cbn.
    unfold Turret.reset_tidal_upgrade, Turret.set_tidal. cbn.
    rewrite <- Hr, <- Hc, <- Hd. split; reflexivity.
Qed.

Lemma last_cons_default (a : Z) (l : list Z) (d1 d2 : Z) :
  List.last (a :: l) d1 = List.last (a :: l) d2.
Proof.
  revert a. induction l as [|b l IH]; intros a; [reflexivity|].
  cbn in *. apply IH.
Qed.

Lemma animate_firing times : forall t k i,
  0 < Turret.animation_steps t ->
  Turret.frame_index t = k -> 0 <= k ->
  Turret.target t = Some i ->
  spaced (Turret.update_time t) times ->
  k + Z.of_nat (length times) < Turret.animation_steps t ->
  exists t',
    animate times t = Ok t' /\
    Turret.frame_index t' = k + Z.of_nat (length times) /\
    Turret.target t' = Some i /\
    Turret.last_shot t' = Turret.last_shot t /\
    Turret.animation_steps t' = Turret.animation_steps t /\
    (times <> [] -> Turret.update_time t' = List.last times 0).
Proof.
  induction times as [|now times IH]; intros t k i Hsteps Hk Hk0 Htg Hsp Hlen.
  - exists t. cbn. repeat split; auto; [lia|congruence].
  - cbn [animate length spaced] in *. destruct Hsp as [Hgap Hsp].
    unfold Turret.play_animation at 1.
    assert (Hok : Turret.frame_ok t = true).
    { unfold Turret.frame_ok. rewrite Z2Nat.id by lia.
      apply andb_true_intro. split; [apply Z.leb_le|apply Z.ltb_lt]; lia. }
    rewrite Hok. cbn [negb].
    apply Z.ltb_lt in Hgap. rewrite Hgap.
    rewrite Z2Nat.id by lia.
    replace (Turret.frame_index t <? Turret.animation_steps t - 1) with true
      by (symmetry; apply Z.ltb_lt; lia).
    cbn [obind].
    match goal with |- context [animate times ?t1] => set (t1' := t1) end.
    destruct (IH t1' (k + 1) i) as (t' & Ha & Hf & Ht & Hl & Hs & Hu).
    + exact Hsteps.
    + subst t1'. cbn. lia.
    + lia.
    + subst t1'. cbn. exact Htg.
    + subst t1'. cbn. exact Hsp.
    + subst t1'. cbn [Turret.animation_steps Turret.set_firing]. lia.
    + exists t'. rewrite Ha. split; [reflexivity|].
      split; [lia|]. split; [exact Ht|]. split; [exact Hl|].
      split; [exact Hs|]. intros _.
      destruct times as [|now' times'].
      * cbn in Ha. injection Ha as <-. reflexivity.
      * rewrite Hu by discriminate. reflexivity.
Qed.

(** The firing cycle.  From the acquisition (frame 0, a target), calls of
    [play_animation] more than [ANIMATION_DELAY] apart advance the frame by
    one each; the turret keeps its target through the first
    [animation_steps - 1] of them and [last_shot] is untouched.  The
    [animation_steps]-th such call ends the cycle: the target is dropped,
    the frame is 0 again and [last_shot] is the time of that call, so the
    cooldown counts from the end of the animation.  A call that comes
    [ANIMATION_DELAY] or less after the previous frame change does
    nothing. *)
Theorem firing_cycle (t : Turret.Turret) (i : nat) (times : list Z)
    (finish : Z) :
  0 < Turret.animation_steps t ->
  Turret.frame_index t = 0 ->
  Turret.target t = Some i ->
  spaced (Turret.update_time t) (times ++ [finish]) ->
  (forall early, early - Turret.update_time t <= Turret.ANIMATION_DELAY ->
     Turret.play_animation early t = Ok t) /\
  (Z.of_nat (length times) < Turret.animation_steps t ->
   exists t',
     animate times t = Ok t' /\
     Turret.frame_index t' = Z.of_nat (length times) /\
     Turret.target t' = Some i /\
     Turret.last_shot t' = Turret.last_shot t) /\
  (Z.of_nat (length times) = Turret.animation_steps t - 1 ->
   exists t',
     animate (times ++ [finish]) t = Ok t' /\
     Turret.frame_index t' = 0 /\
     Turret.target t' = None /\
     Turret.last_shot t' = finish /\
     Turret.update_time t' = finish).
Proof.
  intros Hsteps Hf Htg Hsp.
  assert (Hok0 : Turret.frame_ok t = true).
  { unfold Turret.frame_ok. rewrite Z2Nat.id by lia.
    apply andb_true_intro. split; [apply Z.leb_le|apply Z.ltb_lt]; lia. }
  assert (Hsp' : spaced (Turret.update_time t) times /\
                 Turret.ANIMATION_DELAY
                 < finish - List.last times (Turret.update_time t)).
  { clear -Hsp. revert Hsp. generalize (Turret.update_time t).
    induction times as [|now times IH]; intros prev; cbn.
    - intros [Hg _]. now split.
    - intros [Hg Hrest]. destruct (IH now Hrest) as [Hs Hl].
      split; [now split|].
      destruct times as [|b times']; [exact Hl|].
      change (List.last (now :: b :: times') prev)
        with (List.last (b :: times') prev).
      now rewrite (last_cons_default b times' prev now). }
  destruct Hsp' as [Hsp1 Hlast].
  split; [|split].
  - intros early Hearly. unfold Turret.play_animation. rewrite Hok0.
    cbn [negb].
    replace (Turret.ANIMATION_DELAY <? early - Turret.update_time t)
      with false by (symmetry; apply Z.ltb_ge; lia).
    reflexivity.
  - intros Hlen.
    destruct (animate_firing times t 0 i Hsteps Hf ltac:(lia) Htg Hsp1
                ltac:(lia)) as (t' & Ha & Hfi & Ht & Hl & _).
    exists t'. repeat split; auto.
  - intros Hlen.
    destruct (animate_firing times t 0 i Hsteps Hf ltac:(lia) Htg Hsp1
                ltac:(lia)) as (t' & Ha & Hfi & Ht & Hl & Hs & Hu).
    assert (Happ : forall ts1 ts2 t0,
              animate (ts1 ++ ts2) t0 = animate ts1 t0 >>> animate ts2).
    { induction ts1 as [|a ts1 IH]; intros ts2 t0; cbn; [reflexivity|].
      destruct (Turret.play_animation a t0); cbn; [apply IH|reflexivity]. }
    rewrite Happ, Ha. cbn [obind animate].
    unfold Turret.play_animation.
    assert (Hok : Turret.frame_ok t' = true).
    { unfold Turret.frame_ok. rewrite Hs, Z2Nat.id by lia.
      apply andb_true_intro. split; [apply Z.leb_le|apply Z.ltb_lt]; lia. }
    rewrite Hok. cbn [negb].
    assert (Hut : Turret.update_time t'
                  = List.last times (Turret.update_time t)).
    { destruct times as [|a times']; [cbn in Ha; now injection Ha as <-|].
      rewrite Hu by discriminate. apply last_cons_default. }
    rewrite Hut. apply Z.ltb_lt in Hlast. rewrite Hlast.
    rewrite Hs, Z2Nat.id by lia.
    replace (Turret.frame_index t' <? Turret.animation_steps t - 1)
      with false by (symmetry; apply Z.ltb_ge; lia).
    cbn. eexists. split; [reflexivity|]. repeat split.
Qed.

Lemma select_target_from_cases now t i es :
  (Forall (fun e => Turret.in_reach t e = false) es /\
   Turret.select_target_from now t i es = (t, es)) \/
  exists pre e post,
    es = pre ++ e :: post /\
    Forall (fun p => Turret.in_reach t p = false) pre /\
    Turret.in_reach t e = true /\
    Turret.select_target_from now t i es
    = (Turret.set_target (Some (i + length pre)%nat) t,
       pre ++ Turret.hit now t e :: post).
Proof.
  revert i. induction es as [|e es IH]; intros i.
  - left. split; [constructor|reflexivity].
  - destruct (Turret.in_reach t e) eqn:He.
    + right. exists [], e, es. cbn. rewrite He, Nat.add_0_r.
      repeat split. constructor.
    + destruct (IH (S i)) as [[Hall Hs]|(pre & e' & post & -> & Hpre & He' & Hs)].
      * left. split; [now constructor|]. cbn. now rewrite He, Hs.
      * right. exists (e :: pre), e', post. cbn. rewrite He, Hs.
        repeat split; [now constructor|exact He'|].
        do 3 f_equal. lia.
Qed.

(** One [update] of a turret touches at most one enemy, and only by [hit]:
    the group keeps its length and order, every enemy but possibly one is
    unchanged, and no enemy gains health when the damage is not negative.
    A turret that has a target, or whose cooldown has not elapsed, touches
    no enemy at all. *)
Theorem turret_update_enemies (now : Z) (t : Turret.Turret)
    (es : list Enemy.Enemy) :
  let t0 := Turret.expire_tidal now t in
  let st := final (Turret.update now (t, es)) in
  (st.2 = es \/
   exists pre e post,
     es = pre ++ e :: post /\ st.2 = pre ++ Turret.hit now t0 e :: post /\
     Turret.in_reach t0 e = true /\
     Forall (fun p => Turret.in_reach t0 p = false) pre) /\
  length st.2 = length es /\
  (0 <= Turret.damage t0 ->
   Forall2 (fun e e' => (Enemy.health e' <= Enemy.health e)%Q) es st.2) /\
  (Turret.target t <> None -> st.2 = es) /\
  (now - Turret.last_shot t <= Turret.cooldown t0 -> st.2 = es).
Proof.
  intros t0 st.
  assert (Htg : Turret.target t0 = Turret.target t).
  { subst t0. unfold Turret.expire_tidal. now case_match. }
  assert (Hls : Turret.last_shot t0 = Turret.last_shot t).
  { subst t0. unfold Turret.expire_tidal. now case_match. }
  assert (Hcases : st.2 = es \/
    (Turret.target t = None /\
     Turret.cooldown t0 < now - Turret.last_shot t /\
     exists pre e post,
       es = pre ++ e :: post /\ st.2 = pre ++ Turret.hit now t0 e :: post /\
       Turret.in_reach t0 e = true /\
       Forall (fun p => Turret.in_reach t0 p = false) pre)).
  { subst st. unfold Turret.update. fold t0. rewrite Htg, Hls.
    destruct (Turret.target t).
    - left. now destruct (Turret.play_animation now t0).
    - destruct (Z.ltb_spec (Turret.cooldown t0) (now - Turret.last_shot t));
        [|now left].
      unfold Turret.select_target.
      destruct (select_target_from_cases now t0 0 es)
        as [[_ ->]|(pre & e & post & -> & Hpre & He & ->)]; [now left|].
      right. split; [reflexivity|]. split; [assumption|].
      exists pre, e, post. now repeat split. }
  split; [|split; [|split; [|split]]].
  - destruct Hcases as [Hs|(_ & _ & Hex)]; [now left|now right].
  - destruct Hcases as [->|(_ & _ & pre & e & post & -> & -> & _)];
      [reflexivity|]. now rewrite !length_app.
  - intros Hd.
    assert (Hrefl : forall l : list Enemy.Enemy,
              Forall2 (fun e e' => (Enemy.health e' <= Enemy.health e)%Q) l l).
    { induction l; constructor; [apply Qle_refl|assumption]. }
    destruct Hcases as [->|(_ & _ & pre & e & post & -> & -> & _)];
      [apply Hrefl|].
    apply Forall2_app; [apply Hrefl|]. constructor; [|apply Hrefl].
    rewrite hit_health.
    assert (Hq : (0 <= inject_Z (Turret.damage t0))%Q).
    { unfold Qle. cbn. lia. }
    lra.
  - intros Hne. destruct Hcases as [Hs|(Hn & _)]; [exact Hs|contradiction].
  - intros Hcd. destruct Hcases as [Hs|(_ & Hlt & _)]; [exact Hs|lia].
Qed.

End TurretMore.

(** ** button.py and [map_mouse_cursor] *)

Section InputFacts.

Lemma draws_held_clicked inputs self :
  Button.single_click self = true -> Button.clicked self = true ->
  Forall (fun i => i.2 = true) inputs ->
  (Button.draws inputs self).2 = replicate (length inputs) false /\
  Button.clicked (Button.draws inputs self).1 = true.
Proof.
  intros Hsc Hc Hall. revert self Hsc Hc.
  induction Hall as [|[hover pressed] inputs Hp _ IH]; intros self Hsc Hc;
    [now split|].
  cbn in Hp. subst pressed. cbn [Button.draws].
  unfold Button.draw. rewrite Hc. cbn [negb andb].
  destruct hover; cbn [negb];
    specialize (IH self Hsc Hc);
    destruct (Button.draws inputs self) as [self' actions];
    cbn in IH |- *; destruct IH as [-> ->]; now split.
Qed.

Lemma no_action_in_replicate n :
  filter (fun a => a = true) (replicate n false) = [].
Proof.
  induction n as [|n IH]; [reflexivity|].
  cbn [replicate]. rewrite filter_cons, decide_False by discriminate.
  exact IH.
Qed.

(** A button with [single_click] answers one press with at most one action:
    as long as the mouse button stays down, [draw] returns [True] at most
    once, however long the cursor rests on the button, and not at all if the
    button had already fired.  A frame with the mouse button up always
    re-arms it, and the next press over the button fires again.  A press
    that began elsewhere fires as soon as the cursor reaches the button. *)
Theorem single_click_fires_once (inputs : list (bool * bool))
    (self : Button.Button) :
  Button.single_click self = true ->
  Forall (fun i => i.2 = true) inputs ->
  (length (filter (fun a => a = true) (Button.draws inputs self).2) <= 1)%nat /\
  (Button.clicked self = true ->
   (Button.draws inputs self).2 = replicate (length inputs) false) /\
  (forall hover,
     Button.clicked (Button.draw hover false self).1 = false /\
     (Button.draw hover false self).2 = false /\
     Button.draw true true (Button.draw hover false self).1
     = (Button.set_clicked true self, true)) /\
  (Button.clicked self = false ->
   forall away,
     (Button.draws (replicate away (false, true) ++ [(true, true)]) self).2
     = replicate away false ++ [true]).
Proof.
  intros Hsc Hall. split; [|split; [|split]].
  - revert self Hsc.
    induction Hall as [|[hover pressed] inputs Hp Hrest IH]; intros self Hsc;
      [cbn; lia|].
    cbn in Hp. subst pressed. cbn [Button.draws].
    destruct (Button.clicked self) eqn:Hc.
    + destruct (draws_held_clicked ((hover, true) :: inputs) self Hsc Hc)
        as [Ha _]; [now constructor|].
      cbn [Button.draws] in Ha. rewrite Ha, no_action_in_replicate.
      cbn. lia.
    + unfold Button.draw. rewrite Hc, Hsc. cbn [negb andb].
      destruct hover; cbn [negb].
      * destruct (draws_held_clicked inputs (Button.set_clicked true self)
                    Hsc eq_refl Hrest) as [Ha _].
        destruct (Button.draws inputs (Button.set_clicked true self))
          as [self' actions]. cbn in Ha |- *. subst actions.
        rewrite decide_True by reflexivity.
        rewrite no_action_in_replicate. cbn. lia.
      * specialize (IH self Hsc).
        destruct (Button.draws inputs self) as [self' actions].
        cbn in IH |- *. rewrite decide_False by discriminate. exact IH.
  - intros Hc. now apply draws_held_clicked.
  - intros hover. unfold Button.draw. destruct hover; cbn; rewrite ?Hsc;
      repeat split; destruct self; cbn in *; subst; reflexivity.
  - intros Hc away. induction away as [|away IH].
    + cbn. unfold Button.draw. now rewrite Hc, Hsc.
    + cbn [replicate app Button.draws]. unfold Button.draw at 1.
      cbn [negb].
      destruct (Button.draws (replicate away (false, true) ++ [(true, true)])
                  self) as [self' actions].
      cbn in IH |- *. now rewrite IH.
Qed.

(** [map_mouse_cursor] returns for every window with a width and a height,
    maps the origin to the origin and every position inside the window to
    a position inside the internal surface, and is the identity when window
    and surface have the same size.  A window of width or height 0 is the
    [ZeroDivisionError]. *)
Theorem map_mouse_cursor_inside (display screen : Z * Z) (pos : Q * Q) :
  0 < display.1 -> 0 < display.2 -> 0 < screen.1 -> 0 < screen.2 ->
  exists mapped,
    map_mouse_cursor display screen pos = Some mapped /\
    ((0 <= pos.1)%Q -> (pos.1 < inject_Z display.1)%Q ->
     (0 <= mapped.1)%Q /\ (mapped.1 < inject_Z screen.1)%Q) /\
    ((0 <= pos.2)%Q -> (pos.2 < inject_Z display.2)%Q ->
     (0 <= mapped.2)%Q /\ (mapped.2 < inject_Z screen.2)%Q) /\
    (display = screen -> (mapped.1 == pos.1)%Q /\ (mapped.2 == pos.2)%Q) /\
    map_mouse_cursor (0, display.2) screen pos = None /\
    map_mouse_cursor (display.1, 0) screen pos = None.
Proof.
  intros Hdw Hdh Hsw Hsh. unfold map_mouse_cursor.
  replace (display.1 =? 0) with false by (symmetry; apply Z.eqb_neq; lia).
  replace (display.2 =? 0) with false by (symmetry; apply Z.eqb_neq; lia).
  eexists. split; [reflexivity|]. cbn [fst snd].
  assert (Hq : forall (d s : Z) (p : Q), 0 < d -> 0 < s ->
            (0 <= p)%Q -> (p < inject_Z d)%Q ->
            (0 <= p * (inject_Z s / inject_Z d))%Q /\
            (p * (inject_Z s / inject_Z d) < inject_Z s)%Q).
  { intros d s p Hd Hs Hp0 Hpd.
    assert (Hdq : (0 < inject_Z d)%Q) by (unfold Qlt; cbn; lia).
    assert (Hsq : (0 < inject_Z s)%Q) by (unfold Qlt; cbn; lia).
    assert (Hk : (0 < inject_Z s / inject_Z d)%Q).
    { apply Qlt_shift_div_l; [exact Hdq|]. now rewrite Qmult_0_l. }
    split.
    - apply Qmult_le_0_compat; [exact Hp0|now apply Qlt_le_weak].
    - assert (Heq : (inject_Z d * (inject_Z s / inject_Z d) == inject_Z s)%Q).
      { field. intros Hz. rewrite Hz in Hdq. now apply Qlt_irrefl in Hdq. }
      rewrite <- Heq at 2. now apply Qmult_lt_compat_r. }
  split; [intros; now apply Hq|]. split; [intros; now apply Hq|].
  split; [|split; [reflexivity|]].
  - intros <-. split; field.
    + intros Hz. assert (Hd : (0 < inject_Z display.1)%Q)
        by (unfold Qlt; cbn; lia).
      rewrite Hz in Hd. now apply Qlt_irrefl in Hd.
    + intros Hz. assert (Hd : (0 < inject_Z display.2)%Q)
        by (unfold Qlt; cbn; lia).
      rewrite Hz in Hd. now apply Qlt_irrefl in Hd.
  - replace (display.1 =? 0) with false by (symmetry; apply Z.eqb_neq; lia).
    reflexivity.
Qed.

End InputFacts.

(** ** main.py: commands *)

Section CommandFacts.
Context `{Platform}.


(** Selling the selected turret removes exactly that turret from the group,
    clears the selection, frees its tile and refunds three tenths of the
    price of its kind, so that buying and selling always costs money. *)
Theorem sell_refund (now : Z) (b : Buttons) (g : Game.Game) (i : nat)
    (t : Turret.Turret) (w : World.World) :
  Game.the_selected g = Some (i, t) ->
  Game.world g = Some w ->
  sell_button b = true ->
  exists g' refund,
    Game.sell_block now b g = Ok g' /\
    Game.turret_group g' = delete i (Game.turret_group g) /\
    S (length (Game.turret_group g')) = length (Game.turret_group g) /\
    Game.selected_turret g' = None /\
    Game.the_selected g' = None /\
    Game.occupied_tiles g'
      !! (Turret.mouse_tile_y t * c.COLS + Turret.mouse_tile_x t) = None /\
    Game.world g' = Some (World.set_money (World.money w + refund) w) /\
    10 * refund = 3 * c.turret_buy_costs (Turret.turret_type t) /\
    0 < refund < c.turret_buy_costs (Turret.turret_type t).
Proof.
  intros Hsel Hw Hb. unfold Game.sell_block, Game.with_world.
  rewrite Hsel, Hb, Hw.
  eexists _, _. split; [reflexivity|]. cbn.
  assert (Hi : Game.turret_group g !! i = Some t).
  { unfold Game.the_selected in Hsel.
    destruct (Game.selected_turret g) as [j|]; [|discriminate].
    destruct (Game.turret_group g !! j) eqn:Hj; [|discriminate].
    now injection Hsel as <- <-. }
  split; [reflexivity|].
  split.
  { rewrite length_delete by eauto.
    apply lookup_lt_Some in Hi. lia. }
  split; [reflexivity|]. split; [reflexivity|].
  split; [apply lookup_delete_eq|].
  split; [reflexivity|].
  destruct (Turret.turret_type t); vm_compute; repeat split; congruence.
Qed.

Lemma handle_events_game_over now events g :
  Game.state g = game_over ->
  exists running, Game.handle_events now events g = Ok (g, running).
Proof.
  intros Hs. induction events as [|[| |pos hit d] events IH]; cbn; eauto.
  now rewrite Hs.
Qed.

(** Losing is final until restart.  [update] on a game whose health is 0 or
    less ends it as lost without updating any enemy or turret; from then on
    every frame without a click on the restart button, whatever its events
    and other buttons, leaves the whole game state as it is and raises
    nothing. *)
Theorem game_over_frozen (fs : list Game.Frame) (g : Game.Game) :
  Game.state g = game_over ->
  Forall (fun f => restart_button (Game.buttons f) = false) fs ->
  (forall now g0 w,
     Game.state g0 = game -> Game.world g0 = Some w -> World.health w <= 0 ->
     Game.update now g0
     = Ok (Game.set_state game_over (Game.set_game_status (-1) g0))) /\
  final (Game.run fs g) = g /\
  raised (Game.run fs g) = None.
Proof.
  intros Hs Hall. split.
  { intros now g0 w Hg Hw Hh. unfold Game.update, Game.with_world.
    rewrite Hg, Hw. apply Z.leb_le in Hh. now rewrite Hh. }
  induction Hall as [|f fs Hf _ IH]; [now split|].
  cbn [Game.run]. unfold Game.frame.
  destruct (handle_events_game_over (Game.ticks f) (Game.events f) g Hs)
    as [running ->].
  unfold Game.update. rewrite Hs. cbn [obind].
  unfold Game.draw, Game.draw_game_over. rewrite Hs, Hf. cbn.
  destruct running; [exact IH|now split].
Qed.

(** The difficulty button never fails, whatever the stored index: the new
    index is [(index + 1) mod 3], inside the list, the difficulty is the
    entry at that index and nothing else changes.  From a consistent state
    three clicks lead back to the state one started from. *)
Theorem difficulty_cycles (g : Game.Game) :
  let click := Game.click_menu None true in
  (exists d,
     click g
     = Ok (Game.set_difficulty
             ((Game.current_difficulty_index g + 1) `mod` 3) d g) /\
     0 <= (Game.current_difficulty_index g + 1) `mod` 3 < 3 /\
     py_getitem Game.difficulties
       ((Game.current_difficulty_index g + 1) `mod` 3) = Some d) /\
  (0 <= Game.current_difficulty_index g < 3 ->
   py_getitem Game.difficulties (Game.current_difficulty_index g)
   = Some (Game.selected_difficulty g) ->
   click g >>> click >>> click = Ok g).
Proof.
  intros click. subst click. unfold Game.click_menu.
  change (Z.of_nat (length Game.difficulties)) with 3.
  split.
  - pose proof (Z.mod_pos_bound (Game.current_difficulty_index g + 1) 3
                  ltac:(lia)) as Hm.
    assert (Hs : is_Some (py_getitem Game.difficulties
                            ((Game.current_difficulty_index g + 1) `mod` 3))).
    { apply py_getitem_Some_iff. cbn. lia. }
    destruct Hs as [d Hd]. rewrite Hd. exists d. now repeat split.
  - intros Hi Hd. destruct g as [st wd idx sel gs ws les pt selt pm mt ctt ot
                                  wo eg tg rg].
    cbn in Hi, Hd |- *.
    assert (Hidx : idx = 0 \/ idx = 1 \/ idx = 2) by lia.
    destruct Hidx as [-> | [-> | ->]]; cbn in Hd; injection Hd as <-;
      reflexivity.
Qed.

(** Spawn pacing.  During a wave, once more than [SPAWN_COOLDOWN] has passed
    since the last spawn and the roster is not exhausted, [draw_game]'s
    spawn block adds exactly one enemy: the next entry of the roster in
    order, freshly initialised at the first waypoint, appended behind the
    enemies already in the group; it counts the spawn and restarts the
    clock.  Any further call up to [SPAWN_COOLDOWN] later adds nothing. *)
Theorem spawn_paces (now : Z) (b : Buttons) (g : Game.Game)
    (w : World.World) :
  Game.world g = Some w ->
  Game.wave_started g = true ->
  c.SPAWN_COOLDOWN < now - Game.last_enemy_spawn g ->
  0 <= World.spawned_enemies w < Z.of_nat (length (World.enemy_list w)) ->
  World.waypoints w <> [] ->
  exists kind enemy g',
    World.enemy_list w !! Z.to_nat (World.spawned_enemies w) = Some kind /\
    Enemy.init kind (World.waypoints w) (Game.selected_difficulty g)
    = Some enemy /\
    Game.spawn_block now b g = Ok g' /\
    Game.enemy_group g' = Game.enemy_group g ++ [enemy] /\
    Game.world g'
    = Some (World.set_spawned_enemies (World.spawned_enemies w + 1) w) /\
    Game.last_enemy_spawn g' = now /\
    Game.turret_group g' = Game.turret_group g /\
    (forall soon b', soon <= now + c.SPAWN_COOLDOWN ->
       Game.spawn_block soon b' g' = Ok g').
Proof.
  intros Hw Hs Hcd Hsp Hway. unfold Game.spawn_block, Game.with_world.
  rewrite Hs, Hw. apply Z.ltb_lt in Hcd. rewrite Hcd.
  replace (World.spawned_enemies w <? Z.of_nat (length (World.enemy_list w)))
    with true by (symmetry; apply Z.ltb_lt; lia).
  assert (Hk : is_Some (World.enemy_list w
                          !! Z.to_nat (World.spawned_enemies w))).
  { apply lookup_lt_is_Some. lia. }
  destruct Hk as [kind Hk].
  assert (Hg : py_getitem (World.enemy_list w) (World.spawned_enemies w)
               = Some kind).
  { unfold py_getitem.
    replace (0 <=? World.spawned_enemies w) with true
      by (symmetry; apply Z.leb_le; lia).
    replace (World.spawned_enemies w <? Z.of_nat (length (World.enemy_list w)))
      with true by (symmetry; apply Z.ltb_lt; lia).
    exact Hk. }
  rewrite Hg.
  assert (He : is_Some (Enemy.init kind (World.waypoints w)
                          (Game.selected_difficulty g))).
  { unfold Enemy.init. destruct (World.waypoints w) as [|p path];
      [contradiction|].
    cbn. destruct (Enemy.multipliers _). eauto. }
  destruct He as [enemy He]. rewrite He.
  eexists kind, enemy, _. split; [exact Hk|]. split; [exact He|].
  split; [reflexivity|]. cbn.
  repeat (split; [reflexivity|]).
  intros soon b' Hsoon. rewrite Hs.
  replace (c.SPAWN_COOLDOWN <? soon - now) with false
    by (symmetry; apply Z.ltb_ge; lia).
  reflexivity.
Qed.

(** [restart_level] of a game that has loaded a map never raises and hands
    back a fresh session on the same map: state [menu], no result, a world
    at level 1 with the starting health and money and zero counters whose
    tiles and path are those of the map, no enemies, no turrets, no
    occupied tile, no selection.  The chosen difficulty is kept. *)
Theorem restart_level_fresh (now : Z) (g : Game.Game) (data : LevelData) :
  Game.world_data g = Some data ->
  exists g' w',
    Game.restart_level now g = Ok g' /\
    Game.state g' = menu /\ Game.game_status g' = 0 /\
    Game.wave_started g' = false /\ Game.placing_turrets g' = false /\
    Game.selected_turret g' = None /\
    Game.enemy_group g' = [] /\ Game.turret_group g' = [] /\
    Game.occupied_tiles g' = ∅ /\
    Game.selected_difficulty g' = Game.selected_difficulty g /\
    Game.world_data g' = Some data /\
    Game.world g' = Some w' /\
    World.level w' = 1 /\ World.health w' = c.HEALTH /\
    World.money w' = c.MONEY /\
    World.spawned_enemies w' = 0 /\ World.killed_enemies w' = 0 /\
    World.missed_enemies w' = 0 /\
    World.tile_map w' = ld_tile_map data /\
    World.waypoints w' = ld_waypoints data.
Proof.
  intros Hd. unfold Game.restart_level.
  cbn [Game.world_data Game.set_state Game.set_game_status
       Game.set_wave_started Game.set_placing_turrets
       Game.set_selected_turret Game.set_last_enemy_spawn
       Game.set_current_turret_type].
  rewrite Hd.
  unfold Game.process_enemies, Game.with_world.
  cbn [Game.world Game.set_world Game.rng].
  unfold World.process_enemies. cbn [fst World.level World.process_data
                                       World.init].
  change (py_getitem WAVE_ENEMY_DATA (1 - 1)) with (Some (wave 8 0 0 0)).
  cbv iota beta.
  match goal with
  | |- context [foldl World.add_kind (?w0, ?r0) ?row] =>
      pose proof (foldl_add_kind_account row w0 r0) as Ha;
      destruct (foldl World.add_kind (w0, r0) row) as [w' r']
  end.
  cbn [fst] in Ha. destruct Ha as (Hl & Hh & Hm & Hs & Hk & Hmi & Hwp & Htm).
  cbn in Hl, Hh, Hm, Hs, Hk, Hmi, Hwp, Htm.
  eexists _, w'. split; [reflexivity|]. cbn.
  repeat (split; [first [reflexivity | assumption]|]). assumption.
Qed.

End CommandFacts.

(** ** main.py: what a session can and cannot run into *)

Section SessionFacts.
Context `{Platform}.

Lemma safe_obind P k1 k2 :
  safe P k1 -> safe P k2 -> safe P (fun g => k1 g >>> k2).
Proof.
  intros H1 H2 g Hg. specialize (H1 g Hg).
  destruct (k1 g) as [g1|x g1]; cbn; [exact (H2 g1 H1)|exact H1].
Qed.

Lemma enemy_init_ok kind path d e :
  Enemy.init kind path d = Some e -> enemy_ok e.
Proof.
  unfold Enemy.init. destruct (py_getitem path 0); [|discriminate].
  destruct (Enemy.multipliers d) as [hm sm] eqn:Hm. intros [= <-].
  unfold enemy_ok. cbn. split; [lia|].
  destruct kind, d; cbn in Hm; injection Hm as <- <-; cbn; now split.
Qed.

Lemma enemy_update_ok now w e :
  enemy_ok e ->
  exists w' e', Enemy.update now (w, e) = Ok (w', e') /\ enemy_ok e'.
Proof.
  intros (Hidx & Hsp & Hos).
  assert (Hmove : exists w1 e1,
            Enemy.move (w, e) = Ok (w1, e1) /\ enemy_ok e1).
  { unfold Enemy.move.
    destruct (Z.ltb_spec (Enemy.target_waypoint e)
                (Z.of_nat (length (Enemy.waypoints e)))) as [Hlt|Hge].
    - assert (Hs : is_Some (py_getitem (Enemy.waypoints e)
                              (Enemy.target_waypoint e))).
      { apply py_getitem_Some_iff. lia. }
      destruct Hs as [target ->].
      set (dist := Vector2.length (Vector2.sub target (Enemy.pos e))).
      destruct (Vector2.normalize (Vector2.sub target (Enemy.pos e)))
        as [n|] eqn:Hn.
      + repeat case_match; eexists _, _; (split; [reflexivity|]);
          unfold enemy_ok; cbn; repeat split; first [lia | assumption].
      + apply normalize_None in Hn. fold dist in Hn.
        assert (Hle : Qleb (Enemy.speed e) dist = false).
        { unfold Qleb. apply not_true_iff_false. intros Hle.
          apply Qle_bool_iff in Hle. rewrite Hn in Hle.
          now apply Qlt_not_le in Hsp. }
        assert (Hz : Qeqb dist 0 = true) by now apply Qeq_bool_iff.
        rewrite Hle, Hz. cbn [negb].
        eexists _, _. split; [reflexivity|].
        unfold enemy_ok. cbn. repeat split; first [lia | assumption].
    - eexists _, _. split; [reflexivity|].
      unfold enemy_ok. cbn. now repeat split. }
  destruct Hmove as (w1 & e1 & Hm & (Hidx1 & Hsp1 & Hos1)).
  unfold Enemy.update. rewrite Hm. cbn [obind Enemy.rotate].
  unfold Enemy.check_if_alive.
  destruct (Qleb (Enemy.health e1) 0); cbn [obind fst snd];
    eexists _, _; (split; [reflexivity|]);
    unfold Enemy.update_slow_effect; case_match;
    unfold enemy_ok; cbn; repeat split; assumption.
Qed.

Lemma update_enemies_ok now w es :
  Forall enemy_ok es ->
  exists w' es',
    Game.update_enemies now w es = Ok (w', es') /\ Forall enemy_ok es'.
Proof.
  intros Hall. revert w.
  induction Hall as [|e es He _ IH]; intros w; cbn [Game.update_enemies];
    [eauto|].
  destruct (enemy_update_ok now w e He) as (w1 & e1 & -> & He1).
  destruct (IH w1) as (w2 & es2 & -> & Hes2). cbn [omap fst snd].
  eexists _, _. split; [reflexivity|]. now constructor.
Qed.

Lemma table_slow_below_one k d :
  In d (TURRET_DATA k) -> ((Turret.slow_of k d).1 < 1)%Q.
Proof.
  destruct k; cbn; intros Hin;
    repeat (destruct Hin as [<-|Hin]; [reflexivity|]); destruct Hin.
Qed.

Lemma py_getitem_In {A} (l : list A) i x : py_getitem l i = Some x -> In x l.
Proof.
  unfold py_getitem. intros Hg. apply list_elem_of_In.
  repeat case_match; try discriminate; eapply list_elem_of_lookup_2, Hg.
Qed.

Lemma hit_ok now t e : turret_wf t -> enemy_ok e -> enemy_ok (Turret.hit now t e).
Proof.
  intros (_ & _ & d & Hd & _ & _ & _ & Hsa & _) (Hidx & Hsp & Hos).
  pose proof (table_slow_below_one _ _ (py_getitem_In _ _ _ Hd)) as Hlt.
  rewrite <- Hsa in Hlt.
  unfold Turret.hit, Enemy.apply_slow.
  repeat case_match; unfold enemy_ok; cbn; repeat split; try assumption.
  apply Qmult_lt_0_compat; [exact Hos|]. lra.
Qed.

Lemma select_target_from_ok now t i es :
  turret_wf t -> Forall enemy_ok es ->
  turret_wf (Turret.select_target_from now t i es).1 /\
  Forall enemy_ok (Turret.select_target_from now t i es).2.
Proof.
  intros Ht Hall. revert i.
  induction Hall as [|e es He Hes IH]; intros i; cbn; [now split|].
  destruct (Turret.in_reach t e).
  - cbn. split; [exact Ht|]. constructor; [now apply hit_ok|exact Hes].
  - specialize (IH (S i)).
    destruct (Turret.select_target_from now t (S i) es) as [t' es'].
    cbn in IH |- *. destruct IH. split; [assumption|now constructor].
Qed.

Lemma frame_ok_positive t :
  Turret.frame_ok t = true -> 0 < Z.of_nat (Z.to_nat (Turret.animation_steps t)).
Proof.
  unfold Turret.frame_ok. intros Hf. apply andb_prop in Hf as [H1 H2].
  apply Z.leb_le in H1. apply Z.ltb_lt in H2. lia.
Qed.

Lemma turret_update_ok now t es :
  turret_wf t -> Forall enemy_ok es ->
  exists t' es',
    Turret.update now (t, es) = Ok (t', es') /\
    turret_wf t' /\ Forall enemy_ok es'.
Proof.
  intros Ht Hes. unfold Turret.update.
  assert (Ht0 : turret_wf (Turret.expire_tidal now t)).
  { unfold Turret.expire_tidal. case_match; exact Ht. }
  set (t0 := Turret.expire_tidal now t) in *.
  destruct (Turret.target t0).
  - destruct Ht0 as (Hlev & Hframe & Hd).
    pose proof (frame_ok_positive t0 Hframe) as Hpos.
    unfold Turret.play_animation. rewrite Hframe. cbn [negb].
    assert (Hbounds := Hframe). unfold Turret.frame_ok in Hbounds.
    apply andb_prop in Hbounds as [Hb1 Hb2].
    apply Z.leb_le in Hb1. apply Z.ltb_lt in Hb2.
    repeat case_match; cbn; eexists _, _; (split; [reflexivity|]);
      (split; [|exact Hes]); (split; [exact Hlev|]);
      (split; [|exact Hd]);
      unfold Turret.frame_ok; cbn; try exact Hframe;
      apply andb_true_intro; split; [apply Z.leb_le|apply Z.ltb_lt| |];
      first [lia | apply Z.leb_le; lia | apply Z.ltb_lt; lia].
  - case_match.
    + pose proof (select_target_from_ok now t0 0 es Ht0 Hes) as [H1 H2].
      unfold Turret.select_target.
      destruct (Turret.select_target_from now t0 0 es) as [t' es'].
      eexists _, _. split; [reflexivity|]. now split.
    + eexists _, _. split; [reflexivity|]. now split.
Qed.

Lemma update_turrets_ok now ts es :
  Forall turret_wf ts -> Forall enemy_ok es ->
  exists ts' es',
    Game.update_turrets now ts es = Ok (ts', es') /\
    Forall turret_wf ts' /\ Forall enemy_ok es' /\ length ts' = length ts.
Proof.
  intros Hts. revert es.
  induction Hts as [|t ts Ht _ IH]; intros es Hes;
    cbn [Game.update_turrets].
  - eexists _, _. split; [reflexivity|]. now repeat split.
  - destruct (turret_update_ok now t es Ht Hes) as (t1 & es1 & -> & Ht1 & Hes1).
    destruct (IH es1 Hes1) as (ts2 & es2 & -> & Hts2 & Hes2 & Hlen).
    cbn [omap fst snd].
    eexists _, _. split; [reflexivity|].
    split; [now constructor|]. split; [exact Hes2|]. cbn. now rewrite Hlen.
Qed.

Lemma members_ok es : Forall enemy_ok es -> Forall enemy_ok (Game.members es).
Proof.
  intros Hall. unfold Game.members. rewrite Forall_forall in Hall |- *.
  intros e He. apply list_elem_of_filter in He as [_ He]. now apply Hall.
Qed.

(** On a game in order, [update] returns, and the game stays in order. *)
Lemma update_returns now g :
  playing_ok g ->
  exists g', Game.update now g = Ok g' /\ playing_ok g' /\
             (Game.state g' = menu -> Game.state g = menu).
Proof.
  intros Hg. pose proof Hg as ((Hsel & Hts & Hes) & [w Hw] & Hwd).
  unfold Game.update, Game.with_world.
  destruct (Game.state g) eqn:Hst;
    [exists g; split; [reflexivity|split; [exact Hg|congruence]]|
    |exists g; split; [reflexivity|split; [exact Hg|congruence]]].
  rewrite Hw.
  destruct (World.health w <=? 0).
  { eexists. split; [reflexivity|]. split; [exact Hg|discriminate]. }
  destruct (Game.MAX_LEVELS <? World.level w).
  { eexists. split; [reflexivity|]. split; [exact Hg|discriminate]. }
  destruct (update_enemies_ok now w (Game.enemy_group g) Hes)
    as (w1 & es1 & -> & Hes1).
  cbn [omap obind fst snd Game.turret_group Game.enemy_group
       Game.set_enemy_group Game.set_world].
  destruct (update_turrets_ok now (Game.turret_group g) (Game.members es1)
              Hts (members_ok _ Hes1))
    as (ts2 & es2 & -> & Hts2 & Hes2 & Hlen).
  cbn [omap obind fst snd]. eexists. split; [reflexivity|].
  split; [|cbn; congruence].
  split; [|split; [now eexists|exact Hwd]].
  split; [|split; [exact Hts2|exact Hes2]].
  unfold selection_ok in *. cbn.
  destruct (Game.selected_turret g); [lia|exact I].
Qed.

(** A game whose sprites, selection and map are those of a game in order
    is in order. *)
Lemma playing_ok_same g g' :
  Game.turret_group g' = Game.turret_group g ->
  Game.enemy_group g' = Game.enemy_group g ->
  Game.selected_turret g' = Game.selected_turret g ->
  is_Some (Game.world g') ->
  Game.world_data g' = Game.world_data g ->
  playing_ok g -> playing_ok g'.
Proof.
  intros Ht He Hs Hw Hd ((Hsel & Hts & Hes) & _ & Hwd).
  unfold playing_ok, core_ok, selection_ok in *.
  rewrite Ht, He, Hs, Hd. now repeat split.
Qed.

Lemma process_enemies_playing g :
  is_Some (Game.world g) ->
  match Game.process_enemies g with
  | Ok g' =>
      Game.turret_group g' = Game.turret_group g /\
      Game.enemy_group g' = Game.enemy_group g /\
      Game.selected_turret g' = Game.selected_turret g /\
      is_Some (Game.world g') /\
      Game.world_data g' = Game.world_data g /\
      Game.state g' = Game.state g
  | Raise x _ => x = IndexError
  end.
Proof.
  intros [w Hw]. unfold Game.process_enemies, Game.with_world. rewrite Hw.
  unfold World.process_enemies. cbn [fst].
  destruct (py_getitem WAVE_ENEMY_DATA (World.level w - 1)); cbn;
    [|reflexivity].
  repeat split. now eexists.
Qed.

Lemma reset_tidal_wf t : turret_wf t -> turret_wf (Turret.reset_tidal_upgrade t).
Proof. intros Ht. exact Ht. Qed.

Lemma tidally_upgrade_wf now t :
  turret_wf t -> turret_wf (Turret.tidally_upgrade now t).
Proof. intros Ht. unfold Turret.tidally_upgrade. case_match; exact Ht. Qed.

Lemma set_selected_wf v t : turret_wf t -> turret_wf (Turret.set_selected v t).
Proof. intros Ht. exact Ht. Qed.

Lemma init_wf now k tx ty px py t :
  Turret.init now k tx ty px py = Some t -> turret_wf t.
Proof.
  intros Hinit. destruct k; cbn in Hinit; injection Hinit as <-;
    (split; [cbn; lia|split; [reflexivity|]]);
    eexists; (split; [reflexivity|]); repeat split.
Qed.

Lemma upgrade_wf t :
  turret_wf t -> exists t', Turret.upgrade t = Ok t' /\ turret_wf t'.
Proof.
  intros (Hlev & Hframe & d & Hd & Hstats).
  unfold Turret.upgrade.
  destruct (Z.ltb_spec (Turret.turret_level t)
              (Z.of_nat (length (TURRET_DATA (Turret.turret_type t)))))
    as [Hlt|Hge].
  - cbn [Turret.turret_type Turret.turret_level Turret.set_turret_level].
    assert (Hs : is_Some (py_getitem (TURRET_DATA (Turret.turret_type t))
                            (Turret.turret_level t + 1 - 1))).
    { apply py_getitem_Some_iff. lia. }
    destruct Hs as [d' Hd']. rewrite Hd'.
    cbn [Turret.turret_type Turret.load_stats Turret.set_turret_level].
    match goal with
    | |- context [Turret.frame_ok ?t0] =>
        change (Turret.frame_ok t0) with (Turret.frame_ok t)
    end.
    rewrite Hframe. eexists. split; [reflexivity|].
    split; [cbn; lia|]. split; [exact Hframe|].
    exists d'. cbn. repeat split. exact Hd'.
  - exists t. split; [reflexivity|].
    split; [exact Hlev|split; [exact Hframe|]]. now exists d.
Qed.

Lemma safe_next_wave now : safe playing_ok (Game.next_wave now).
Proof.
  intros g Hg. pose proof Hg as ((Hsel & Hts & Hes) & [w Hw] & Hwd).
  unfold Game.next_wave, Game.with_world. rewrite Hw.
  cbn [Game.world Game.set_world Game.set_wave_started
       Game.set_last_enemy_spawn].
  match goal with
  | |- context [Game.process_enemies ?g0] =>
      pose proof (process_enemies_playing g0 ltac:(now eexists)) as Hp;
      destruct (Game.process_enemies g0) as [g1|x g1]
  end; [|exact Hp].
  destruct Hp as (Ht & He & Hs & Hw1 & Hd & _). cbn in Ht, He, Hs, Hd.
  cbn [obind]. split; [|split; [exact Hw1|cbn; rewrite Hd; exact Hwd]].
  unfold core_ok, selection_ok in *. cbn. rewrite Ht, He, Hs.
  rewrite length_fmap. split; [exact Hsel|]. split; [|exact Hes].
  apply Forall_fmap. eapply Forall_impl; [exact Hts|].
  intros t Ht0. exact Ht0.
Qed.

Lemma safe_skip_wave now : safe playing_ok (Game.skip_wave now).
Proof.
  intros g Hg. pose proof Hg as ((Hsel & Hts & Hes) & [w Hw] & Hwd).
  destruct (Game.wave_started g) eqn:Hs.
  - rewrite (skip_wave_next_wave now g w Hw Hs).
    apply safe_next_wave.
    split; [|split; [now eexists|exact Hwd]].
    split; [exact Hsel|]. split; [exact Hts|constructor].
  - unfold Game.skip_wave. rewrite Hs. exact Hg.
Qed.

Lemma safe_completion_block now : safe playing_ok (Game.completion_block now).
Proof.
  intros g Hg. pose proof Hg as (_ & [w Hw] & _).
  destruct (World.is_wave_completed w) eqn:Hc.
  - destruct (Game.MAX_LEVELS <? World.level w) eqn:Hl.
    + unfold Game.completion_block, Game.with_world. rewrite Hw, Hc, Hl.
      exact Hg.
    + assert (Heq : Game.completion_block now g = Game.next_wave now g).
      { unfold Game.completion_block, Game.next_wave, Game.with_world.
        now rewrite Hw, Hc, Hl. }
      rewrite Heq. now apply safe_next_wave.
  - unfold Game.completion_block, Game.with_world. rewrite Hw, Hc. exact Hg.
Qed.

Lemma safe_spawn_block now b : safe playing_ok (Game.spawn_block now b).
Proof.
  intros g Hg. pose proof Hg as ((Hsel & Hts & Hes) & [w Hw] & Hwd).
  unfold Game.spawn_block, Game.with_world. rewrite Hw.
  destruct (Game.wave_started g);
    [|destruct (begin_button b); exact Hg].
  destruct (c.SPAWN_COOLDOWN <? now - Game.last_enemy_spawn g); [|exact Hg].
  destruct (World.spawned_enemies w <? Z.of_nat (length (World.enemy_list w)));
    [|exact Hg].
  destruct (py_getitem (World.enemy_list w) (World.spawned_enemies w));
    [|reflexivity].
  destruct (Enemy.init e (World.waypoints w) (Game.selected_difficulty g))
    as [enemy|] eqn:He; [|reflexivity].
  split; [|split; [now eexists|exact Hwd]].
  split; [exact Hsel|]. split; [exact Hts|]. cbn.
  apply Forall_app. split; [exact Hes|].
  constructor; [|constructor]. exact (enemy_init_ok _ _ _ _ He).
Qed.

Lemma the_selected_lookup g i t :
  Game.the_selected g = Some (i, t) ->
  Game.selected_turret g = Some i /\ Game.turret_group g !! i = Some t.
Proof.
  unfold Game.the_selected.
  destruct (Game.selected_turret g) as [j|]; [|discriminate].
  destruct (Game.turret_group g !! j) eqn:Hj; [|discriminate].
  now intros [= <- <-].
Qed.

Lemma core_ok_insert g i t t' :
  core_ok g -> Game.turret_group g !! i = Some t -> turret_wf t' ->
  selection_ok (Game.set_turret_group (<[i := t']> (Game.turret_group g)) g) /\
  Forall turret_wf (<[i := t']> (Game.turret_group g)).
Proof.
  intros (Hsel & Hts & _) _ Ht'. split.
  - unfold selection_ok in *. cbn. rewrite length_insert. exact Hsel.
  - now apply Forall_insert.
Qed.

Lemma safe_upgrade_block now b : safe playing_ok (Game.upgrade_block now b).
Proof.
  intros g Hg. pose proof Hg as (Hcore & [w Hw] & Hwd).
  pose proof Hcore as (Hsel & Hts & Hes).
  unfold Game.upgrade_block, Game.with_world.
  destruct (Game.the_selected g) as [[i t]|] eqn:Hs; [|exact Hg].
  destruct (the_selected_lookup g i t Hs) as [_ Hi].
  destruct (_ && _); [|exact Hg].
  destruct (negb (Turret.tidal_active t)); [|exact Hg].
  rewrite Hw. destruct (c.UPGRADE_COST <=? World.money w); [|exact Hg].
  assert (Hwf : turret_wf t).
  { rewrite Forall_forall in Hts. apply Hts.
    eapply list_elem_of_lookup_2, Hi. }
  destruct (upgrade_wf t Hwf) as (t' & -> & Hwf').
  destruct (core_ok_insert g i t t' Hcore Hi Hwf') as [Hsel' Hts'].
  split; [|split; [now eexists|exact Hwd]].
  split; [exact Hsel'|]. split; [exact Hts'|exact Hes].
Qed.

Lemma safe_tidal_block now b : safe playing_ok (Game.tidal_block now b).
Proof.
  intros g Hg. pose proof Hg as (Hcore & [w Hw] & Hwd).
  pose proof Hcore as (Hsel & Hts & Hes).
  unfold Game.tidal_block, Game.with_world.
  destruct (Game.the_selected g) as [[i t]|] eqn:Hs; [|exact Hg].
  destruct (the_selected_lookup g i t Hs) as [_ Hi].
  destruct (tidal_upgrade_button b); [|exact Hg].
  destruct (Game.wave_started g); [|exact Hg].
  destruct (_ && _); [|exact Hg].
  rewrite Hw. destruct (c.TIDAL_UPGRADE_COST <=? World.money w); [|exact Hg].
  assert (Hwf : turret_wf t).
  { rewrite Forall_forall in Hts. apply Hts.
    eapply list_elem_of_lookup_2, Hi. }
  destruct (core_ok_insert g i t (Turret.tidally_upgrade now t) Hcore Hi
              (tidally_upgrade_wf now t Hwf)) as [Hsel' Hts'].
  split; [|split; [now eexists|exact Hwd]].
  split; [exact Hsel'|]. split; [exact Hts'|exact Hes].
Qed.

Lemma safe_sell_block now b : safe playing_ok (Game.sell_block now b).
Proof.
  intros g Hg. pose proof Hg as ((Hsel & Hts & Hes) & [w Hw] & Hwd).
  unfold Game.sell_block, Game.with_world.
  destruct (Game.the_selected g) as [[i t]|]; [|exact Hg].
  destruct (sell_button b); [|exact Hg].
  rewrite Hw.
  split; [|split; [now eexists|exact Hwd]].
  split; [exact I|]. split; [|exact Hes]. cbn. now apply Forall_delete.
Qed.

Lemma safe_restart_level now : safe playing_ok (Game.restart_level now).
Proof.
  intros g (_ & _ & [data Hd]). unfold Game.restart_level.
  cbn [Game.world_data Game.set_state Game.set_game_status
       Game.set_wave_started Game.set_placing_turrets
       Game.set_selected_turret Game.set_last_enemy_spawn
       Game.set_current_turret_type].
  rewrite Hd.
  match goal with
  | |- context [Game.process_enemies ?g0] =>
      pose proof (process_enemies_playing g0 ltac:(now eexists)) as Hp;
      destruct (Game.process_enemies g0) as [g1|x g1]
  end; [|exact Hp].
  destruct Hp as (_ & _ & Hs1 & Hw1 & Hd1 & _). cbn in Hs1, Hd1.
  cbn [obind]. split; [|split; [exact Hw1|]].
  - split; [unfold selection_ok; cbn; now rewrite Hs1|]. split; constructor.
  - cbn. rewrite Hd1, Hd. now eexists.
Qed.

Lemma safe_back_block now b : safe playing_ok (Game.back_block now b).
Proof.
  intros g Hg. unfold Game.back_block.
  destruct (back_to_menu_button b); [now apply safe_restart_level|exact Hg].
Qed.

Lemma safe_skip_block now b : safe playing_ok (Game.skip_block now b).
Proof.
  intros g Hg. pose proof Hg as (_ & [w Hw] & _).
  unfold Game.skip_block, Game.with_world. rewrite Hw.
  destruct (_ && _); [|exact Hg].
  destruct (skip_button b); [now apply safe_skip_wave|exact Hg].
Qed.

Lemma shop_block_playing now b g :
  playing_ok g -> playing_ok (Game.shop_block now b g).
Proof.
  intros Hg. apply (playing_ok_same g); try exact Hg;
    unfold Game.shop_block; repeat case_match; try reflexivity;
    destruct Hg as (_ & Hw & _); exact Hw.
Qed.

Lemma message_block_playing now g :
  playing_ok g -> playing_ok (Game.message_block now g).
Proof.
  intros Hg. apply (playing_ok_same g); try exact Hg;
    unfold Game.message_block; repeat case_match; try reflexivity;
    destruct Hg as (_ & Hw & _); exact Hw.
Qed.

Lemma safe_draw_game_blocks now b :
  safe playing_ok (fun g =>
    Game.spawn_block now b g >>> Game.completion_block now
    >>> (fun g => Ok (Game.shop_block now b g))
    >>> Game.upgrade_block now b >>> Game.tidal_block now b
    >>> Game.sell_block now b >>> Game.back_block now b
    >>> Game.skip_block now b
    >>> (fun g => Ok (Game.message_block now g))).
Proof.
  repeat apply safe_obind.
  - apply safe_spawn_block.
  - apply safe_completion_block.
  - intros g Hg. now apply shop_block_playing.
  - apply safe_upgrade_block.
  - apply safe_tidal_block.
  - apply safe_sell_block.
  - apply safe_back_block.
  - apply safe_skip_block.
  - intros g Hg. now apply message_block_playing.
Qed.

Lemma playing_session g : playing_ok g -> session_ok g.
Proof. intros (Hc & Hw & Hd). split; [exact Hc|]. now intros _. Qed.

Lemma session_playing g :
  session_ok g -> Game.state g <> menu -> playing_ok g.
Proof. intros (Hc & Hp) Hs. destruct (Hp Hs). now split. Qed.

Lemma find_turret_lt tx ty i ts j :
  Game.find_turret tx ty i ts = Some j -> (i <= j < i + length ts)%nat.
Proof.
  revert i. induction ts as [|t ts IH]; intros i; cbn; [discriminate|].
  destruct (_ && _).
  - intros [= <-]. lia.
  - intros Hj. apply IH in Hj. lia.
Qed.

Lemma create_turret_playing now pos g :
  playing_ok g ->
  match Game.create_turret now pos g with
  | Ok (g', _) => playing_ok g' /\ Game.world g' = Game.world g
  | Raise x _ => x = IndexError
  end.
Proof.
  intros Hg. pose proof Hg as ((Hsel & Hts & Hes) & [w Hw] & Hwd).
  unfold Game.create_turret, Game.with_world. rewrite Hw.
  destruct (py_getitem (World.tile_map w) _); [|reflexivity].
  destruct (_ =? 161); [|split; [exact Hg|exact Hw]].
  destruct (Game.occupied_tiles g !! _); [split; [exact Hg|exact Hw]|].
  destruct (Turret.init now _ _ _ _ _) as [t|] eqn:Hinit; [|reflexivity].
  split; [|exact Hw].
  split; [|split; [exists w; exact Hw|exact Hwd]].
  split; [|split; [|exact Hes]].
  - unfold selection_ok in *. cbn. rewrite length_app. cbn.
    destruct (Game.selected_turret g); [lia|exact I].
  - cbn. apply Forall_app. split; [exact Hts|].
    constructor; [|constructor]. exact (init_wf _ _ _ _ _ _ _ Hinit).
Qed.

Lemma safe_click_game now pos : safe playing_ok (Game.click_game now pos).
Proof.
  intros g Hg. pose proof Hg as ((Hsel & Hts & Hes) & [w Hw] & Hwd).
  unfold Game.click_game, Game.with_world.
  destruct (_ && _); [|exact Hg].
  destruct (Game.placing_turrets g).
  - rewrite Hw.
    destruct (_ <=? _); [|exact Hg].
    pose proof (create_turret_playing now pos g Hg) as Hc.
    destruct (Game.create_turret now pos g) as [[g1 [|]]|x [g1 flag]];
      [| |exact Hc].
    + destruct Hc as [Hg1 Hw1]. rewrite Hw1, Hw.
      apply (playing_ok_same g1); try reflexivity; [now eexists|exact Hg1].
    + now destruct Hc.
  - assert (Hfm : Forall turret_wf
                    (Turret.set_selected false <$> Game.turret_group g)).
    { apply Forall_fmap. eapply Forall_impl; [exact Hts|].
      intros t Ht. exact Ht. }
    destruct (Game.select_turret pos g) as [j|] eqn:Hj.
    + split; [|split; [exists w; exact Hw|exact Hwd]].
      split; [|split; [|exact Hes]].
      * unfold selection_ok. cbn. rewrite length_alter, length_fmap.
        unfold Game.select_turret in Hj. apply find_turret_lt in Hj. lia.
      * cbn. apply Forall_alter; [exact Hfm|]. intros t _ Ht. exact Ht.
    + split; [|split; [exists w; exact Hw|exact Hwd]].
      split; [exact I|]. split; [exact Hfm|exact Hes].
Qed.

Lemma click_menu_session map_hit difficulty_hit :
  safe session_ok (Game.click_menu map_hit difficulty_hit).
Proof.
  intros g Hg. pose proof Hg as ((Hsel & Hts & Hes) & Hp).
  unfold Game.click_menu. destruct map_hit as [data|].
  - match goal with
    | |- context [Game.process_enemies ?g0] =>
        pose proof (process_enemies_playing g0 ltac:(now eexists)) as Hpe;
        destruct (Game.process_enemies g0) as [g1|x g1]
    end; [|exact Hpe].
    destruct Hpe as (Ht & He & Hs & Hw1 & Hd & _). cbn in Ht, He, Hs, Hd.
    cbn [obind]. split.
    + unfold core_ok, selection_ok in *. cbn. rewrite Ht, He, Hs.
      now repeat split.
    + intros _. cbn. rewrite Hd. split; [exact Hw1|now eexists].
  - destruct difficulty_hit; [|exact Hg].
    destruct (py_getitem _ _); [exact Hg|reflexivity].
Qed.

Lemma handle_events_session now events g :
  session_ok g ->
  match Game.handle_events now events g with
  | Ok (g', _) => session_ok g'
  | Raise x _ => x = IndexError
  end.
Proof.
  revert g. induction events as [|ev events IH]; intros g Hg; [exact Hg|].
  destruct ev as [| |pos map_hit difficulty_hit]; cbn [Game.handle_events];
    [exact Hg|now apply IH|].
  destruct (Game.state g) eqn:Hst.
  - pose proof (click_menu_session map_hit difficulty_hit g Hg) as Hc.
    destruct (Game.click_menu map_hit difficulty_hit g); [now apply IH|].
    exact Hc.
  - pose proof (safe_click_game now pos g
                  (session_playing g Hg ltac:(congruence))) as Hc.
    destruct (Game.click_game now pos g);
      [apply IH; now apply playing_session|exact Hc].
  - now apply IH.
Qed.

Lemma update_session now g :
  session_ok g -> exists g', Game.update now g = Ok g' /\ session_ok g'.
Proof.
  intros Hg. destruct (Game.state g) eqn:Hst.
  - exists g. split; [|exact Hg]. unfold Game.update. now rewrite Hst.
  - destruct (update_returns now g (session_playing g Hg ltac:(congruence)))
      as (g' & Hu & Hg' & _).
    exists g'. split; [exact Hu|now apply playing_session].
  - exists g. split; [|exact Hg]. unfold Game.update. now rewrite Hst.
Qed.

Lemma draw_session now b : safe session_ok (Game.draw now b).
Proof.
  intros g Hg. unfold Game.draw, Game.draw_game, Game.draw_game_over.
  destruct (Game.state g) eqn:Hst; [exact Hg| |].
  - pose proof (safe_draw_game_blocks now b g
                  (session_playing g Hg ltac:(congruence))) as Hd.
    cbn beta in Hd.
    match goal with
    | |- match ?o with _ => _ end =>
        destruct o; [now apply playing_session|exact Hd]
    end.
  - destruct (restart_button b); [|exact Hg].
    pose proof (safe_restart_level now g
                  (session_playing g Hg ltac:(congruence))) as Hr.
    destruct (Game.restart_level now g);
      [now apply playing_session|exact Hr].
Qed.

Lemma frame_session f g :
  session_ok g ->
  match Game.frame f g with
  | Ok (g', _) => session_ok g'
  | Raise x _ => x = IndexError
  end.
Proof.
  intros Hg. unfold Game.frame.
  pose proof (handle_events_session (Game.ticks f) (Game.events f) g Hg)
    as He.
  destruct (Game.handle_events _ _ g) as [[g1 running]|x [g1 running]];
    [|exact He].
  destruct (update_session (Game.ticks f) g1 He) as (g2 & -> & Hg2).
  cbn [obind].
  pose proof (draw_session (Game.ticks f) (Game.buttons f) g2 Hg2) as Hd.
  destruct (Game.draw _ _ g2); exact Hd.
Qed.

Lemma run_session fs g :
  session_ok g ->
  match Game.run fs g with
  | Ok g' => session_ok g'
  | Raise x _ => x = IndexError
  end.
Proof.
  revert g. induction fs as [|f fs IH]; intros g Hg; [exact Hg|].
  cbn [Game.run]. pose proof (frame_session f g Hg) as Hf.
  destruct (Game.frame f g) as [[g1 [|]]|x [g1 running]];
    [now apply IH|exact Hf|exact Hf].
Qed.

Lemma init_session now seed : session_ok (Game.init now seed).
Proof.
  split; [split; [exact I|split; constructor]|]. intros Hs. now destruct Hs.
Qed.

(** Whatever the player does and however the frames are timed, a session
    that has not raised is in order: the selected turret, if any, is one of
    the group; every turret has a level of its kind's table, the base stats
    of that level and a valid animation frame; every enemy has a plain path
    index and positive speeds; and outside the menu a map is loaded and its
    world exists.  And a session raises nothing but [IndexError]: never the
    [ValueError] of a zero vector in [move], never an [AttributeError] on a
    missing world or map. *)
Theorem session_stays_in_order (now : Z) (seed : Rng)
    (fs : list Game.Frame) :
  match Game.run fs (Game.init now seed) with
  | Ok g =>
      selection_ok g /\
      Forall turret_wf (Game.turret_group g) /\
      Forall enemy_ok (Game.enemy_group g) /\
      (Game.state g <> menu ->
       is_Some (Game.world g) /\ is_Some (Game.world_data g))
  | Raise x _ => x = IndexError
  end.
Proof.
  pose proof (run_session fs (Game.init now seed) (init_session now seed))
    as Hr.
  destruct (Game.run fs (Game.init now seed)); [|exact Hr].
  destruct Hr as ((Hsel & Hts & Hes) & Hp).
  exact (conj Hsel (conj Hts (conj Hes Hp))).
Qed.

(** In every state a session reaches, [update] returns: the enemies move
    and the turrets fire without any exception, at any time. *)
Theorem update_never_raises (now : Z) (seed : Rng) (fs : list Game.Frame)
    (g : Game.Game) (later : Z) :
  Game.run fs (Game.init now seed) = Ok g ->
  exists g', Game.update later g = Ok g'.
Proof.
  intros Hrun.
  pose proof (run_session fs (Game.init now seed) (init_session now seed))
    as Hr.
  rewrite Hrun in Hr.
  destruct (update_session later g Hr) as (g' & Hu & _). now exists g'.
Qed.

End SessionFacts.

(** ** main.py: the roster and the counters over a session *)

Section RosterSession.
Context `{Platform}.
Hypothesis Hperm : shuffle_permutes.

Lemma steady_obind k1 k2 :
  steady k1 -> steady k2 -> steady (fun g => k1 g >>> k2).
Proof.
  intros H1 H2 g Hg. specialize (H1 g Hg).
  destruct (k1 g); cbn; [now apply H2|exact I].
Qed.

Lemma counts_up_refl w : counts_up w w.
Proof. unfold counts_up. repeat split; lia. Qed.

Lemma counts_up_trans w1 w2 w3 :
  counts_up w1 w2 -> counts_up w2 w3 -> counts_up w1 w3.
Proof.
  intros (Hl & He & Hs & Hk & Hm) (Hl' & He' & Hs' & Hk' & Hm').
  unfold counts_up. rewrite Hl', He', Hs'. repeat split; auto; lia.
Qed.

Lemma world_ok_counts_up w w' : counts_up w w' -> world_ok w -> world_ok w'.
Proof.
  intros (Hl & He & Hs & Hk & Hm) (Hlev & (row & Hrow & Hp) & Hsp & Hk0 & Hm0).
  unfold world_ok. rewrite Hl, He, Hs.
  split; [exact Hlev|]. split; [now exists row|]. split; [exact Hsp|]. lia.
Qed.

(** A block that leaves the world, or changes only its money or health. *)
Lemma steady_by_final (k : Game.Game -> outcome Game.Game) :
  (forall g w, Game.world g = Some w ->
     exists w', Game.world (final (k g)) = Some w' /\ counts_up w w') ->
  (forall g, Game.world g = None -> Game.world (final (k g)) = None) ->
  steady k.
Proof.
  intros Hw Hnone g Hg.
  assert (Hf : roster_ok (final (k g))).
  { unfold roster_ok in *. destruct (Game.world g) as [w|] eqn:Hgw.
    - destruct (Hw g w Hgw) as (w' & -> & Hc).
      exact (world_ok_counts_up w w' Hc Hg).
    - now rewrite (Hnone g Hgw). }
  destruct (k g); [exact Hf|exact I].
Qed.

Lemma counts_up_set_money w m : counts_up w (World.set_money m w).
Proof. unfold counts_up. cbn. repeat split; lia. Qed.

Lemma steady_click_game now pos : steady (Game.click_game now pos).
Proof.
  apply steady_by_final.
  - intros g w Hw.
    destruct (click_game_spend now pos g w Hw) as (w' & Hw' & Hcase).
    exists w'. split; [exact Hw'|].
    destruct Hcase as [->|(_ & _ & ->)];
      [apply counts_up_refl|apply counts_up_set_money].
  - intros g Hw. unfold Game.click_game, Game.with_world. rewrite Hw.
    repeat case_match; cbn; assumption.
Qed.

Lemma steady_upgrade_block now b : steady (Game.upgrade_block now b).
Proof.
  apply steady_by_final.
  - intros g w Hw.
    destruct (upgrade_block_spend now b g w Hw) as (w' & Hw' & Hcase).
    exists w'. split; [exact Hw'|].
    destruct Hcase as [->|(_ & ->)];
      [apply counts_up_refl|apply counts_up_set_money].
  - intros g Hw. unfold Game.upgrade_block, Game.with_world. rewrite Hw.
    repeat case_match; cbn; assumption.
Qed.

Lemma steady_tidal_block now b : steady (Game.tidal_block now b).
Proof.
  apply steady_by_final.
  - intros g w Hw.
    destruct (tidal_block_spend now b g w Hw) as (w' & Hw' & Hcase).
    exists w'. split; [exact Hw'|].
    destruct Hcase as [->|(_ & ->)];
      [apply counts_up_refl|apply counts_up_set_money].
  - intros g Hw. unfold Game.tidal_block, Game.with_world. rewrite Hw.
    repeat case_match; cbn; assumption.
Qed.

Lemma steady_sell_block now b : steady (Game.sell_block now b).
Proof.
  apply steady_by_final.
  - intros g w Hw. unfold Game.sell_block, Game.with_world. rewrite Hw.
    repeat case_match; cbn;
      first [ exists w; split; [assumption|apply counts_up_refl]
            | eexists; split; [reflexivity|apply counts_up_set_money] ].
  - intros g Hw. unfold Game.sell_block, Game.with_world. rewrite Hw.
    repeat case_match; cbn; assumption.
Qed.

Lemma steady_pure (f : Game.Game -> Game.Game) :
  (forall g, Game.world (f g) = Game.world g) -> steady (fun g => Ok (f g)).
Proof. intros Hf g Hg. unfold roster_ok in *. now rewrite Hf. Qed.

Lemma enemy_update_counts now w e :
  counts_up w (final (Enemy.update now (w, e))).1.
Proof.
  unfold counts_up, Enemy.update, Enemy.move, Enemy.check_if_alive,
    Enemy.rotate, Enemy.update_slow_effect.
  repeat (case_match; cbn); repeat split; lia.
Qed.

Lemma update_enemies_counts now w es :
  counts_up w (final (Game.update_enemies now w es)).1.
Proof.
  revert w. induction es as [|e es IH]; intros w; cbn;
    [apply counts_up_refl|].
  pose proof (enemy_update_counts now w e) as He.
  destruct (Enemy.update now (w, e)) as [[w1 e1]|x [w1 e1]]; cbn in He |- *;
    [|exact He].
  rewrite final_omap. cbn. exact (counts_up_trans _ _ _ He (IH w1)).
Qed.

Lemma steady_update now : steady (Game.update now).
Proof.
  intros g Hg. unfold Game.update, Game.with_world.
  destruct (Game.state g); try exact Hg.
  destruct (Game.world g) as [w|] eqn:Hw; [|exact I].
  assert (Hwo : world_ok w).
  { unfold roster_ok in Hg. now rewrite Hw in Hg. }
  destruct (World.health w <=? 0).
  { unfold roster_ok. cbn. now rewrite Hw. }
  destruct (Game.MAX_LEVELS <? World.level w).
  { unfold roster_ok. cbn. now rewrite Hw. }
  pose proof (update_enemies_counts now w (Game.enemy_group g)) as Hc.
  destruct (Game.update_enemies now w (Game.enemy_group g))
    as [[w1 es1]|x [w1 es1]]; cbn in Hc |- *; [|exact I].
  match goal with
  | |- context [Game.update_turrets now ?ts ?es] =>
      destruct (Game.update_turrets now ts es) as [[ts2 es2]|x [ts2 es2]]
  end; cbn; [|exact I].
  unfold roster_ok. cbn. exact (world_ok_counts_up w w1 Hc Hwo).
Qed.

(** [process_enemies] on a world whose roster has been cleared. *)
Lemma process_enemies_fresh g w (h : Game.Game -> Game.Game) :
  (forall g, Game.world (h g) = Game.world g) ->
  Game.world g = Some w ->
  World.enemy_list w = [] -> World.spawned_enemies w = 0 ->
  World.killed_enemies w = 0 -> World.missed_enemies w = 0 ->
  1 <= World.level w ->
  match Game.process_enemies g >>> (fun g => Ok (h g)) with
  | Ok g' => roster_ok g'
  | Raise _ _ => True
  end.
Proof.
  intros Hh Hw He Hs Hk Hm Hl.
  unfold Game.process_enemies, Game.with_world. rewrite Hw.
  unfold World.process_enemies. cbn [fst].
  destruct (py_getitem WAVE_ENEMY_DATA (World.level w - 1)) as [row|] eqn:Hrow;
    cbn; [|exact I].
  pose proof (foldl_add_kind_roster row w (Game.rng g) Hperm) as Hp.
  pose proof (foldl_add_kind_account row w (Game.rng g)) as Ha.
  destruct (foldl World.add_kind (w, Game.rng g) row) as [w' r'].
  cbn [fst snd] in Hp, Ha |- *.
  destruct Ha as (Hl' & _ & _ & Hs' & Hk' & Hm' & _).
  unfold roster_ok. rewrite Hh. cbn.
  assert (Hrange : is_Some (py_getitem WAVE_ENEMY_DATA (World.level w - 1)))
    by eauto.
  apply py_getitem_Some_iff in Hrange.
  change (Z.of_nat (length WAVE_ENEMY_DATA)) with 16 in Hrange.
  rewrite He in Hp. cbn in Hp.
  unfold world_ok. rewrite Hl', Hs', Hk', Hm', Hs, Hk, Hm.
  change Game.MAX_LEVELS with 16.
  split; [lia|]. split; [now exists row|]. lia.
Qed.

Lemma steady_next_wave now : steady (Game.next_wave now).
Proof.
  intros g Hg. unfold Game.next_wave, Game.with_world.
  destruct (Game.world g) as [w|] eqn:Hw; [|exact I].
  assert (Hwo : world_ok w).
  { unfold roster_ok in Hg. now rewrite Hw in Hg. }
  cbn [Game.world Game.set_world Game.set_wave_started
       Game.set_last_enemy_spawn].
  destruct Hwo as (Hlev & _).
  eapply (process_enemies_fresh _ _
            (fun g => Game.set_turret_group
                        (Turret.reset_tidal_upgrade <$> Game.turret_group g)
                        g));
    [reflexivity|reflexivity|reflexivity|reflexivity|reflexivity|reflexivity|].
  cbn. lia.
Qed.

Lemma steady_skip_wave now : steady (Game.skip_wave now).
Proof.
  intros g Hg.
  destruct (Game.wave_started g) eqn:Hs.
  - destruct (Game.world g) as [w|] eqn:Hw.
    + rewrite (skip_wave_next_wave now g w Hw Hs).
      apply steady_next_wave.
      unfold roster_ok in *. cbn. rewrite Hw in Hg.
      apply (world_ok_counts_up w); [|exact Hg].
      unfold counts_up. cbn. repeat split; lia.
    + unfold Game.skip_wave, Game.with_world. rewrite Hs. cbn.
      rewrite Hw. exact I.
  - unfold Game.skip_wave. rewrite Hs. exact Hg.
Qed.

Lemma steady_completion_block now : steady (Game.completion_block now).
Proof.
  intros g Hg.
  destruct (Game.world g) as [w|] eqn:Hw.
  - assert (Hwo : world_ok w).
    { unfold roster_ok in Hg. now rewrite Hw in Hg. }
    assert (Hlw : (Game.MAX_LEVELS <? World.level w) = false).
    { apply Z.ltb_ge. destruct Hwo as (Hlev & _). lia. }
    destruct (World.is_wave_completed w) eqn:Hc.
    + assert (Heq : Game.completion_block now g = Game.next_wave now g).
      { unfold Game.completion_block, Game.next_wave, Game.with_world.
        now rewrite Hw, Hc, Hlw. }
      rewrite Heq. now apply steady_next_wave.
    + unfold Game.completion_block, Game.with_world. rewrite Hw, Hc.
      exact Hg.
  - unfold Game.completion_block, Game.with_world. rewrite Hw. exact I.
Qed.

Lemma steady_restart_level now : steady (Game.restart_level now).
Proof.
  intros g _. unfold Game.restart_level.
  cbn [Game.world_data Game.set_state Game.set_game_status
       Game.set_wave_started Game.set_placing_turrets
       Game.set_selected_turret Game.set_last_enemy_spawn
       Game.set_current_turret_type].
  destruct (Game.world_data g) as [data|]; [|exact I].
  eapply (process_enemies_fresh _ _
            (fun g => Game.set_message EmptyString 0
                        (Game.set_occupied_tiles ∅
                           (Game.set_turret_group []
                              (Game.set_enemy_group [] g)))));
    [reflexivity|reflexivity|reflexivity|reflexivity|reflexivity|reflexivity|].
  cbn. lia.
Qed.

Lemma steady_click_menu map_hit difficulty_hit :
  steady (Game.click_menu map_hit difficulty_hit).
Proof.
  intros g Hg. unfold Game.click_menu. destruct map_hit as [data|].
  - eapply (process_enemies_fresh _ _ (Game.set_state game));
      [reflexivity|reflexivity|reflexivity|reflexivity|reflexivity
      |reflexivity|].
    cbn. lia.
  - destruct difficulty_hit; [|exact Hg].
    destruct (py_getitem _ _); [exact Hg|exact I].
Qed.

Lemma steady_spawn_block now b : steady (Game.spawn_block now b).
Proof.
  intros g Hg. unfold Game.spawn_block, Game.with_world.
  destruct (Game.wave_started g); [|now destruct (begin_button b)].
  destruct (_ <? _); [|exact Hg].
  destruct (Game.world g) as [w|] eqn:Hw; [|exact I].
  assert (Hwo : world_ok w).
  { unfold roster_ok in Hg. now rewrite Hw in Hg. }
  destruct (Z.ltb_spec (World.spawned_enemies w)
              (Z.of_nat (length (World.enemy_list w)))) as [Hlt|Hge];
    [|exact Hg].
  destruct (py_getitem _ _); [|exact I].
  destruct (Enemy.init _ _ _); [|exact I].
  unfold roster_ok. cbn.
  destruct Hwo as (Hlev & Hrow & Hsp & Hk & Hm).
  unfold world_ok. cbn. repeat split; auto; lia.
Qed.

Lemma steady_back_block now b : steady (Game.back_block now b).
Proof.
  intros g Hg. unfold Game.back_block.
  destruct (back_to_menu_button b); [now apply steady_restart_level|exact Hg].
Qed.

Lemma steady_skip_block now b : steady (Game.skip_block now b).
Proof.
  intros g Hg. unfold Game.skip_block, Game.with_world.
  destruct (Game.world g) as [w|] eqn:Hw; [|exact I].
  destruct (_ && _); [|exact Hg].
  destruct (skip_button b); [now apply steady_skip_wave|exact Hg].
Qed.

Lemma steady_draw_game now b : steady (Game.draw_game now b).
Proof.
  intros g Hg. unfold Game.draw_game.
  destruct (Game.state g); try exact Hg.
  revert g Hg.
  change (steady (fun g =>
    Game.spawn_block now b g >>> Game.completion_block now
    >>> (fun g => Ok (Game.shop_block now b g))
    >>> Game.upgrade_block now b >>> Game.tidal_block now b
    >>> Game.sell_block now b >>> Game.back_block now b
    >>> Game.skip_block now b
    >>> (fun g => Ok (Game.message_block now g)))).
  repeat apply steady_obind.
  - apply steady_spawn_block.
  - apply steady_completion_block.
  - apply steady_pure. intros g. apply shop_block_world.
  - apply steady_upgrade_block.
  - apply steady_tidal_block.
  - apply steady_sell_block.
  - apply steady_back_block.
  - apply steady_skip_block.
  - apply steady_pure. intros g. apply message_block_world.
Qed.

Lemma steady_draw now b : steady (Game.draw now b).
Proof.
  intros g Hg. unfold Game.draw, Game.draw_game_over.
  destruct (Game.state g); [exact Hg|now apply steady_draw_game|].
  destruct (restart_button b); [now apply steady_restart_level|exact Hg].
Qed.

Lemma handle_events_steady now events g :
  roster_ok g ->
  match Game.handle_events now events g with
  | Ok (g', _) => roster_ok g'
  | Raise _ _ => True
  end.
Proof.
  revert g. induction events as [|ev events IH]; intros g Hg; [exact Hg|].
  destruct ev as [| |pos map_hit difficulty_hit]; cbn [Game.handle_events];
    [exact Hg|now apply IH|].
  destruct (Game.state g).
  - pose proof (steady_click_menu map_hit difficulty_hit g Hg) as Hc.
    destruct (Game.click_menu map_hit difficulty_hit g);
      [now apply IH|exact I].
  - pose proof (steady_click_game now pos g Hg) as Hc.
    destruct (Game.click_game now pos g); [now apply IH|exact I].
  - now apply IH.
Qed.

Lemma frame_steady f g :
  roster_ok g ->
  match Game.frame f g with
  | Ok (g', _) => roster_ok g'
  | Raise _ _ => True
  end.
Proof.
  intros Hg. unfold Game.frame.
  pose proof (handle_events_steady (Game.ticks f) (Game.events f) g Hg)
    as He.
  destruct (Game.handle_events _ _ g) as [[g1 running]|x [g1 running]];
    [|exact I].
  pose proof (steady_obind _ _ (steady_update (Game.ticks f))
                (steady_draw (Game.ticks f) (Game.buttons f)) g1 He) as Hud.
  cbn beta in Hud.
  destruct (Game.update (Game.ticks f) g1
            >>> Game.draw (Game.ticks f) (Game.buttons f)); exact Hud.
Qed.

Lemma run_steady fs g :
  roster_ok g ->
  match Game.run fs g with
  | Ok g' => roster_ok g'
  | Raise _ _ => True
  end.
Proof.
  revert g. induction fs as [|f fs IH]; intros g Hg; [exact Hg|].
  cbn [Game.run]. pose proof (frame_steady f g Hg) as Hf.
  destruct (Game.frame f g) as [[g1 [|]]|x [g1 running]];
    [now apply IH|exact Hf|exact I].
Qed.

(** In every state a session reaches without exception, the world, if one
    has been built, is in step with the wave table: the level is one of the
    sixteen waves, the roster is exactly the enemies of that wave's row in
    some order (never a stale, doubled or partial one: [reset_values] comes
    before every [process_enemies], and restart and map choice build the
    world anew), [spawned_enemies] lies between 0 and the size of the
    roster, and the kill and miss counters are not negative.  The shuffle is
    only assumed to return a rearrangement of its argument. *)
Theorem roster_matches_level (now : Z) (seed : Rng) (fs : list Game.Frame)
    (g : Game.Game) (w : World.World) :
  Game.run fs (Game.init now seed) = Ok g ->
  Game.world g = Some w ->
  1 <= World.level w <= 16 /\
  (exists row,
     py_getitem WAVE_ENEMY_DATA (World.level w - 1) = Some row /\
     World.enemy_list w ≡ₚ expand row) /\
  0 <= World.spawned_enemies w <= Z.of_nat (length (World.enemy_list w)) /\
  0 <= World.killed_enemies w /\ 0 <= World.missed_enemies w.
Proof.
  intros Hrun Hw.
  pose proof (run_steady fs (Game.init now seed) I) as Hr.
  rewrite Hrun in Hr. unfold roster_ok in Hr. rewrite Hw in Hr. exact Hr.
Qed.

End RosterSession.

(** ** main.py: the UPGRADE button *)

Section UpgradeFacts.
Context `{Platform}.

Lemma upgrade_below_top t :
  turret_wf t ->
  Turret.turret_level t
  < Z.of_nat (length (TURRET_DATA (Turret.turret_type t))) ->
  exists t',
    Turret.upgrade t = Ok t' /\
    Turret.turret_level t' = Turret.turret_level t + 1 /\
    Turret.turret_type t' = Turret.turret_type t.
Proof.
  intros (Hlev & Hframe & d & Hd & Hstats) Hlt.
  unfold Turret.upgrade.
  replace (Turret.turret_level t
           <? Z.of_nat (length (TURRET_DATA (Turret.turret_type t))))
    with true by (symmetry; apply Z.ltb_lt; exact Hlt).
  cbn [Turret.turret_type Turret.turret_level Turret.set_turret_level].
  assert (Hs : is_Some (py_getitem (TURRET_DATA (Turret.turret_type t))
                          (Turret.turret_level t + 1 - 1))).
  { apply py_getitem_Some_iff. lia. }
  destruct Hs as [d' Hd']. rewrite Hd'.
  cbn [Turret.turret_type Turret.load_stats Turret.set_turret_level].
  match goal with
  | |- context [Turret.frame_ok ?t0] =>
      change (Turret.frame_ok t0) with (Turret.frame_ok t)
  end.
  rewrite Hframe. eexists. split; [reflexivity|]. split; reflexivity.
Qed.

(** The UPGRADE button charges exactly when it upgrades.  With a turret
    selected whose stats are those of its level, the handler never raises
    and touches no other turret; either the turrets and the world are as
    they were, or the button was pressed on a turret below its last level
    and without tidal upgrade while the cost was covered, and then the cost
    is deducted and the selected turret is replaced by its upgraded version,
    one level higher.  Under those four conditions the upgrade does
    happen. *)
Theorem upgrade_charged_iff_upgraded (now : Z) (b : Buttons) (g : Game.Game)
    (i : nat) (t : Turret.Turret) (w : World.World) :
  Game.the_selected g = Some (i, t) ->
  Game.world g = Some w ->
  turret_wf t ->
  let wanted :=
    upgrade_button b = true /\
    Turret.turret_level t
    < Z.of_nat (length (TURRET_DATA (Turret.turret_type t))) /\
    Turret.tidal_active t = false /\
    c.UPGRADE_COST <= World.money w in
  exists g',
    Game.upgrade_block now b g = Ok g' /\
    Game.selected_turret g' = Game.selected_turret g /\
    Game.enemy_group g' = Game.enemy_group g /\
    (forall j, j <> i ->
       Game.turret_group g' !! j = Game.turret_group g !! j) /\
    (~ wanted ->
     Game.turret_group g' = Game.turret_group g /\ Game.world g' = Some w) /\
    (wanted ->
     exists t',
       Turret.upgrade t = Ok t' /\
       Turret.turret_level t' = Turret.turret_level t + 1 /\
       Game.turret_group g' !! i = Some t' /\
       Game.world g'
       = Some (World.set_money (World.money w - c.UPGRADE_COST) w)).
Proof.
  intros Hsel Hw Hwf wanted. subst wanted.
  pose proof (the_selected_lookup g i t Hsel) as [_ Hi].
  unfold Game.upgrade_block, Game.with_world. rewrite Hsel.
  assert (Hsame : forall g0,
    Game.selected_turret g0 = Game.selected_turret g ->
    Game.enemy_group g0 = Game.enemy_group g ->
    Game.turret_group g0 = Game.turret_group g ->
    Game.world g0 = Some w ->
    ~ (upgrade_button b = true /\
       Turret.turret_level t
       < Z.of_nat (length (TURRET_DATA (Turret.turret_type t))) /\
       Turret.tidal_active t = false /\
       c.UPGRADE_COST <= World.money w) ->
    exists g',
      Ok g0 = Ok g' /\
      Game.selected_turret g' = Game.selected_turret g /\
      Game.enemy_group g' = Game.enemy_group g /\
      (forall j, j <> i ->
         Game.turret_group g' !! j = Game.turret_group g !! j) /\
      (~ (upgrade_button b = true /\
          Turret.turret_level t
          < Z.of_nat (length (TURRET_DATA (Turret.turret_type t))) /\
          Turret.tidal_active t = false /\
          c.UPGRADE_COST <= World.money w) ->
       Game.turret_group g' = Game.turret_group g /\
       Game.world g' = Some w) /\
      (upgrade_button b = true /\
       Turret.turret_level t
       < Z.of_nat (length (TURRET_DATA (Turret.turret_type t))) /\
       Turret.tidal_active t = false /\
       c.UPGRADE_COST <= World.money w ->
       exists t',
         Turret.upgrade t = Ok t' /\
         Turret.turret_level t' = Turret.turret_level t + 1 /\
         Game.turret_group g' !! i = Some t' /\
         Game.world g'
         = Some (World.set_money (World.money w - c.UPGRADE_COST) w))).
  { intros g0 Hs He Ht Hw0 Hnot. exists g0.
    split; [reflexivity|]. split; [exact Hs|]. split; [exact He|].
    split; [intros j _; now rewrite Ht|].
    split; [intros _; now split|].
    intros Hyes. contradiction. }
  destruct (Z.ltb_spec (Turret.turret_level t)
              (Z.of_nat (length (TURRET_DATA (Turret.turret_type t)))))
    as [Hlt|Hge]; cbn [andb].
  2:{ apply Hsame; try reflexivity; [exact Hw|].
      intros (_ & Hlt & _). lia. }
  destruct (upgrade_button b) eqn:Hb.
  2:{ apply Hsame; try reflexivity; [exact Hw|].
      intros (Hb' & _). discriminate. }
  destruct (Turret.tidal_active t) eqn:Hta; cbn [negb].
  { apply Hsame; try reflexivity; [exact Hw|].
    intros (_ & _ & Hta' & _). discriminate. }
  rewrite Hw.
  destruct (Z.leb_spec c.UPGRADE_COST (World.money w)) as [Hcost|Hcost].
  2:{ apply Hsame; try reflexivity; [exact Hw|].
      intros (_ & _ & _ & Hc). lia. }
  destruct (upgrade_below_top t Hwf Hlt) as (t' & Hup & Hlev & _).
  rewrite Hup. eexists. split; [reflexivity|]. cbn.
  split; [reflexivity|]. split; [reflexivity|].
  split; [intros j Hj; now apply list_lookup_insert_ne|].
  split; [intros Hnot; exfalso; apply Hnot; now repeat split|].
  intros _. exists t'. split; [reflexivity|]. split; [exact Hlev|].
  split; [|reflexivity].
  apply list_lookup_insert_eq. now apply lookup_lt_Some in Hi.
Qed.

End UpgradeFacts.

(** ** The further theorems at concrete inputs *)

Section MoreWitnesses.

Lemma identity_shuffle_permutes : shuffle_permutes.
Proof. intros A r l. reflexivity. Defined.

Lemma process_enemies_roster_witness :
  py_getitem WAVE_ENEMY_DATA (World.level Cases.first_wave_done - 1)
  = Some (wave 8 0 0 0) /\
  exists w' r',
    World.process_enemies (Cases.first_wave_done, tt) = Ok (w', r') /\
    length (World.enemy_list w') = 16%nat.
Proof.
  split; [reflexivity|].
  destruct (process_enemies_roster (H := run_platform) Cases.first_wave_done tt (wave 8 0 0 0)
              identity_shuffle_permutes eq_refl)
    as (w' & r' & Hok & _ & Hlen & _).
  exists w', r'. split; [exact Hok|exact Hlen].
Defined.

Lemma fresh_wave_not_completed_witness :
  World.process_enemies (World.reset_values Cases.first_wave_done, tt)
  = Ok (Cases.second_wave, tt) /\
  World.is_wave_completed Cases.second_wave = false /\
  World.level Cases.second_wave = 2.
Proof.
  assert (Hok : World.process_enemies
                  (World.reset_values Cases.first_wave_done, tt)
                = Ok (Cases.second_wave, tt)) by reflexivity.
  split; [exact Hok|].
  destruct (fresh_wave_not_completed (H := run_platform) Cases.first_wave_done tt
              Cases.second_wave tt identity_shuffle_permutes Hok)
    as (_ & Hc & _ & Hl).
  split; [exact Hc|exact Hl].
Defined.

Lemma move_raises_iff_witness :
  0 <= Enemy.target_waypoint Scenario.fresh_weak /\
  raised (Enemy.move (Cases.first_wave, Scenario.fresh_weak)) = None.
Proof.
  assert (Hidx : 0 <= Enemy.target_waypoint Scenario.fresh_weak)
    by discriminate.
  split; [exact Hidx|].
  destruct (move_raises_iff Cases.first_wave Scenario.fresh_weak Hidx)
    as (_ & _ & _ & Hpos & _).
  apply Hpos. reflexivity.
Defined.

Lemma firing_cycle_witness :
  spaced (Turret.update_time Cases.aiming_turret)
    ([120; 140; 160; 180; 200; 220; 240] ++ [260]) /\
  exists t',
    animate ([120; 140; 160; 180; 200; 220; 240] ++ [260]) Cases.aiming_turret
    = Ok t' /\
    Turret.target t' = None /\ Turret.last_shot t' = 260.
Proof.
  assert (Hsp : spaced (Turret.update_time Cases.aiming_turret)
                  ([120; 140; 160; 180; 200; 220; 240] ++ [260]))
    by (cbn; repeat split; reflexivity).
  split; [exact Hsp|].
  destruct (firing_cycle Cases.aiming_turret 0
              [120; 140; 160; 180; 200; 220; 240] 260
              eq_refl eq_refl eq_refl Hsp) as (_ & _ & Hend).
  destruct (Hend eq_refl) as (t' & Ha & _ & Ht & Hl & _).
  exists t'. split; [exact Ha|]. split; [exact Ht|exact Hl].
Defined.

Lemma single_click_fires_once_witness :
  let held := [(false, true); (true, true); (true, true); (false, true);
               (true, true)] in
  Forall (fun i => i.2 = true) held /\
  (length (filter (fun a => a = true)
             (Button.draws held (Button.init true)).2) <= 1)%nat.
Proof.
  intros held.
  assert (Hall : Forall (fun i => i.2 = true) held)
    by (repeat constructor).
  split; [exact Hall|].
  destruct (single_click_fires_once held (Button.init true) eq_refl Hall)
    as (Hone & _).
  exact Hone.
Defined.

Lemma map_mouse_cursor_inside_witness :
  exists mapped,
    map_mouse_cursor (1920, 1080) (1260, 960) (960, 540)%Q = Some mapped /\
    (0 <= mapped.1)%Q /\ (mapped.1 < 1260)%Q /\
    (0 <= mapped.2)%Q /\ (mapped.2 < 960)%Q.
Proof.
  destruct (map_mouse_cursor_inside (1920, 1080) (1260, 960) (960, 540)%Q
              eq_refl eq_refl eq_refl eq_refl)
    as (mapped & Hm & Hx & Hy & _).
  exists mapped. split; [exact Hm|].
  destruct Hx as [Hx0 Hx1]; [discriminate|reflexivity|].
  destruct Hy as [Hy0 Hy1]; [discriminate|reflexivity|].
  repeat split; assumption.
Defined.


Lemma sell_refund_witness :
  Game.the_selected Cases.one_selected
  = Some (0%nat, Scenario.standard_turret) /\
  exists g' refund,
    Game.sell_block 700 Cases.press_sell Cases.one_selected = Ok g' /\
    Game.turret_group g' = [] /\
    Game.world g'
    = Some (World.set_money (650 + refund) Cases.first_wave) /\
    10 * refund = 3 * 200.
Proof.
  split; [reflexivity|].
  destruct (sell_refund 700 Cases.press_sell Cases.one_selected 0
              Scenario.standard_turret Cases.first_wave
              eq_refl eq_refl eq_refl)
    as (g' & refund & Hs & Ht & _ & _ & _ & _ & Hw & Hr & _).
  exists g', refund. split; [exact Hs|]. split; [exact Ht|].
  split; [exact Hw|exact Hr].
Defined.

Lemma game_over_frozen_witness :
  let fs := [Scenario.idle 10;
             Scenario.click 20 (24, 24)%Q None Scenario.press_begin;
             Scenario.idle 30] in
  Game.state Cases.lost_game = game_over /\
  final (Game.run fs Cases.lost_game) = Cases.lost_game /\
  raised (Game.run fs Cases.lost_game) = None.
Proof.
  intros fs. split; [reflexivity|].
  assert (Hall : Forall (fun f => restart_button (Game.buttons f) = false) fs)
    by (repeat constructor).
  destruct (game_over_frozen fs Cases.lost_game eq_refl Hall)
    as (_ & Hf & Hr).
  split; [exact Hf|exact Hr].
Defined.

Lemma spawn_paces_witness :
  c.SPAWN_COOLDOWN < 1000 - Game.last_enemy_spawn Cases.wave_running /\
  exists enemy g',
    Enemy.init weak (World.waypoints Cases.first_wave) normal = Some enemy /\
    Game.spawn_block 1000 Scenario.no_buttons Cases.wave_running = Ok g' /\
    Game.enemy_group g' = [enemy] /\
    Game.spawn_block 1800 Scenario.no_buttons g' = Ok g'.
Proof.
  split; [reflexivity|].
  destruct (spawn_paces 1000 Scenario.no_buttons Cases.wave_running
              Cases.first_wave eq_refl eq_refl eq_refl)
    as (kind & enemy & g' & Hk & He & Hs & Hg & _ & _ & _ & Hsoon).
  - split; [discriminate|reflexivity].
  - discriminate.
  - injection Hk as <-. exists enemy, g'.
    split; [exact He|]. split; [exact Hs|]. split; [exact Hg|].
    apply Hsoon. discriminate.
Defined.

Lemma restart_level_fresh_witness :
  Game.world_data Cases.lost_game = Some Scenario.short_level /\
  exists g' w',
    Game.restart_level 5000 Cases.lost_game = Ok g' /\
    Game.state g' = menu /\ Game.turret_group g' = [] /\
    Game.world g' = Some w' /\ World.level w' = 1 /\
    World.money w' = c.MONEY.
Proof.
  split; [reflexivity|].
  destruct (restart_level_fresh 5000 Cases.lost_game Scenario.short_level
              eq_refl)
    as (g' & w' & Hr & Hs & _ & _ & _ & _ & _ & Ht & _ & _ & _ & Hw & Hl
        & _ & Hm & _).
  exists g', w'. repeat split; assumption.
Defined.

Lemma update_never_raises_witness :
  Game.run Scenario.two_turrets_session (Game.init 0 tt)
  = Ok Cases.after_two_turrets /\
  exists g', Game.update 3300 Cases.after_two_turrets = Ok g'.
Proof.
  assert (Hrun : Game.run Scenario.two_turrets_session (Game.init 0 tt)
                 = Ok Cases.after_two_turrets)
    by (vm_compute; reflexivity).
  split; [exact Hrun|].
  exact (update_never_raises (H := run_platform) 0 tt Scenario.two_turrets_session
           Cases.after_two_turrets 3300 Hrun).
Defined.

Lemma roster_matches_level_witness :
  Game.run Scenario.two_turrets_session (Game.init 0 tt)
  = Ok Cases.after_two_turrets /\
  exists w,
    Game.world Cases.after_two_turrets = Some w /\
    1 <= World.level w <= 16 /\
    0 <= World.spawned_enemies w <= Z.of_nat (length (World.enemy_list w)).
Proof.
  assert (Hrun : Game.run Scenario.two_turrets_session (Game.init 0 tt)
                 = Ok Cases.after_two_turrets)
    by (vm_compute; reflexivity).
  split; [exact Hrun|].
  destruct (Game.world Cases.after_two_turrets) as [w|] eqn:Hw;
    [|vm_compute in Hw; discriminate].
  exists w. split; [reflexivity|].
  destruct (roster_matches_level (H := run_platform)
              identity_shuffle_permutes 0 tt Scenario.two_turrets_session
              Cases.after_two_turrets w Hrun Hw)
    as (Hl & _ & Hs & _).
  split; [exact Hl|exact Hs].
Defined.

Lemma upgrade_charged_iff_upgraded_witness :
  Game.the_selected Cases.one_selected
  = Some (0%nat, Scenario.standard_turret) /\
  turret_wf Scenario.standard_turret /\
  exists g' t',
    Game.upgrade_block 700 Cases.press_upgrade Cases.one_selected = Ok g' /\
    Turret.turret_level t' = 2 /\
    Game.turret_group g' !! 0%nat = Some t' /\
    Game.world g'
    = Some (World.set_money (650 - c.UPGRADE_COST) Cases.first_wave).
Proof.
  split; [reflexivity|].
  assert (Hwf : turret_wf Scenario.standard_turret).
  { split; [split; discriminate|]. split; [reflexivity|].
    eexists. split; [reflexivity|]. repeat split. }
  split; [exact Hwf|].
  pose proof (upgrade_charged_iff_upgraded 700 Cases.press_upgrade
                Cases.one_selected 0 Scenario.standard_turret
                Cases.first_wave eq_refl eq_refl Hwf) as Hu.
  cbv zeta in Hu.
  destruct Hu as (g' & Hb & _ & _ & _ & _ & Hyes).
  destruct Hyes as (t' & _ & Hl & Hi & Hm).
  - split; [reflexivity|]. split; [reflexivity|].
    split; [reflexivity|discriminate].
  - exists g', t'. split; [exact Hb|]. split; [exact Hl|].
    split; [exact Hi|exact Hm].
Defined.

End MoreWitnesses.
